(** * Compliance scanner: a shallow embedding of the scanning core

    The development follows [core/models.py], [core/rule_engine.py],
    [core/detectors.py] and [core/scanner.py].

    Text is a sequence of code points below 256 ([list ascii]); the
    character tables of Python's [re] and [str] are given on that range.
    Everything that the code obtains from outside (the file system,
    [pathlib], [uuid.uuid4], the clock, the compiled patterns of the rule
    catalogue) is an explicit argument. *)

From Stdlib Require Import String Ascii DecimalString.
From Stdlib Require Import List Arith ZArith Lia Bool Permutation Sorted.
Import ListNotations.
Local Open Scope list_scope.

(* ================================================================== *)
(** * Text *)
(* ================================================================== *)

Definition text := list ascii.

Definition lit (s : string) : text := list_ascii_of_string s.

Definition newline : ascii := "010"%char.
Definition dquote : ascii := "034"%char.
Definition star_char : ascii := "*"%char.

Definition code (c : ascii) : nat := nat_of_ascii c.

Definition between (lo hi : nat) (c : ascii) : bool :=
  (lo <=? code c) && (code c <=? hi).

(** [\d] of a [str] pattern: the decimal digits (below 256, '0'..'9'). *)
Definition is_digit (c : ascii) : bool := between 48 57 c.

(** [\s] of a [str] pattern, code points below 256. *)
Definition is_space (c : ascii) : bool :=
  between 9 13 c || between 28 32 c || (code c =? 133) || (code c =? 160).

(** [\w] of a [str] pattern ([str.isalnum] or underscore), code points
    below 256. *)
Definition is_word (c : ascii) : bool :=
  between 48 57 c || between 65 90 c || between 97 122 c || (code c =? 95)
  || (code c =? 170) || (code c =? 178) || (code c =? 179) || (code c =? 181)
  || (code c =? 185) || (code c =? 186) || between 188 190 c
  || between 192 214 c || between 216 246 c || between 248 255 c.

(** [str.lower] on one code point below 256. *)
Definition lower_char (c : ascii) : ascii :=
  if between 65 90 c || (between 192 222 c && negb (code c =? 215))
  then ascii_of_nat (code c + 32) else c.

(** [s.lower()] *)
Definition lower (s : text) : text := map lower_char s.

Definition text_eqb (a b : text) : bool :=
  if list_eq_dec ascii_dec a b then true else false.

(** [s.startswith(p)] *)
Fixpoint starts_with (p s : text) : bool :=
  match p, s with
  | [], _ => true
  | _ :: _, [] => false
  | a :: p', b :: s' => Ascii.eqb a b && starts_with p' s'
  end.

(** [needle in hay] *)
Fixpoint contains (needle hay : text) : bool :=
  starts_with needle hay ||
  match hay with
  | [] => false
  | _ :: hay' => contains needle hay'
  end.

(** [s.count('\n')] *)
Definition count_newlines (s : text) : nat :=
  count_occ ascii_dec s newline.

(** [s.split('\n')]: [cur] is the line being read, in reverse. *)
Fixpoint split_lines_from (cur : text) (s : text) : list text :=
  match s with
  | [] => [rev cur]
  | c :: s' =>
      if Ascii.eqb c newline then rev cur :: split_lines_from [] s'
      else split_lines_from (c :: cur) s'
  end.

Definition split_lines (s : text) : list text := split_lines_from [] s.

(** [sep.join(parts)] *)
Fixpoint join (sep : text) (parts : list text) : text :=
  match parts with
  | [] => []
  | [p] => p
  | p :: rest => p ++ sep ++ join sep rest
  end.

(** [xs[lo:hi]] for [0 <= lo] and [0 <= hi <= len(xs)]. *)
Definition slice {A} (xs : list A) (lo hi : nat) : list A :=
  firstn (hi - lo) (skipn lo xs).

(** [str(n)] for a non-negative int. *)
Definition str_of_nat (n : nat) : text :=
  lit (NilEmpty.string_of_uint (Nat.to_uint n)).

(** [s.replace(a, b)] for single characters [a] and [b]. *)
Definition replace_char (a b : ascii) (s : text) : text :=
  map (fun c => if Ascii.eqb c a then b else c) s.

(* ================================================================== *)
(** * The fragment of [re] used by the fixed patterns

    Every fixed pattern of the source is an alternation of sequences whose
    elements are a single-character set under a greedy quantifier, or the
    assertion [\b]. *)
(* ================================================================== *)

(** Members of a bracketed set. *)
Inductive set_atom : Type :=
| Range (lo hi : ascii)
| Chr (c : ascii)
| Digits
| Spaces.

Definition in_atom (c : ascii) (a : set_atom) : bool :=
  match a with
  | Range lo hi => between (code lo) (code hi) c
  | Chr x => Ascii.eqb c x
  | Digits => is_digit c
  | Spaces => is_space c
  end.

Definition in_set (atoms : list set_atom) (c : ascii) : bool :=
  existsb (in_atom c) atoms.

(** A literal character; with IGNORECASE both sides are lower-cased
    (exact for characters below code point 256). *)
Definition exactly (x : ascii) (c : ascii) : bool := Ascii.eqb c x.
Definition exactly_ci (x : ascii) (c : ascii) : bool :=
  Ascii.eqb (lower_char c) (lower_char x).
(** [.] without DOTALL *)
Definition dot (c : ascii) : bool := negb (Ascii.eqb c newline).

Inductive item : Type :=
| Rep (cls : ascii -> bool) (lo : nat) (hi : option nat)
| WordBoundary.

Definition one (cls : ascii -> bool) : item := Rep cls 1 (Some 1).
Definition opt (cls : ascii -> bool) : item := Rep cls 0 (Some 1).
Definition many (cls : ascii -> bool) : item := Rep cls 0 None.
Definition many1 (cls : ascii -> bool) : item := Rep cls 1 None.
Definition times (n : nat) (cls : ascii -> bool) : item := Rep cls n (Some n).
Definition at_least (n : nat) (cls : ascii -> bool) : item := Rep cls n None.

Definition literal (s : text) : list item := map (fun x => one (exactly x)) s.
Definition literal_ci (s : text) : list item :=
  map (fun x => one (exactly_ci x)) s.

Definition is_word_opt (c : option ascii) : bool :=
  match c with
  | Some x => is_word x
  | None => false
  end.

(** [\b] between the previous character (if any) and the rest of the text. *)
Definition at_boundary (prev : option ascii) (s : text) : bool :=
  xorb (is_word_opt prev) (is_word_opt (hd_error s)).

(** Length of the longest prefix of [s] inside [cls]. *)
Fixpoint prefix_len (cls : ascii -> bool) (s : text) : nat :=
  match s with
  | [] => 0
  | c :: s' => if cls c then S (prefix_len cls s') else 0
  end.

Definition run (cls : ascii -> bool) (hi : option nat) (s : text) : nat :=
  match hi with
  | Some h => Nat.min h (prefix_len cls s)
  | None => prefix_len cls s
  end.

(** The character before the position reached after [u]. *)
Definition prev_after (prev : option ascii) (u : text) : option ascii :=
  last (map Some u) prev.

(** Greedy repetition: the longest count first, then one less, down to
    [lo]. *)
Fixpoint try_down (k lo : nat) (f : nat -> option nat) : option nat :=
  if k <? lo then None
  else match f k with
       | Some r => Some r
       | None => match k with
                 | 0 => None
                 | S k' => try_down k' lo f
                 end
       end.

(** Match a sequence at the head of [s]; the result is the number of
    characters consumed. *)
Fixpoint match_seq (r : list item) (prev : option ascii) (s : text)
  : option nat :=
  match r with
  | [] => Some 0
  | WordBoundary :: r' =>
      if at_boundary prev s then match_seq r' prev s else None
  | Rep cls lo hi :: r' =>
      try_down (run cls hi s) lo
        (fun k => option_map (Nat.add k)
                    (match_seq r' (prev_after prev (firstn k s)) (skipn k s)))
  end.

Definition regex := list (list item).

(** Alternatives are tried from left to right. *)
Fixpoint match_alt (alts : regex) (prev : option ascii) (s : text)
  : option nat :=
  match alts with
  | [] => None
  | r :: alts' =>
      match match_seq r prev s with
      | Some n => Some n
      | None => match_alt alts' prev s
      end
  end.

(** [re.search(p, s) is not None], scanning start positions from the
    left. *)
Fixpoint search_from (p : regex) (prev : option ascii) (s : text) : bool :=
  match match_alt p prev s with
  | Some _ => true
  | None => match s with
            | [] => false
            | c :: s' => search_from p (Some c) s'
            end
  end.

Definition re_search (p : regex) (s : text) : bool := search_from p None s.

(** [re.sub(p, mask, s)] for a pattern that never matches the empty
    string.  [skip] counts the characters of the current match still to be
    dropped. *)
Fixpoint sub_from (p : regex) (mask : text) (prev : option ascii)
  (s : text) (skip : nat) : text :=
  match s with
  | [] => []
  | c :: s' =>
      match skip with
      | S k => sub_from p mask (Some c) s' k
      | 0 =>
          match match_alt p prev s with
          | Some (S n) => mask ++ sub_from p mask (Some c) s' n
          | _ => c :: sub_from p mask (Some c) s' 0
          end
      end
  end.

Definition re_sub (p : regex) (mask : text) (s : text) : text :=
  sub_from p mask None s 0.

(* ================================================================== *)
(** * core/models.py *)
(* ================================================================== *)

Inductive Severity : Type := CRITICAL | HIGH | MEDIUM | LOW.

Definition severity_value (s : Severity) : text :=
  match s with
  | CRITICAL => lit "critical"
  | HIGH => lit "high"
  | MEDIUM => lit "medium"
  | LOW => lit "low"
  end.

Inductive Framework : Type := ISO27001 | SOC2 | GDPR.

Definition framework_value (f : Framework) : text :=
  match f with
  | ISO27001 => lit "iso27001"
  | SOC2 => lit "soc2"
  | GDPR => lit "gdpr"
  end.

Definition framework_eqb (a b : Framework) : bool :=
  match a, b with
  | ISO27001, ISO27001 | SOC2, SOC2 | GDPR, GDPR => true
  | _, _ => false
  end.

(** [Literal["high", "medium", "low"]] *)
Inductive Confidence : Type := conf_high | conf_medium | conf_low.

Record Finding : Type := mkFinding {
  id : text;
  rule_id : text;
  framework : Framework;
  control_id : text;
  severity : Severity;
  file_path : text;
  line_range : text;
  evidence_snippet : text;
  why_it_matters : text;
  remediation_steps : text;
  mapping_confidence : Confidence;
  needs_review : bool
}.

(** A [Dict[str, int]] with its keys in insertion order. *)
Definition dict (V : Type) := list (text * V).

Fixpoint dict_get {V} (d : dict V) (k : text) (default : V) : V :=
  match d with
  | [] => default
  | (k', v) :: d' => if text_eqb k k' then v else dict_get d' k default
  end.

(** [d[k] += 1] for a key that is present. *)
Fixpoint dict_incr (d : dict nat) (k : text) : dict nat :=
  match d with
  | [] => []
  | (k', v) :: d' =>
      if text_eqb k k' then (k', S v) :: d' else (k', v) :: dict_incr d' k
  end.

Record ScanSummary : Type := mkScanSummary {
  total_files_scanned : nat;
  total_findings : nat;
  findings_by_severity : dict nat;
  findings_by_framework : dict nat;
  (** in hundredths of a second, the precision [round(duration, 2)] keeps *)
  scan_duration_seconds : Z
}.

(** The recommendation messages carry symbols above code point 255; they
    are kept by kind, with the count they print. *)
Inductive Recommendation : Type :=
| AddressCritical (critical_count : nat)
| ReviewHigh (high_count : nat)
| PiiHandling
| RotateCredentials
| ReviewConfigurations.

Record ScanResult : Type := mkScanResult {
  scan_id : text;
  timestamp : Z;
  paths_scanned : list text;
  summary : ScanSummary;
  findings : list Finding;
  top_risks : list Finding;
  recommendations : list Recommendation
}.

(* ================================================================== *)
(** * The outside world *)
(* ================================================================== *)

(** A [pathlib.Path] with the attributes and methods the scanner uses. *)
Record Path : Type := mkPath {
  path_str : text;                (* str(path) *)
  suffix : text;                  (* path.suffix *)
  parts : list text;              (* path.parts *)
  path_match : text -> bool       (* path.match(glob) *)
}.

Record World : Type := mkWorld {
  make_path : text -> Path;       (* Path(path_str) *)
  is_file : Path -> bool;
  is_dir : Path -> bool;
  rglob : Path -> list Path;      (* path.rglob('*'), in iteration order *)
  st_size : Path -> nat;          (* path.stat().st_size *)
  read_text : Path -> option text;(* open(...).read(); None when it raises *)
  uuid4 : nat -> text;            (* str(uuid.uuid4()) at the n-th draw *)
  time_start : Z;                 (* time.time() on entry, in 1/100 s *)
  time_end : Z;                   (* time.time() after sorting *)
  now : Z                         (* datetime.now() *)
}.

(* ================================================================== *)
(** * core/rule_engine.py *)
(* ================================================================== *)

(** A rule of the catalogue.  Its pattern is compiled from the rule file;
    [r_pattern content] lists the [(start, end)] offsets that
    [pattern.finditer(content)] yields. *)
Record Rule : Type := mkRule {
  r_id : text;
  r_framework : Framework;
  r_control_id : text;
  r_severity : Severity;
  r_pattern : text -> list (nat * nat);
  r_file_globs : list text;
  r_why_it_matters : text;
  r_remediation_steps : text;
  r_mapping_confidence : Confidence;
  r_needs_review : bool
}.

Definition email_local : ascii -> bool :=
  in_set [Range "A" "Z"; Range "a" "z"; Range "0" "9";
          Chr "."; Chr "_"; Chr "%"; Chr "+"; Chr "-"].
Definition email_domain : ascii -> bool :=
  in_set [Range "A" "Z"; Range "a" "z"; Range "0" "9"; Chr "."; Chr "-"].
Definition email_tld : ascii -> bool :=
  in_set [Range "A" "Z"; Chr "|"; Range "a" "z"].
Definition dash_or_space : ascii -> bool := in_set [Chr "-"; Chr " "].
Definition token_char : ascii -> bool :=
  in_set [Range "A" "Z"; Range "a" "z"; Range "0" "9"; Chr "+"; Chr "/"].

(** [\b[A-Za-z0-9._%+-]+@[A-Za-z0-9.-]+\.[A-Z|a-z]{2,}\b] *)
Definition EMAIL_BODY : list item :=
  [many1 email_local; one (exactly "@"); many1 email_domain;
   one (exactly "."); at_least 2 email_tld].
(** [\b\d{4}[- ]?\d{4}[- ]?\d{4}[- ]?\d{4}\b] *)
Definition CARD_BODY : list item :=
  [times 4 is_digit; opt dash_or_space; times 4 is_digit; opt dash_or_space;
   times 4 is_digit; opt dash_or_space; times 4 is_digit].
(** [\b\d{3}[- ]?\d{3}[- ]?\d{4}\b] *)
Definition PHONE_BODY : list item :=
  [times 3 is_digit; opt dash_or_space; times 3 is_digit; opt dash_or_space;
   times 4 is_digit].
(** [\b[A-Za-z0-9+/]{20,}\b] *)
Definition TOKEN_BODY : list item := [at_least 20 token_char].

(** [\b body \b] *)
Definition bounded (body : list item) : regex :=
  [WordBoundary :: body ++ [WordBoundary]].

Definition EMAIL_RE : regex := bounded EMAIL_BODY.
Definition CARD_RE : regex := bounded CARD_BODY.
Definition PHONE_RE : regex := bounded PHONE_BODY.
Definition TOKEN_RE : regex := bounded TOKEN_BODY.

Definition EMAIL_MASK : text := lit "****@****.***".
Definition CARD_MASK : text := lit "****-****-****-****".
Definition PHONE_MASK : text := lit "***-***-****".
Definition TOKEN_MASK : text := lit "****[REDACTED]****".

Definition _redact_sensitive_data (text0 : text) : text :=
  let text1 := re_sub EMAIL_RE EMAIL_MASK text0 in
  let text2 := re_sub CARD_RE CARD_MASK text1 in
  let text3 := re_sub PHONE_RE PHONE_MASK text2 in
  let text4 := re_sub TOKEN_RE TOKEN_MASK text3 in
  text4.

Definition _extract_evidence (content : text) (start end_ : nat) : text :=
  let lines := split_lines content in
  let start_line := count_newlines (firstn start content) in
  let end_line := count_newlines (firstn end_ content) in
  let context_start := Z.to_nat (Z.max 0 (Z.of_nat start_line - 2)) in
  let context_end := Nat.min (length lines) (end_line + 3) in
  let evidence_lines := slice lines context_start context_end in
  join [newline] evidence_lines.

(** The body of the inner loop of [scan_file]: one match, one finding. *)
Definition match_finding (rule : Rule) (file_path0 : Path) (content : text)
  (m : nat * nat) (uuid : text) : Finding :=
  let line_num := count_newlines (firstn (fst m) content) + 1 in
  let line_end := count_newlines (firstn (snd m) content) + 1 in
  let evidence := _extract_evidence content (fst m) (snd m) in
  let evidence_redacted := _redact_sensitive_data evidence in
  {| id := uuid;
     rule_id := r_id rule;
     framework := r_framework rule;
     control_id := r_control_id rule;
     severity := r_severity rule;
     file_path := path_str file_path0;
     line_range := str_of_nat line_num ++ lit "-" ++ str_of_nat line_end;
     evidence_snippet := evidence_redacted;
     why_it_matters := r_why_it_matters rule;
     remediation_steps := r_remediation_steps rule;
     mapping_confidence := r_mapping_confidence rule;
     needs_review := r_needs_review rule |}.

(** The state threaded through the scan: the findings appended so far and
    the number of uuids drawn. *)
Definition acc := (list Finding * nat)%type.

(** [findings.append(Finding(id=str(uuid.uuid4()), ...))] *)
Definition append_fresh (w : World) (mk : text -> Finding) (a : acc) : acc :=
  (fst a ++ [mk (uuid4 w (snd a))], S (snd a)).

Definition rule_applies (rule : Rule) (file_path0 : Path) : bool :=
  existsb (path_match file_path0) (r_file_globs rule).

Definition scan_rule (w : World) (file_path0 : Path) (content : text)
  (a : acc) (rule : Rule) : acc :=
  if negb (rule_applies rule file_path0) then a
  else fold_left
         (fun a' m => append_fresh w (match_finding rule file_path0 content m) a')
         (r_pattern rule content) a.

Definition scan_file (w : World) (rules : list Rule) (file_path0 : Path)
  (content : text) (st : nat) : acc :=
  fold_left (scan_rule w file_path0 content) rules ([], st).

(* ================================================================== *)
(** * core/detectors.py *)
(* ================================================================== *)

Record Section_ : Type := mkSection {
  keywords : list text;
  sec_control_id : text
}.

Definition REQUIRED_SECTIONS : list (Framework * list Section_) :=
  [ (GDPR,
     [ mkSection [lit "data retention"; lit "retention period"] (lit "Article 5");
       mkSection [lit "data subject rights"; lit "individual rights"] (lit "Article 12");
       mkSection [lit "data protection impact"; lit "DPIA"] (lit "Article 35");
       mkSection [lit "data breach"; lit "incident response"] (lit "Article 33") ]);
    (ISO27001,
     [ mkSection [lit "access control"; lit "access management"] (lit "A.9");
       mkSection [lit "incident response"; lit "incident management"] (lit "A.16");
       mkSection [lit "encryption"; lit "cryptographic"] (lit "A.10") ]);
    (SOC2,
     [ mkSection [lit "access control"; lit "logical access"] (lit "CC 6.1");
       mkSection [lit "encryption"; lit "data protection"] (lit "CC 6.7");
       mkSection [lit "monitoring"; lit "system monitoring"] (lit "CC 7.1") ]) ].

Definition policy_indicators : list text :=
  [lit "policy"; lit "procedure"; lit "guideline"; lit "standard";
   lit "privacy"; lit "security"].

Definition _is_policy_document (content : text) : bool :=
  let content_lower := lower content in
  existsb (fun indicator => contains indicator content_lower) policy_indicators.

Definition gap_finding (file_path0 : Path) (fw : Framework) (section : Section_)
  (uuid : text) : Finding :=
  {| id := uuid;
     rule_id := lit "doc_gap_" ++ framework_value fw ++ lit "_"
                ++ replace_char " " "_"
                     (replace_char "." "_" (sec_control_id section));
     framework := fw;
     control_id := sec_control_id section;
     severity := MEDIUM;
     file_path := path_str file_path0;
     line_range := lit "1-end";
     evidence_snippet := lit "Missing section: " ++ join (lit ", ") (keywords section);
     why_it_matters := lit "Policy documents should address "
                       ++ hd [] (keywords section)
                       ++ lit " requirements for " ++ framework_value fw
                       ++ lit " compliance";
     remediation_steps := lit "Add a section covering "
                          ++ join (lit ", ") (keywords section)
                          ++ lit " in the policy document";
     mapping_confidence := conf_medium;
     needs_review := true |}.

Definition section_missing (content_lower : text) (section : Section_) : bool :=
  negb (existsb (fun keyword => contains keyword content_lower)
          (keywords section)).

Definition scan_document (w : World) (file_path0 : Path) (content : text)
  (st : nat) : acc :=
  if negb (_is_policy_document content) then ([], st)
  else
    let content_lower := lower content in
    fold_left
      (fun a (entry : Framework * list Section_) =>
         let (fw, sections) := entry in
         fold_left
           (fun a' section =>
              if section_missing content_lower section
              then append_fresh w (gap_finding file_path0 fw section) a'
              else a')
           sections a)
      REQUIRED_SECTIONS ([], st).

Definition quoted (s : text) : text := dquote :: s ++ [dquote].

(** [ssl\s*[:=]\s*false|verify\s*[:=]\s*false|tls\s*[:=]\s*false],
    IGNORECASE *)
Definition flag_false (name : string) : list item :=
  literal_ci (lit name)
  ++ [many is_space; one (in_set [Chr ":"; Chr "="]); many is_space]
  ++ literal_ci (lit "false").
Definition DISABLED_TLS_RE : regex :=
  [flag_false "ssl"; flag_false "verify"; flag_false "tls"].

(** ["Action"\s*:\s*"\*"] and ["Resource"\s*:\s*"\*"] *)
Definition wildcard_pair (name : string) : list item :=
  literal (quoted (lit name))
  ++ [many is_space; one (exactly ":"); many is_space]
  ++ literal (quoted (lit "*")).
(** ["Action"\s*:\s*"\*".*"Resource"\s*:\s*"\*"] *)
Definition ACTION_RESOURCE_RE : regex :=
  [wildcard_pair "Action" ++ [many dot] ++ wildcard_pair "Resource"].
(** ["Resource"\s*:\s*"\*".*"Action"\s*:\s*"\*"] *)
Definition RESOURCE_ACTION_RE : regex :=
  [wildcard_pair "Resource" ++ [many dot] ++ wildcard_pair "Action"].

(** ["public"[\s\n]*:[\s\n]*true|public[\s]*=[\s]*true], IGNORECASE *)
Definition PUBLIC_RE : regex :=
  [ literal_ci (quoted (lit "public"))
    ++ [many (in_set [Spaces; Chr newline]); one (exactly ":");
        many (in_set [Spaces; Chr newline])]
    ++ literal_ci (lit "true");
    literal_ci (lit "public")
    ++ [many (in_set [Spaces]); one (exactly "="); many (in_set [Spaces])]
    ++ literal_ci (lit "true") ].

(** [cipher.*RC4|cipher.*DES|cipher.*MD5], IGNORECASE *)
Definition weak (name : string) : list item :=
  literal_ci (lit "cipher") ++ [many dot] ++ literal_ci (lit name).
Definition WEAK_CIPHER_RE : regex := [weak "RC4"; weak "DES"; weak "MD5"].

Definition _create_config_finding (file_path0 : Path) (rule_id0 : text)
  (framework0 : Framework) (control_id0 : text) (severity0 : Severity)
  (evidence why remediation : text) (uuid : text) : Finding :=
  {| id := uuid;
     rule_id := rule_id0;
     framework := framework0;
     control_id := control_id0;
     severity := severity0;
     file_path := path_str file_path0;
     line_range := lit "1-end";
     evidence_snippet := evidence;
     why_it_matters := why;
     remediation_steps := remediation;
     mapping_confidence := conf_high;
     needs_review := false |}.

Definition disabled_tls_finding (file_path0 : Path) : text -> Finding :=
  _create_config_finding file_path0 (lit "disabled_tls") ISO27001 (lit "A.13")
    HIGH (lit "TLS/SSL disabled in configuration")
    (lit "Disabled encryption exposes data in transit to interception")
    (lit "Enable TLS/SSL and certificate verification").

Definition broad_iam_finding (file_path0 : Path) : text -> Finding :=
  _create_config_finding file_path0 (lit "broad_iam") SOC2 (lit "CC 6.2")
    CRITICAL (lit "Overly broad IAM permissions")
    (lit "Wildcard permissions violate principle of least privilege")
    (lit "Restrict actions and resources to specific required permissions").

Definition public_storage_finding (file_path0 : Path) : text -> Finding :=
  _create_config_finding file_path0 (lit "public_storage") GDPR
    (lit "Article 32") HIGH (lit "Public storage configuration")
    (lit "Public access may expose personal data")
    (lit "Review and restrict public access to necessary resources only").

Definition weak_cipher_finding (file_path0 : Path) : text -> Finding :=
  _create_config_finding file_path0 (lit "weak_cipher") ISO27001 (lit "A.10")
    HIGH (lit "Weak cipher suites configured")
    (lit "Weak cryptographic algorithms are vulnerable to attacks")
    (lit "Use strong cipher suites (AES-256, SHA-256 or higher)").

(** [if cond: findings.append(...)] *)
Definition append_if (w : World) (cond : bool) (mk : text -> Finding)
  (a : acc) : acc :=
  if cond then append_fresh w mk a else a.

Definition disabled_tls_check (content : text) : bool :=
  re_search DISABLED_TLS_RE content.
Definition broad_iam_check (content : text) : bool :=
  re_search ACTION_RESOURCE_RE content || re_search RESOURCE_ACTION_RE content.
Definition public_storage_check (content : text) : bool :=
  re_search PUBLIC_RE content.
Definition weak_cipher_check (content : text) : bool :=
  re_search WEAK_CIPHER_RE content.

Definition scan_config (w : World) (file_path0 : Path) (content : text)
  (st : nat) : acc :=
  let a0 : acc := ([], st) in
  let a1 := append_if w (disabled_tls_check content)
              (disabled_tls_finding file_path0) a0 in
  let a2 := append_if w (broad_iam_check content)
              (broad_iam_finding file_path0) a1 in
  let a3 := append_if w (public_storage_check content)
              (public_storage_finding file_path0) a2 in
  let a4 := append_if w (weak_cipher_check content)
              (weak_cipher_finding file_path0) a3 in
  a4.

(* ================================================================== *)
(** * core/scanner.py *)
(* ================================================================== *)

Definition text_in (x : text) (l : list text) : bool := existsb (text_eqb x) l.

Definition document_suffixes : list text :=
  [lit ".md"; lit ".txt"; lit ".doc"; lit ".docx"].
Definition config_suffixes : list text :=
  [lit ".yml"; lit ".yaml"; lit ".json"; lit ".conf"; lit ".ini"; lit ".toml"].

Definition _scan_single_file (w : World) (rules : list Rule)
  (file_path0 : Path) (st : nat) : acc :=
  match read_text w file_path0 with
  | None => ([], st)
  | Some content =>
      let (f1, st1) := scan_file w rules file_path0 content st in
      let (f2, st2) :=
        if text_in (suffix file_path0) document_suffixes
        then scan_document w file_path0 content st1 else ([], st1) in
      let (f3, st3) :=
        if text_in (suffix file_path0) config_suffixes
        then scan_config w file_path0 content st2 else ([], st2) in
      (f1 ++ f2 ++ f3, st3)
  end.

Definition skip_extensions : list text :=
  [lit ".pyc"; lit ".pyo"; lit ".exe"; lit ".bin"; lit ".so"; lit ".dylib";
   lit ".dll"].
Definition skip_dirs : list text :=
  [lit ".git"; lit ".svn"; lit "__pycache__"; lit "node_modules"; lit ".venv";
   lit "venv"].

Definition _should_skip_file (w : World) (file_path0 : Path) : bool :=
  if text_in (suffix file_path0) skip_extensions then true
  else if existsb (fun part => text_in part skip_dirs) (parts file_path0)
  then true
  else if 10 * 1024 * 1024 <? st_size w file_path0 then true
  else false.

(** The state of the traversal loop: [all_findings], [files_scanned] and the
    number of uuids drawn. *)
Record Traversal : Type := mkTraversal {
  all_findings : list Finding;
  files_scanned : nat;
  drawn : nat
}.

(** [findings = self._scan_single_file(p); all_findings.extend(findings);
    files_scanned += 1] *)
Definition visit (w : World) (rules : list Rule) (t : Traversal) (p : Path)
  : Traversal :=
  let (fs, st') := _scan_single_file w rules p (drawn t) in
  {| all_findings := all_findings t ++ fs;
     files_scanned := files_scanned t + 1;
     drawn := st' |}.

Definition scan_path (w : World) (rules : list Rule) (t : Traversal)
  (path_str0 : text) : Traversal :=
  let path := make_path w path_str0 in
  if is_file w path then visit w rules t path
  else if is_dir w path then
    fold_left
      (fun t' fp =>
         if is_file w fp && negb (_should_skip_file w fp)
         then visit w rules t' fp else t')
      (rglob w path) t
  else t.

Definition traverse (w : World) (rules : list Rule) (paths : list text)
  (st : nat) : Traversal :=
  fold_left (scan_path w rules) paths
    {| all_findings := []; files_scanned := 0; drawn := st |}.

(** [if frameworks: all_findings = [f for f in all_findings
                                     if f.framework in frameworks]] *)
Definition filter_frameworks (frameworks : option (list Framework))
  (fs : list Finding) : list Finding :=
  match frameworks with
  | Some (fw :: fws) =>
      filter (fun f => existsb (framework_eqb (framework f)) (fw :: fws)) fs
  | _ => fs
  end.

Definition finding_key (f : Finding) : text * text * text :=
  (file_path f, rule_id f, line_range f).

Definition key_eqb (a b : text * text * text) : bool :=
  let '(a1, a2, a3) := a in
  let '(b1, b2, b3) := b in
  text_eqb a1 b1 && text_eqb a2 b2 && text_eqb a3 b3.

(** The loop of [_deduplicate_findings]; [seen] holds the keys added so
    far. *)
Fixpoint dedup_loop (fs : list Finding) (seen : list (text * text * text))
  (deduplicated : list Finding) : list Finding :=
  match fs with
  | [] => deduplicated
  | finding :: rest =>
      let key := finding_key finding in
      if negb (existsb (key_eqb key) seen)
      then dedup_loop rest (key :: seen) (deduplicated ++ [finding])
      else dedup_loop rest seen deduplicated
  end.

Definition _deduplicate_findings (fs : list Finding) : list Finding :=
  dedup_loop fs [] [].

Definition severity_order : dict nat :=
  [(lit "critical", 0); (lit "high", 1); (lit "medium", 2); (lit "low", 3)].

(** [severity_order.get(k, 4)] *)
Definition severity_rank_of (k : text) : nat := dict_get severity_order k 4.

(** [lambda x: severity_order.get(x.severity, 4)] *)
Definition severity_rank (x : Finding) : nat :=
  severity_rank_of (severity_value (severity x)).

(** [list.sort(key=...)] is a stable sort; it is taken here as insertion
    from the right, each element going before the first one whose key is
    not smaller. *)
Fixpoint insert_by {A} (key : A -> nat) (x : A) (l : list A) : list A :=
  match l with
  | [] => [x]
  | y :: l' => if key x <=? key y then x :: l else y :: insert_by key x l'
  end.

Definition sort_by {A} (key : A -> nat) (l : list A) : list A :=
  fold_right (insert_by key) [] l.

Definition _generate_summary (files_scanned0 : nat) (fs : list Finding)
  (duration : Z) : ScanSummary :=
  let severity_counts : dict nat :=
    [(lit "critical", 0); (lit "high", 0); (lit "medium", 0); (lit "low", 0)] in
  let framework_counts : dict nat :=
    [(lit "iso27001", 0); (lit "soc2", 0); (lit "gdpr", 0)] in
  let (severity_counts', framework_counts') :=
    fold_left
      (fun (c : dict nat * dict nat) finding =>
         (dict_incr (fst c) (severity_value (severity finding)),
          dict_incr (snd c) (framework_value (framework finding))))
      fs (severity_counts, framework_counts) in
  {| total_files_scanned := files_scanned0;
     total_findings := length fs;
     findings_by_severity := severity_counts';
     findings_by_framework := framework_counts';
     scan_duration_seconds := duration |}.

Definition is_top_risk (f : Finding) : bool :=
  text_in (severity_value (severity f)) [lit "critical"; lit "high"].

Definition _generate_recommendations (fs : list Finding)
  : list Recommendation :=
  let critical_count :=
    length (filter (fun f => text_eqb (severity_value (severity f))
                               (lit "critical")) fs) in
  let high_count :=
    length (filter (fun f => text_eqb (severity_value (severity f))
                               (lit "high")) fs) in
  let r1 := if 0 <? critical_count then [AddressCritical critical_count]
            else [] in
  let r2 := if 0 <? high_count then [ReviewHigh high_count] else [] in
  let pii_findings :=
    filter (fun f => contains (lit "pii") (lower (rule_id f))
                     || contains (lit "personal") (lower (why_it_matters f)))
      fs in
  let r3 := if 3 <? length pii_findings then [PiiHandling] else [] in
  let secret_findings :=
    filter (fun f => contains (lit "secret") (lower (rule_id f))
                     || contains (lit "api") (lower (rule_id f))) fs in
  let r4 := if 2 <? length secret_findings then [RotateCredentials] else [] in
  let config_findings :=
    filter (fun f => framework_eqb (framework f) SOC2 && is_top_risk f) fs in
  let r5 := if 2 <? length config_findings then [ReviewConfigurations]
            else [] in
  firstn 5 (r1 ++ r2 ++ r3 ++ r4 ++ r5).

(** The finding list of [scan_paths] after the framework filter and the
    de-duplication, before it is sorted. *)
Definition deduplicated_findings (w : World) (rules : list Rule)
  (paths : list text) (frameworks : option (list Framework)) (st : nat)
  : list Finding :=
  _deduplicate_findings
    (filter_frameworks frameworks (all_findings (traverse w rules paths (S st)))).

(** [st] is the number of uuids drawn before the call. *)
Definition scan_paths (w : World) (rules : list Rule) (paths : list text)
  (frameworks : option (list Framework)) (st : nat) : ScanResult :=
  let start_time := time_start w in
  let scan_id0 := uuid4 w st in
  let t := traverse w rules paths (S st) in
  let all_findings0 := deduplicated_findings w rules paths frameworks st in
  let all_findings1 := sort_by severity_rank all_findings0 in
  let scan_duration := (time_end w - start_time)%Z in
  let summary0 := _generate_summary (files_scanned t) all_findings1
                    scan_duration in
  let top_risks0 := firstn 10 (filter is_top_risk all_findings1) in
  let recommendations0 := _generate_recommendations all_findings1 in
  {| scan_id := scan_id0;
     timestamp := now w;
     paths_scanned := paths;
     summary := summary0;
     findings := all_findings1;
     top_risks := top_risks0;
     recommendations := recommendations0 |}.

(* ================================================================== *)
(** * core/detectors.py: [luhn_check] *)
(* ================================================================== *)

(** [int(d)] for a one-character string of code point below 256; [None]
    when it raises [ValueError] (on that range, every character but
    '0'..'9'). *)
Definition int_of_char (c : ascii) : option nat :=
  if is_digit c then Some (code c - 48) else None.

(** [[int(d) for d in s]]; [None] when one of the conversions raises. *)
Fixpoint digits_of_text (s : text) : option (list nat) :=
  match s with
  | [] => Some []
  | c :: s' =>
      match int_of_char c, digits_of_text s' with
      | Some d, Some ds => Some (d :: ds)
      | _, _ => None
      end
  end.

(** [digits_of(n)] for a non-negative int [n]. *)
Definition digits_of_nat (n : nat) : list nat :=
  map (fun c => code c - 48) (str_of_nat n).

(** [s.replace(c, '')] for a single character [c]. *)
Definition remove_char (c : ascii) (s : text) : text :=
  filter (fun x => negb (Ascii.eqb x c)) s.

(** [l[0::2]] *)
Fixpoint every_other {A} (l : list A) : list A :=
  match l with
  | [] => []
  | x :: l' => x :: match l' with
                    | [] => []
                    | _ :: l'' => every_other l''
                    end
  end.

(** [None] stands for the [ValueError] of a character that is no digit. *)
Definition luhn_check (card_number : text) : option bool :=
  match digits_of_text
          (remove_char "-" (remove_char " " card_number)) with
  | None => None
  | Some digits =>
      let odd_digits := every_other (rev digits) in        (* digits[-1::-2] *)
      let even_digits := every_other (tl (rev digits)) in  (* digits[-2::-2] *)
      let checksum :=
        fold_left (fun checksum d => checksum + list_sum (digits_of_nat (d * 2)))
          even_digits (list_sum odd_digits) in
      Some (checksum mod 10 =? 0)
  end.

(* ================================================================== *)
(** * cli.py: the exit status of [scan] *)
(* ================================================================== *)

(** The status [scan] passes to [sys.exit] once the summary is printed and
    the reports are written. *)
Definition scan_exit_status (result : ScanResult) : nat :=
  let critical_count :=
    length (filter (fun f => text_eqb (severity_value (severity f))
                               (lit "critical")) (findings result)) in
  let high_count :=
    length (filter (fun f => text_eqb (severity_value (severity f))
                               (lit "high")) (findings result)) in
  if 0 <? critical_count then 2
  else if 0 <? high_count then 1
  else 0.

(* ================================================================== *)
(** * Specification-side definitions

    Second definitions, written from the wording of the specification, to
    be compared with the ones above, and the notions the statements use. *)
(* ================================================================== *)

(** De-duplication as the specification words it: a finding is kept, and
    every later finding with its key is dropped. *)
Fixpoint keep_first_per_key (fs : list Finding) : list Finding :=
  match fs with
  | [] => []
  | f :: rest =>
      f :: filter (fun g => negb (key_eqb (finding_key g) (finding_key f)))
             (keep_first_per_key rest)
  end.

(** The files the traversal hands to [_scan_single_file], in order. *)
Definition files_of_path (w : World) (path_str0 : text) : list Path :=
  let path := make_path w path_str0 in
  if is_file w path then [path]
  else if is_dir w path then
    filter (fun fp => is_file w fp && negb (_should_skip_file w fp))
      (rglob w path)
  else [].

Definition files_visited (w : World) (paths : list text) : list Path :=
  flat_map (files_of_path w) paths.

(** The evidence window as the specification words it: the lines from two
    before the start line through two after the end line. *)
Definition window_lines (lines : list text) (start_line end_line : nat)
  : list text :=
  map snd
    (filter (fun il => (start_line <=? fst il + 2) && (fst il <=? end_line + 2))
       (combine (seq 0 (length lines)) lines)).

(** Index of the line that holds offset [n]: the newlines before it. *)
Definition line_index (content : text) (n : nat) : nat :=
  count_newlines (firstn n content).

(** The order the sort establishes. *)
Definition key_le {A} (key : A -> nat) (a b : A) : Prop := key a <= key b.

(** [word] occurs in [hay] as a substring. *)
Definition occurs (word hay : text) : Prop :=
  exists a b, hay = a ++ word ++ b.

(** [word] occurs in [content] as a substring, letter case aside. *)
Definition occurs_ci (word content : text) : Prop :=
  exists a u b, content = a ++ u ++ b /\ lower u = lower word.

(** The pattern matches at some position of the text. *)
Definition matches_somewhere (p : regex) (s : text) : Prop :=
  exists a b n, s = a ++ b /\ match_alt p (prev_after None a) b = Some n.

(** The findings built by [mks], each with the next uuid drawn. *)
Fixpoint with_ids (w : World) (mks : list (text -> Finding)) (st : nat)
  : list Finding :=
  match mks with
  | [] => []
  | mk :: rest => mk (uuid4 w st) :: with_ids w rest (S st)
  end.

(** The findings one rule contributes for a file, before their uuids. *)
Definition rule_findings (file_path0 : Path) (content : text) (rule : Rule)
  : list (text -> Finding) :=
  if rule_applies rule file_path0
  then map (match_finding rule file_path0 content) (r_pattern rule content)
  else [].

(** The table of required sections, one (framework, section) entry per
    row, in iteration order. *)
Definition required_entries : list (Framework * Section_) :=
  flat_map (fun entry : Framework * list Section_ =>
              map (pair (fst entry)) (snd entry)) REQUIRED_SECTIONS.

(** The finding is the one for this table entry. *)
Definition for_entry (e : Framework * Section_) (f : Finding) : bool :=
  framework_eqb (framework f) (fst e)
  && text_eqb (control_id f) (sec_control_id (snd e)).

Definition same_entry (e e' : Framework * Section_) : bool :=
  framework_eqb (fst e') (fst e)
  && text_eqb (sec_control_id (snd e')) (sec_control_id (snd e)).

(** The GDPR row for data retention. *)
Definition retention_entry : Framework * Section_ :=
  (GDPR, mkSection [lit "data retention"; lit "retention period"]
           (lit "Article 5")).

Definition has_rule_id (rid : text) (f : Finding) : bool :=
  text_eqb (rule_id f) rid.

(** The four checks of [scan_config] with the finding each one appends. *)
Definition config_checks (file_path0 : Path) (content : text)
  : list (bool * (text -> Finding)) :=
  [ (disabled_tls_check content, disabled_tls_finding file_path0);
    (broad_iam_check content, broad_iam_finding file_path0);
    (public_storage_check content, public_storage_finding file_path0);
    (weak_cipher_check content, weak_cipher_finding file_path0) ].

(** Rule identifier, framework, control, severity and evidence of the four
    checks. *)
Definition config_catalogue
  : list (text * Framework * text * Severity * text) :=
  [ (lit "disabled_tls", ISO27001, lit "A.13", HIGH,
     lit "TLS/SSL disabled in configuration");
    (lit "broad_iam", SOC2, lit "CC 6.2", CRITICAL,
     lit "Overly broad IAM permissions");
    (lit "public_storage", GDPR, lit "Article 32", HIGH,
     lit "Public storage configuration");
    (lit "weak_cipher", ISO27001, lit "A.10", HIGH,
     lit "Weak cipher suites configured") ].

Definition catalogue_entry (f : Finding)
  : text * Framework * text * Severity * text :=
  (rule_id f, framework f, control_id f, severity f, evidence_snippet f).

(** ["Action": "*"] and ["Resource": "*"] as they are written in a policy. *)
Definition action_wildcard : text :=
  quoted (lit "Action") ++ lit ": " ++ quoted (lit "*").
Definition resource_wildcard : text :=
  quoted (lit "Resource") ++ lit ": " ++ quoted (lit "*").

(** The order of severities as the specification words it: critical
    first, then high, then medium, then low. *)
Definition severity_position (s : Severity) : nat :=
  match s with
  | CRITICAL => 0
  | HIGH => 1
  | MEDIUM => 2
  | LOW => 3
  end.

Definition is_severity (s : Severity) (f : Finding) : bool :=
  match s, severity f with
  | CRITICAL, CRITICAL | HIGH, HIGH | MEDIUM, MEDIUM | LOW, LOW => true
  | _, _ => false
  end.

(** The finding is critical or high. *)
Definition critical_or_high (f : Finding) : bool :=
  match severity f with
  | CRITICAL | HIGH => true
  | MEDIUM | LOW => false
  end.

(** The triple of the specification: file path, rule or detector
    identifier, line range. *)
Definition report_triple (f : Finding) : text * text * text :=
  (file_path f, rule_id f, line_range f).

(** Two findings report the same thing: same file path, same rule
    identifier and same line range. *)
Definition same_report (f g : Finding) : bool :=
  text_eqb (file_path f) (file_path g)
  && text_eqb (rule_id f) (rule_id g)
  && text_eqb (line_range f) (line_range g).

(** De-duplication in the words of the specification, on the three fields:
    a finding is kept, and every later finding with its file path, rule
    identifier and line range is dropped. *)
Fixpoint keep_first_report (fs : list Finding) : list Finding :=
  match fs with
  | [] => []
  | f :: rest =>
      f :: filter (fun g => negb (same_report g f)) (keep_first_report rest)
  end.

(** Letter case, said without [lower]: the capital letters are 'A'..'Z' and,
    above them, code points 192..222 but for the multiplication sign; the
    small letter of a capital stands 32 code points after it. *)
Definition is_capital (c : ascii) : bool :=
  between 65 90 c || (between 192 222 c && negb (code c =? 215)).

(** The same character, or a capital and its small letter. *)
Definition same_letter (a b : ascii) : bool :=
  Ascii.eqb a b
  || (is_capital a && (code b =? code a + 32))
  || (is_capital b && (code a =? code b + 32)).

(** The same text, letter case aside. *)
Fixpoint same_word (u v : text) : bool :=
  match u, v with
  | [], [] => true
  | a :: u', b :: v' => same_letter a b && same_word u' v'
  | _, _ => false
  end.

(** [word] occurs in [content] as a substring in some letter case. *)
Definition occurs_caseless (word content : text) : Prop :=
  exists a u b, content = a ++ u ++ b /\ same_word u word = true.

(* ================================================================== *)
(** * What a pattern accepts *)
(* ================================================================== *)

(** The count [n] respects the upper bound of a quantifier. *)
Definition within (hi : option nat) (n : nat) : Prop :=
  match hi with
  | Some h => n <= h
  | None => True
  end.

(** [accepts r prev u rest]: read between the character [prev] and the text
    [rest], the string [u] is matched by the sequence [r], whatever the
    order in which the repetition counts are tried. *)
Fixpoint accepts (r : list item) (prev : option ascii) (u rest : text)
  : Prop :=
  match r with
  | [] => u = []
  | WordBoundary :: r' =>
      at_boundary prev (u ++ rest) = true /\ accepts r' prev u rest
  | Rep cls lo hi :: r' =>
      exists u1 u2,
        u = u1 ++ u2 /\ forallb cls u1 = true /\ lo <= length u1
        /\ within hi (length u1) /\ accepts r' (prev_after prev u1) u2 rest
  end.

(** The same for a sequence without assertions, which looks at nothing
    around [u]. *)
Fixpoint body_accepts (body : list item) (u : text) : Prop :=
  match body with
  | [] => u = []
  | WordBoundary :: _ => False
  | Rep cls lo hi :: r' =>
      exists u1 u2,
        u = u1 ++ u2 /\ forallb cls u1 = true /\ lo <= length u1
        /\ within hi (length u1) /\ body_accepts r' u2
  end.

Definition rep_only (body : list item) : bool :=
  forallb (fun it => match it with Rep _ _ _ => true | WordBoundary => false end)
    body.

(** The least number of characters a sequence consumes. *)
Fixpoint min_len (body : list item) : nat :=
  match body with
  | [] => 0
  | Rep _ lo _ :: r' => lo + min_len r'
  | WordBoundary :: r' => min_len r'
  end.

(** No set of the sequence holds the character [c]. *)
Definition avoids (body : list item) (c : ascii) : bool :=
  forallb (fun it => match it with
                     | Rep cls _ _ => negb (cls c)
                     | WordBoundary => true
                     end) body.

(** [u], found between [prev] and [rest], is an occurrence of
    [\b body \b]. *)
Definition Occurrence (body : list item) (prev : option ascii)
  (u rest : text) : Prop :=
  at_boundary prev (u ++ rest) = true
  /\ body_accepts body u
  /\ at_boundary (prev_after prev u) rest = true.

(** [z] is [x] with some occurrences of [\b body \b] replaced by [mask] and
    every other character kept. *)
Inductive replaced (body : list item) (mask : text)
  : option ascii -> text -> text -> Prop :=
| replaced_nil prev : replaced body mask prev [] []
| replaced_keep prev c x z :
    replaced body mask (Some c) x z ->
    replaced body mask prev (c :: x) (c :: z)
| replaced_mask prev u x z :
    Occurrence body prev u x ->
    replaced body mask (prev_after prev u) x z ->
    replaced body mask prev (u ++ x) (mask ++ z).

(* ================================================================== *)
(** * Masks and substitution *)
(* ================================================================== *)

(** The pattern matches at no position inside the mask after its first
    character, whatever follows the mask. *)
Fixpoint inert_tail (p : regex) (prev : ascii) (m : text) : Prop :=
  match m with
  | [] => True
  | c :: m' =>
      (forall b, match_alt p (Some prev) (m ++ b) = None)
      /\ inert_tail p c m'
  end.

(** How the character before a position of the output relates to the one
    before the same position of the input: the same, or the end of a mask
    where the input had the end of a match. *)
Definition scan_context (pz py : option ascii) (y : text) : Prop :=
  pz = py \/ (is_word_opt pz = false /\ at_boundary py y = true).

(** Wherever the pattern [pj] does not match in [y], [pr] does not
    either. *)
Definition free_where (pr pj : regex) (py : option ascii) (y : text) : Prop :=
  forall a b,
    y = a ++ b ->
    match_alt pj (prev_after py a) b = None ->
    match_alt pr (prev_after py a) b = None.

(** What the substitution lemmas ask of a pattern [\b body \b]: no
    assertion inside, at least one character consumed, no set with '*'. *)
Definition plain_body (body : list item) : Prop :=
  rep_only body = true /\ 1 <= min_len body /\ avoids body star_char = true.

(** The mask ['*' :: tail] holds no match of the pattern and ends in a
    character that is not a word character. *)
Definition inert_mask (body : list item) (tail : text) : Prop :=
  inert_tail (bounded body) star_char tail
  /\ is_word_opt (prev_after (Some star_char) tail) = false.

(** The masks after their first character. *)
Definition EMAIL_TAIL : text := lit "***@****.***".
Definition CARD_TAIL : text := lit "***-****-****-****".
Definition PHONE_TAIL : text := lit "**-***-****".
Definition TOKEN_TAIL : text := lit "***[REDACTED]****".

(* ================================================================== *)
(** * Sample inputs *)
(* ================================================================== *)

(** A world with one path, a file that cannot be opened. *)
Definition unreadable_world : World :=
  {| make_path := fun s => mkPath s (lit ".txt") [s] (fun _ => true);
     is_file := fun _ => true;
     is_dir := fun _ => false;
     rglob := fun _ => [];
     st_size := fun _ => 0;
     read_text := fun _ => None;
     uuid4 := fun n => str_of_nat n;
     time_start := 0%Z;
     time_end := 0%Z;
     now := 0%Z |}.

Definition some_path : Path :=
  mkPath (lit "policy.json") (lit ".json") [lit "policy.json"] (fun _ => true).

(** The policy file of [test_config_detector_broad_iam]. *)
Definition iam_policy_json : text :=
  join [newline]
    [ [];
      lit "    {";
      lit "      " ++ quoted (lit "Statement") ++ lit ": [";
      lit "        {";
      lit "          " ++ quoted (lit "Effect") ++ lit ": "
        ++ quoted (lit "Allow") ++ lit ",";
      lit "          " ++ quoted (lit "Action") ++ lit ": "
        ++ quoted (lit "*") ++ lit ",";
      lit "          " ++ quoted (lit "Resource") ++ lit ": "
        ++ quoted (lit "*");
      lit "        }";
      lit "      ]";
      lit "    }";
      lit "    " ].

(** The inputs of [test_config_detector_disabled_tls] and
    [test_document_gap_detector]. *)
Definition tls_config_yml : text :=
  join [newline]
    [ []; lit "    database:"; lit "      ssl: false";
      lit "      verify: false"; lit "    " ].

Definition privacy_policy_md : text :=
  join [newline]
    [ []; lit "    Privacy Policy"; lit "    ";
      lit "    We collect personal data to provide services.";
      lit "    We protect data with security measures.";
      lit "    Contact us for questions."; lit "    " ].

(** A text with an address, a card number, a telephone number and a key. *)
Definition sample_evidence : text :=
  lit "mail bob@example.com card 4532-0151-1283-0366 tel 555-123-4567 key AKIA1234567890ABCDEFGH".

(** Twenty '+' characters, and a key written after an underscore. *)
Definition twenty_plus : text := repeat "+"%char 20.
Definition underscore_key : text := lit "key_ABCDEFGHIJKLMNOPQRSTUVWXYZ".

(** Three findings that differ in severity, and a repeat of the first. *)
Definition sample_finding (rid : string) (sev : Severity) (line : string)
  : Finding :=
  {| id := lit rid; rule_id := lit rid; framework := GDPR;
     control_id := lit "Article 32"; severity := sev;
     file_path := lit "app.py"; line_range := lit line;
     evidence_snippet := []; why_it_matters := []; remediation_steps := [];
     mapping_confidence := conf_high; needs_review := false |}.

Definition sample_findings : list Finding :=
  [ sample_finding "email" MEDIUM "3-3"; sample_finding "aws_key" CRITICAL "1-1";
    sample_finding "email" MEDIUM "3-3"; sample_finding "api_key" HIGH "5-5";
    sample_finding "phone" MEDIUM "4-4" ].

(** A rule whose pattern reports one match, from offset 4 to offset 9. *)
Definition sample_rule : Rule :=
  {| r_id := lit "aws_access_key"; r_framework := SOC2;
     r_control_id := lit "CC 6.1"; r_severity := CRITICAL;
     r_pattern := fun _ => [(4, 9)]; r_file_globs := [lit "*"];
     r_why_it_matters := lit "Exposed credentials";
     r_remediation_steps := lit "Rotate the key";
     r_mapping_confidence := conf_high; r_needs_review := false |}.

(* ================================================================== *)
(** * Notions for the further properties *)
(* ================================================================== *)

(** What the digit [d] adds to the Luhn checksum when it is doubled. *)
Definition luhn_double (d : nat) : nat := list_sum (digits_of_nat (d * 2)).

(** The checksum read from the last digit backwards; [doubled] says whether
    the first digit of [l] is a doubled one. *)
Fixpoint luhn_sum (doubled : bool) (l : list nat) : nat :=
  match l with
  | [] => 0
  | d :: l' =>
      (if doubled then luhn_double d else d) + luhn_sum (negb doubled) l'
  end.

Definition is_separator (c : ascii) : bool :=
  Ascii.eqb c " " || Ascii.eqb c "-".

(** The value of a digit character. *)
Definition digit_value (c : ascii) : nat := code c - 48.

(** The text without its spaces and dashes. *)
Definition without_separators (s : text) : text :=
  filter (fun c => negb (is_separator c)) s.

Definition has_severity (sev : Severity) (f : Finding) : bool :=
  text_eqb (severity_value (severity f)) (severity_value sev).

Definition severity_eqb (a b : Severity) : bool :=
  match a, b with
  | CRITICAL, CRITICAL | HIGH, HIGH | MEDIUM, MEDIUM | LOW, LOW => true
  | _, _ => false
  end.

Definition has_framework (fw : Framework) (f : Finding) : bool :=
  text_eqb (framework_value (framework f)) (framework_value fw).

(** The maker sets the identifier it is given. *)
Definition sets_id (mk : text -> Finding) : Prop := forall u, id (mk u) = u.

(** The GDPR row for impact assessments. *)
Definition dpia_entry : Framework * Section_ :=
  (GDPR, mkSection [lit "data protection impact"; lit "DPIA"]
           (lit "Article 35")).

(** A world with one readable configuration file and distinct uuids. *)
Definition config_world : World :=
  {| make_path := fun s => mkPath s (lit ".yml") [s] (fun _ => true);
     is_file := fun _ => true;
     is_dir := fun _ => false;
     rglob := fun _ => [];
     st_size := fun _ => 0;
     read_text := fun _ => Some tls_config_yml;
     uuid4 := fun n => repeat "u"%char n;
     time_start := 0%Z;
     time_end := 0%Z;
     now := 0%Z |}.

(** A world in which no path is a file or a directory. *)
Definition bare_world : World :=
  {| make_path := fun s => mkPath s [] [s] (fun _ => true);
     is_file := fun _ => false;
     is_dir := fun _ => false;
     rglob := fun _ => [];
     st_size := fun _ => 0;
     read_text := fun _ => None;
     uuid4 := fun n => repeat "u"%char n;
     time_start := 0%Z;
     time_end := 0%Z;
     now := 0%Z |}.

(** A world whose only file is a large compiled file inside [.git]. *)
Definition pyc_world : World :=
  {| make_path := fun s => mkPath s (lit ".pyc") [lit ".git"; s] (fun _ => true);
     is_file := fun _ => true;
     is_dir := fun _ => false;
     rglob := fun _ => [];
     st_size := fun _ => 20 * 1024 * 1024;
     read_text := fun _ => Some (lit "data");
     uuid4 := fun n => repeat "u"%char n;
     time_start := 0%Z;
     time_end := 0%Z;
     now := 0%Z |}.

(** The status decided by one finding. *)
Definition status_of (f : option Finding) : nat :=
  match f with
  | Some f' => match severity f' with
               | CRITICAL => 2
               | HIGH => 1
               | _ => 0
               end
  | None => 0
  end.

(** The findings the three count-based recommendations look at. *)
Definition mentions_pii (f : Finding) : bool :=
  contains (lit "pii") (lower (rule_id f))
  || contains (lit "personal") (lower (why_it_matters f)).
Definition mentions_secret (f : Finding) : bool :=
  contains (lit "secret") (lower (rule_id f))
  || contains (lit "api") (lower (rule_id f)).
Definition soc2_top_risk (f : Finding) : bool :=
  framework_eqb (framework f) SOC2 && is_top_risk f.

(** The findings of one file before their uuids are drawn: the matches of
    the rules, then the gaps of a document, then the checks of a
    configuration file. *)
Definition gap_makers (p : Path) (content : text) : list (text -> Finding) :=
  if _is_policy_document content
  then map (fun e => gap_finding p (fst e) (snd e))
         (filter (fun e => section_missing (lower content) (snd e))
            required_entries)
  else [].

Definition config_makers (p : Path) (content : text)
  : list (text -> Finding) :=
  map snd (filter fst (config_checks p content)).

Definition content_makers (rules : list Rule) (p : Path) (content : text)
  : list (text -> Finding) :=
  flat_map (rule_findings p content) rules
  ++ (if text_in (suffix p) document_suffixes then gap_makers p content
      else [])
  ++ (if text_in (suffix p) config_suffixes then config_makers p content
      else []).

Definition file_makers (w : World) (rules : list Rule) (p : Path)
  : list (text -> Finding) :=
  match read_text w p with
  | None => []
  | Some content => content_makers rules p content
  end.

(** The maker builds findings of the file [p]. *)
Definition made_for (p : Path) (mk : text -> Finding) : Prop :=
  forall u, id (mk u) = u /\ file_path (mk u) = path_str p.

(** The uuid a maker is given goes into the identifier only: the key and
    the framework of its finding do not depend on it. *)
Definition id_free (mk : text -> Finding) : Prop :=
  forall u u',
    finding_key (mk u) = finding_key (mk u')
    /\ framework (mk u) = framework (mk u').

(** The key of [g] is among those of [fs]. *)
Definition key_among (fs : list Finding) (g : Finding) : bool :=
  existsb (key_eqb (finding_key g)) (map finding_key fs).

(** [name], white space, [sep], white space, [value]. *)
Definition assignment (name ws1 : text) (sep : ascii) (ws2 value : text)
  : text :=
  name ++ ws1 ++ [sep] ++ ws2 ++ value.

(** ["name" : "*"] with the white space [ws1] and [ws2] around the colon. *)
Definition wildcard_assignment (name : string) (ws1 ws2 : text) : text :=
  assignment (quoted (lit name)) ws1 ":" ws2 (quoted (lit "*")).

(** No two draws of [uuid4] give the same identifier. *)
Definition distinct_uuids (w : World) : Prop :=
  forall m n, uuid4 w m = uuid4 w n -> m = n.

(* ================================================================== *)
(** * Facts about lists and text *)
(* ================================================================== *)

Lemma text_eqb_eq (a b : text) : text_eqb a b = true <-> a = b.
Proof.
  unfold text_eqb. destruct (list_eq_dec ascii_dec a b); split; congruence.
Qed.

Lemma text_eqb_refl (a : text) : text_eqb a a = true.
Proof. now apply text_eqb_eq. Qed.

Lemma key_eqb_eq (a b : text * text * text) : key_eqb a b = true <-> a = b.
Proof.
  destruct a as [[a1 a2] a3], b as [[b1 b2] b3]. unfold key_eqb.
  rewrite !andb_true_iff, !text_eqb_eq. split.
  - intros [[-> ->] ->]. reflexivity.
  - intros H. inversion H. auto.
Qed.

Lemma key_eqb_refl (a : text * text * text) : key_eqb a a = true.
Proof. now apply key_eqb_eq. Qed.

Lemma key_eqb_sym (a b : text * text * text) : key_eqb a b = key_eqb b a.
Proof.
  destruct (key_eqb a b) eqn:E1, (key_eqb b a) eqn:E2; try reflexivity.
  - apply key_eqb_eq in E1. subst. now rewrite key_eqb_refl in E2.
  - apply key_eqb_eq in E2. subst. now rewrite key_eqb_refl in E1.
Qed.

Lemma filter_filter {A} (p q : A -> bool) (l : list A) :
  filter p (filter q l) = filter (fun x => q x && p x) l.
Proof.
  induction l as [|a l IH]; simpl; [reflexivity|].
  destruct (q a); simpl; [destruct (p a)|]; now rewrite IH.
Qed.

Lemma find_filter {A} (p q : A -> bool) (l : list A) :
  (forall x, p x = true -> q x = true) ->
  find p (filter q l) = find p l.
Proof.
  intros Hpq. induction l as [|a l IH]; simpl; [reflexivity|].
  destruct (q a) eqn:Eq; simpl.
  - now destruct (p a).
  - destruct (p a) eqn:Ep; [|exact IH].
    apply Hpq in Ep. congruence.
Qed.

Lemma fold_left_filter {A B} (f : B -> A -> B) (p : A -> bool) (l : list A)
  (b : B) :
  fold_left (fun acc x => if p x then f acc x else acc) l b
  = fold_left f (filter p l) b.
Proof.
  revert b. induction l as [|a l IH]; intros b; simpl; [reflexivity|].
  destruct (p a); simpl; apply IH.
Qed.

Lemma fold_left_pointwise {A B} (f g : B -> A -> B) (l : list A) (b : B) :
  (forall acc x, f acc x = g acc x) -> fold_left f l b = fold_left g l b.
Proof.
  intros H. revert b. induction l as [|a l IH]; intros b; simpl;
    [reflexivity|]. now rewrite H, IH.
Qed.

Lemma fold_left_flat_map {A B C} (f : B -> C -> B) (g : A -> list C)
  (l : list A) (b : B) :
  fold_left (fun acc x => fold_left f (g x) acc) l b
  = fold_left f (flat_map g l) b.
Proof.
  revert b. induction l as [|a l IH]; intros b; simpl; [reflexivity|].
  now rewrite fold_left_app, IH.
Qed.

(* ================================================================== *)
(** * Sorting by severity *)
(* ================================================================== *)

Section SortBy.
Context {A : Type} (key : A -> nat).

Lemma insert_by_perm (x : A) (l : list A) :
  Permutation (x :: l) (insert_by key x l).
Proof.
  induction l as [|y l IH]; simpl; [apply Permutation_refl|].
  destruct (key x <=? key y); [apply Permutation_refl|].
  eapply perm_trans; [apply perm_swap|]. now apply perm_skip.
Qed.

Lemma sort_by_perm (l : list A) : Permutation l (sort_by key l).
Proof.
  induction l as [|x l IH]; simpl; [constructor|].
  eapply perm_trans; [apply perm_skip, IH|]. apply insert_by_perm.
Qed.

Lemma insert_by_sorted (x : A) (l : list A) :
  StronglySorted (key_le key) l -> StronglySorted (key_le key) (insert_by key x l).
Proof.
  induction 1 as [|y l Hs IH Hy]; simpl.
  - repeat constructor.
  - destruct (key x <=? key y) eqn:E.
    + apply Nat.leb_le in E. constructor; [now constructor|].
      constructor; [exact E|].
      eapply Forall_impl; [|exact Hy]. unfold key_le. intros; lia.
    + apply Nat.leb_gt in E. constructor; [exact IH|].
      eapply Permutation_Forall; [apply insert_by_perm|].
      constructor; [unfold key_le; lia | exact Hy].
Qed.

Lemma sort_by_sorted (l : list A) : StronglySorted (key_le key) (sort_by key l).
Proof.
  induction l as [|x l IH]; simpl; [constructor|].
  now apply insert_by_sorted.
Qed.

Lemma insert_by_stable (r : nat) (x : A) (l : list A) :
  filter (fun a => key a =? r) (insert_by key x l)
  = filter (fun a => key a =? r) (x :: l).
Proof.
  induction l as [|y l IH]; [reflexivity|].
  cbn [insert_by]. destruct (key x <=? key y) eqn:E; [reflexivity|].
  apply Nat.leb_gt in E.
  cbn [filter] in *. rewrite IH.
  destruct (key x =? r) eqn:Ex; [|reflexivity].
  destruct (key y =? r) eqn:Ey; [|reflexivity].
  apply Nat.eqb_eq in Ex, Ey. lia.
Qed.

Lemma sort_by_stable (r : nat) (l : list A) :
  filter (fun a => key a =? r) (sort_by key l)
  = filter (fun a => key a =? r) l.
Proof.
  induction l as [|x l IH]; [reflexivity|].
  cbn [sort_by fold_right]. rewrite insert_by_stable.
  cbn [filter]. unfold sort_by in IH. now rewrite IH.
Qed.

(** In a sorted list the elements below a rank bound form a prefix. *)
Lemma sorted_low_prefix (b : nat) (l : list A) :
  StronglySorted (key_le key) l ->
  l = filter (fun a => key a <? b) l
      ++ filter (fun a => negb (key a <? b)) l.
Proof.
  induction 1 as [|x l Hs IH Hx]; [reflexivity|].
  cbn [filter]. destruct (key x <? b) eqn:E; cbn [negb app].
  - now rewrite <- IH.
  - apply Nat.ltb_ge in E.
    assert (Hnone : filter (fun a => key a <? b) l = []).
    { clear IH Hs. induction l as [|y l IHl]; [reflexivity|].
      inversion Hx; subst. cbn [filter].
      replace (key y <? b) with false
        by (symmetry; apply Nat.ltb_ge; unfold key_le in *; lia).
      now apply IHl. }
    rewrite Hnone in *. cbn [app] in *. now rewrite <- IH.
Qed.
Lemma sorted_adjacent (l : list A) :
  StronglySorted (key_le key) l ->
  forall i a b,
    nth_error l i = Some a -> nth_error l (S i) = Some b -> key a <= key b.
Proof.
  induction 1 as [|x l Hs IH Hx]; intros i a b Ha Hb.
  - destruct i; discriminate.
  - destruct i as [|i]; cbn [nth_error] in Ha, Hb.
    + inversion Ha; subst. rewrite Forall_forall in Hx.
      apply Hx. destruct l; [discriminate|]. cbn in Hb. inversion Hb. now left.
    + exact (IH i a b Ha Hb).
Qed.
End SortBy.

Lemma sorted_suffix {A} (R : A -> A -> Prop) (l1 l2 : list A) :
  StronglySorted R (l1 ++ l2) -> StronglySorted R l2.
Proof.
  induction l1 as [|x l1 IH]; cbn [app]; [easy|].
  intros H. inversion H; subst. now apply IH.
Qed.

Lemma severity_rank_values :
  severity_rank_of (lit "critical") = 0 /\ severity_rank_of (lit "high") = 1
  /\ severity_rank_of (lit "medium") = 2 /\ severity_rank_of (lit "low") = 3.
Proof. repeat split. Qed.

Lemma severity_rank_unknown (k : text) :
  text_in k (map fst severity_order) = true \/ severity_rank_of k = 4.
Proof.
  unfold severity_rank_of, severity_order, text_in.
  cbn [dict_get map existsb fst].
  destruct (text_eqb k (lit "critical")); [now left|].
  destruct (text_eqb k (lit "high")); [now left|].
  destruct (text_eqb k (lit "medium")); [now left|].
  destruct (text_eqb k (lit "low")); [now left|].
  now right.
Qed.

Lemma severity_rank_le_4 (k : text) : severity_rank_of k <= 4.
Proof.
  unfold severity_rank_of, severity_order. cbn [dict_get].
  repeat match goal with |- context [text_eqb ?a ?b] =>
    destruct (text_eqb a b) end; lia.
Qed.

(** C1: in every result of [scan_paths] the findings are in non-decreasing
    severity rank (adjacent pairs, hence all pairs), with critical = 0,
    high = 1, medium = 2, low = 3 and any other key ranked 4, after all of
    them.  The rank of a finding is the position of its severity, so that
    the findings go critical first, then high, then medium, then low: no
    finding is followed, however far, by one of a graver severity.  The sort
    is stable: the findings of each rank, that is of each severity, are
    those of the list before the sort, in the same order, and nothing is
    added or lost. *)
Theorem scan_paths_findings_sorted_stable
  (w : World) (rules : list Rule) (paths : list text)
  (frameworks : option (list Framework)) (st : nat) :
  Sorted (fun a b => severity_rank a <= severity_rank b)
    (findings (scan_paths w rules paths frameworks st))
  /\ StronglySorted (fun a b => severity_rank a <= severity_rank b)
       (findings (scan_paths w rules paths frameworks st))
  /\ (forall i a b,
        nth_error (findings (scan_paths w rules paths frameworks st)) i
        = Some a ->
        nth_error (findings (scan_paths w rules paths frameworks st)) (S i)
        = Some b ->
        severity_rank a <= severity_rank b)
  /\ (forall r,
        filter (fun f => severity_rank f =? r)
          (findings (scan_paths w rules paths frameworks st))
        = filter (fun f => severity_rank f =? r)
            (deduplicated_findings w rules paths frameworks st))
  /\ Permutation (deduplicated_findings w rules paths frameworks st)
       (findings (scan_paths w rules paths frameworks st))
  /\ (severity_rank_of (lit "critical") = 0
      /\ severity_rank_of (lit "high") = 1
      /\ severity_rank_of (lit "medium") = 2
      /\ severity_rank_of (lit "low") = 3)
  /\ (forall k, text_in k (map fst severity_order) = true
                \/ severity_rank_of k = 4)
  /\ (forall k, severity_rank_of k <= 4)
  /\ (forall f, severity_rank f = severity_position (severity f))
  /\ StronglySorted
       (fun a b => severity_position (severity a)
                   <= severity_position (severity b))
       (findings (scan_paths w rules paths frameworks st))
  /\ (forall i a b,
        nth_error (findings (scan_paths w rules paths frameworks st)) i
        = Some a ->
        nth_error (findings (scan_paths w rules paths frameworks st)) (S i)
        = Some b ->
        match severity a, severity b with
        | HIGH, CRITICAL => False
        | MEDIUM, (CRITICAL | HIGH) => False
        | LOW, (CRITICAL | HIGH | MEDIUM) => False
        | _, _ => True
        end)
  /\ (forall before a between b after,
        findings (scan_paths w rules paths frameworks st)
        = before ++ a :: between ++ b :: after ->
        match severity a, severity b with
        | HIGH, CRITICAL => False
        | MEDIUM, (CRITICAL | HIGH) => False
        | LOW, (CRITICAL | HIGH | MEDIUM) => False
        | _, _ => True
        end)
  /\ (forall sev,
        filter (is_severity sev)
          (findings (scan_paths w rules paths frameworks st))
        = filter (is_severity sev)
            (deduplicated_findings w rules paths frameworks st)).
Proof.
  cbn [scan_paths findings].
  assert (Hs := sort_by_sorted severity_rank
                  (deduplicated_findings w rules paths frameworks st)).
  assert (Hrank : forall f, severity_rank f = severity_position (severity f)).
  { intros f. unfold severity_rank. now destruct (severity f). }
  assert (Hgraver : forall a b,
            severity_rank a <= severity_rank b ->
            match severity a, severity b with
            | HIGH, CRITICAL => False
            | MEDIUM, (CRITICAL | HIGH) => False
            | LOW, (CRITICAL | HIGH | MEDIUM) => False
            | _, _ => True
            end).
  { intros a b. rewrite !Hrank.
    destruct (severity a), (severity b); cbn [severity_position];
      intros H; try exact I; lia. }
  split; [apply StronglySorted_Sorted; exact Hs|].
  split; [exact Hs|].
  split; [intros i a b; now apply sorted_adjacent|].
  split; [intros r; apply sort_by_stable|].
  split; [apply sort_by_perm|].
  split; [repeat split|].
  split; [exact severity_rank_unknown|].
  split; [exact severity_rank_le_4|].
  split; [exact Hrank|].
  split.
  { eapply StronglySorted_ind with
      (P := fun l => StronglySorted
                       (fun a b => severity_position (severity a)
                                   <= severity_position (severity b)) l);
      [constructor| |exact Hs].
    intros a l _ IH Hall. constructor; [exact IH|].
    eapply Forall_impl; [|exact Hall]. intros b Hab.
    unfold key_le in Hab. now rewrite <- !Hrank. }
  split.
  { intros i a b Ha Hb. apply Hgraver.
    now apply (sorted_adjacent severity_rank _ Hs i). }
  split.
  { intros before a between b after E. apply Hgraver.
    rewrite E in Hs. apply sorted_suffix in Hs.
    inversion Hs as [|? ? _ Hall]; subst.
    rewrite Forall_forall in Hall. apply Hall.
    apply in_or_app. right. now left. }
  intros sev.
  assert (Hsev : forall f,
            is_severity sev f = (severity_rank f =? severity_position sev)).
  { intros f. rewrite Hrank. unfold is_severity.
    now destruct sev, (severity f). }
  rewrite (filter_ext _ _ Hsev), (filter_ext _ _ Hsev).
  apply sort_by_stable.
Qed.

(* ================================================================== *)
(** * De-duplication *)
(* ================================================================== *)

(** The loop with its accumulators, read as a function of the keys seen. *)
Lemma dedup_loop_spec (fs : list Finding) :
  forall seen deduplicated,
    dedup_loop fs seen deduplicated
    = deduplicated
      ++ filter (fun g => negb (existsb (key_eqb (finding_key g)) seen))
           (keep_first_per_key fs).
Proof.
  induction fs as [|f rest IH]; intros seen deduplicated.
  - cbn. now rewrite app_nil_r.
  - cbn [dedup_loop keep_first_per_key filter].
    destruct (existsb (key_eqb (finding_key f)) seen) eqn:Eseen; cbn [negb].
    + rewrite IH, filter_filter. f_equal. apply filter_ext_in.
      intros g _.
      destruct (existsb (key_eqb (finding_key g)) seen) eqn:Eg; cbn [negb];
        [now rewrite andb_false_r|].
      rewrite andb_true_r.
      destruct (key_eqb (finding_key g) (finding_key f)) eqn:Egf;
        [|reflexivity].
      apply key_eqb_eq in Egf. rewrite Egf in Eg. congruence.
    + rewrite IH, <- app_assoc. cbn [app]. do 2 f_equal.
      rewrite filter_filter. apply filter_ext_in.
      intros g _. cbn [existsb]. rewrite negb_orb. reflexivity.
Qed.

Lemma deduplicate_keep_first (fs : list Finding) :
  _deduplicate_findings fs = keep_first_per_key fs.
Proof.
  unfold _deduplicate_findings. rewrite dedup_loop_spec. cbn [app existsb negb].
  induction (keep_first_per_key fs) as [|a l IH]; [reflexivity|].
  cbn [filter]. now rewrite IH.
Qed.

Lemma keep_first_NoDup (fs : list Finding) :
  NoDup (map finding_key (keep_first_per_key fs)).
Proof.
  induction fs as [|f rest IH]; cbn [keep_first_per_key map]; constructor.
  - intros Hin. apply in_map_iff in Hin. destruct Hin as [g [Hk Hg]].
    apply filter_In in Hg. destruct Hg as [_ Hg].
    rewrite Hk, key_eqb_refl in Hg. discriminate.
  - remember (keep_first_per_key rest) as l eqn:El. clear El.
    induction l as [|a l IHl]; cbn [filter map]; [constructor|].
    inversion IH as [|? ? Hnot Hnd]; subst.
    destruct (negb (key_eqb (finding_key a) (finding_key f))); cbn [map].
    + constructor; [|now apply IHl].
      intros Hin. apply Hnot. apply in_map_iff in Hin.
      destruct Hin as [g [Hk Hg]]. apply filter_In in Hg.
      apply in_map_iff. exists g. tauto.
    + now apply IHl.
Qed.

Lemma keep_first_find (fs : list Finding) (k : text * text * text) :
  find (fun f => key_eqb (finding_key f) k) (keep_first_per_key fs)
  = find (fun f => key_eqb (finding_key f) k) fs.
Proof.
  induction fs as [|f rest IH]; cbn [keep_first_per_key find]; [reflexivity|].
  destruct (key_eqb (finding_key f) k) eqn:E; [reflexivity|].
  rewrite find_filter; [exact IH|].
  intros g Hg. apply key_eqb_eq in Hg.
  rewrite Hg, key_eqb_sym, E. reflexivity.
Qed.

Lemma same_report_key (f g : Finding) :
  same_report f g = key_eqb (finding_key f) (finding_key g).
Proof. reflexivity. Qed.

Lemma same_report_spec (f g : Finding) :
  same_report f g = true
  <-> file_path f = file_path g /\ rule_id f = rule_id g
      /\ line_range f = line_range g.
Proof.
  unfold same_report. rewrite !andb_true_iff, !text_eqb_eq. tauto.
Qed.

Lemma keep_first_report_key (fs : list Finding) :
  keep_first_report fs = keep_first_per_key fs.
Proof.
  induction fs as [|f rest IH]; [reflexivity|].
  cbn [keep_first_report keep_first_per_key]. now rewrite IH.
Qed.

Lemma NoDup_nth_distinct {A B} (g : A -> B) (l : list A) :
  NoDup (map g l) ->
  forall i j a b,
    nth_error l i = Some a -> nth_error l j = Some b -> g a = g b -> i = j.
Proof.
  intros Hnd i j a b Ha Hb Hg.
  apply (proj1 (NoDup_nth_error (map g l)) Hnd).
  - rewrite length_map. apply nth_error_Some. congruence.
  - rewrite !nth_error_map, Ha, Hb. cbn. now rewrite Hg.
Qed.

(** C2: for every finding list, [_deduplicate_findings] keeps the first
    finding of each (file path, rule identifier, line range) triple and
    drops every later finding with the same three fields, whatever its other
    fields, the kept ones staying in the order in which they were first
    seen.  The triples of the output are pairwise distinct: two findings at
    different places of the output differ in file path, rule identifier or
    line range; every triple of the input is still there, and for each
    triple the output holds exactly the first input finding with it.  Hence
    no two findings of a result of [scan_paths] share their file path, rule
    identifier and line range. *)
Theorem deduplicate_findings_first_occurrence :
  (forall fs : list Finding,
      _deduplicate_findings fs = keep_first_per_key fs
      /\ NoDup (map finding_key (_deduplicate_findings fs))
      /\ (forall k,
            find (fun f => key_eqb (finding_key f) k) (_deduplicate_findings fs)
            = find (fun f => key_eqb (finding_key f) k) fs))
  /\ (forall w rules paths frameworks st,
        NoDup (map finding_key
                 (findings (scan_paths w rules paths frameworks st))))
  /\ (forall fs : list Finding,
        _deduplicate_findings fs = keep_first_report fs
        /\ NoDup (map (fun f => (file_path f, rule_id f, line_range f))
                    (_deduplicate_findings fs))
        /\ (forall i j f g,
              nth_error (_deduplicate_findings fs) i = Some f ->
              nth_error (_deduplicate_findings fs) j = Some g ->
              file_path f = file_path g -> rule_id f = rule_id g ->
              line_range f = line_range g -> i = j)
        /\ (forall f,
              find (fun g => same_report g f) (_deduplicate_findings fs)
              = find (fun g => same_report g f) fs)
        /\ (forall f, In f fs ->
              exists g,
                In g (_deduplicate_findings fs)
                /\ file_path g = file_path f /\ rule_id g = rule_id f
                /\ line_range g = line_range f)
        /\ (forall f, In f (_deduplicate_findings fs) -> In f fs))
  /\ (forall f g,
        (file_path g = file_path f /\ rule_id g = rule_id f
         /\ line_range g = line_range f ->
         _deduplicate_findings [f; g] = [f])
        /\ (file_path g <> file_path f \/ rule_id g <> rule_id f
            \/ line_range g <> line_range f ->
            _deduplicate_findings [f; g] = [f; g]))
  /\ (forall w rules paths frameworks st i j f g,
        nth_error (findings (scan_paths w rules paths frameworks st)) i
        = Some f ->
        nth_error (findings (scan_paths w rules paths frameworks st)) j
        = Some g ->
        file_path f = file_path g -> rule_id f = rule_id g ->
        line_range f = line_range g -> i = j).
Proof.
  assert (Hres : forall w rules paths frameworks st,
            NoDup (map finding_key
                     (findings (scan_paths w rules paths frameworks st)))).
  { intros w rules paths frameworks st. cbn [scan_paths findings].
    eapply Permutation_NoDup.
    + apply Permutation_map. apply sort_by_perm.
    + unfold deduplicated_findings. rewrite deduplicate_keep_first.
      apply keep_first_NoDup. }
  split; [|split; [exact Hres|split; [|split]]].
  - intros fs. rewrite deduplicate_keep_first.
    split; [reflexivity|]. split; [apply keep_first_NoDup|].
    intros k. apply keep_first_find.
  - intros fs. rewrite deduplicate_keep_first.
    split; [symmetry; apply keep_first_report_key|].
    split; [apply (keep_first_NoDup fs)|].
    split.
    { intros i j f g Hf Hg H1 H2 H3.
      apply (NoDup_nth_distinct finding_key _ (keep_first_NoDup fs) i j f g
               Hf Hg).
      unfold finding_key. now rewrite H1, H2, H3. }
    split; [intros f; apply (keep_first_find fs (finding_key f))|].
    split.
    { intros f Hin.
      destruct (find (fun g => key_eqb (finding_key g) (finding_key f)) fs)
        as [g|] eqn:E.
      - rewrite <- keep_first_find in E. apply find_some in E.
        destruct E as [Hg Hk]. exists g. split; [exact Hg|].
        now apply (same_report_spec g f).
      - apply (find_none _ _ E) in Hin.
        rewrite (proj2 (key_eqb_eq _ _) eq_refl) in Hin. discriminate. }
    induction fs as [|h fs IH]; cbn [keep_first_per_key In]; [easy|].
    intros f [->|Hin]; [now left|]. apply filter_In in Hin. right.
    now apply IH.
  - intros f g. rewrite !deduplicate_keep_first.
    cbn [keep_first_per_key filter]. rewrite <- !same_report_key. split.
    + intros H. apply same_report_spec in H. now rewrite H.
    + intros H. destruct (same_report g f) eqn:E; [|reflexivity].
      apply same_report_spec in E. tauto.
  - intros w rules paths frameworks st i j f g Hf Hg H1 H2 H3.
    apply (NoDup_nth_distinct finding_key _
             (Hres w rules paths frameworks st) i j f g Hf Hg).
    unfold finding_key. now rewrite H1, H2, H3.
Qed.

(* ================================================================== *)
(** * Top risks *)
(* ================================================================== *)

Lemma is_top_risk_rank (f : Finding) :
  is_top_risk f = (severity_rank f <? 2).
Proof. unfold is_top_risk, severity_rank. now destruct (severity f). Qed.

Lemma is_top_risk_severity (f : Finding) :
  is_top_risk f = true <-> severity f = CRITICAL \/ severity f = HIGH.
Proof.
  unfold is_top_risk. destruct (severity f); cbn; split; auto;
    intros H; try discriminate; destruct H; discriminate.
Qed.

Lemma is_top_risk_critical_or_high (f : Finding) :
  is_top_risk f = critical_or_high f.
Proof. unfold is_top_risk, critical_or_high. now destruct (severity f). Qed.

(** C8: in every result of [scan_paths], [top_risks] is the first ten
    entries of the sorted finding list filtered to the findings whose
    severity is critical or high; it is a prefix of that filtered list, and
    also of the finding list itself; it has at most ten entries, each of
    severity critical or high.  No critical or high finding is passed over:
    when the result has at most ten of them, every one is a top risk, and
    otherwise the top risks are ten; the top risks are the findings at the
    first places of the finding list, as many as there are top risks. *)
Theorem scan_paths_top_risks
  (w : World) (rules : list Rule) (paths : list text)
  (frameworks : option (list Framework)) (st : nat) :
  top_risks (scan_paths w rules paths frameworks st)
  = firstn 10 (filter is_top_risk
                 (findings (scan_paths w rules paths frameworks st)))
  /\ (exists rest,
        filter is_top_risk (findings (scan_paths w rules paths frameworks st))
        = top_risks (scan_paths w rules paths frameworks st) ++ rest)
  /\ (exists rest,
        findings (scan_paths w rules paths frameworks st)
        = top_risks (scan_paths w rules paths frameworks st) ++ rest)
  /\ length (top_risks (scan_paths w rules paths frameworks st)) <= 10
  /\ Forall (fun f => severity f = CRITICAL \/ severity f = HIGH)
       (top_risks (scan_paths w rules paths frameworks st))
  /\ top_risks (scan_paths w rules paths frameworks st)
     = firstn 10 (filter critical_or_high
                    (findings (scan_paths w rules paths frameworks st)))
  /\ (forall f, is_top_risk f = true
                <-> severity f = CRITICAL \/ severity f = HIGH)
  /\ length (top_risks (scan_paths w rules paths frameworks st))
     = Nat.min 10
         (length (filter critical_or_high
                    (findings (scan_paths w rules paths frameworks st))))
  /\ (length (filter critical_or_high
                (findings (scan_paths w rules paths frameworks st))) <= 10 ->
      forall f,
        In f (findings (scan_paths w rules paths frameworks st)) ->
        severity f = CRITICAL \/ severity f = HIGH ->
        In f (top_risks (scan_paths w rules paths frameworks st)))
  /\ (forall i f,
        i < length (top_risks (scan_paths w rules paths frameworks st)) ->
        nth_error (findings (scan_paths w rules paths frameworks st)) i
        = Some f ->
        nth_error (top_risks (scan_paths w rules paths frameworks st)) i
        = Some f
        /\ (severity f = CRITICAL \/ severity f = HIGH)).
Proof.
  cbn [scan_paths findings top_risks].
  set (fs := sort_by severity_rank
               (deduplicated_findings w rules paths frameworks st)).
  assert (Hfilter : filter is_top_risk fs = filter critical_or_high fs)
    by (apply filter_ext; intros f; apply is_top_risk_critical_or_high).
  assert (Hprefix : fs = firstn 10 (filter is_top_risk fs)
                         ++ skipn 10 (filter is_top_risk fs)
                         ++ filter (fun f => negb (is_top_risk f)) fs).
  { rewrite app_assoc, firstn_skipn.
    rewrite (sorted_low_prefix severity_rank 2 fs) at 1
      by apply sort_by_sorted.
    f_equal; apply filter_ext; intros f; now rewrite is_top_risk_rank. }
  assert (Hall : Forall (fun f => severity f = CRITICAL \/ severity f = HIGH)
                   (firstn 10 (filter is_top_risk fs))).
  { apply Forall_forall. intros f Hin.
    assert (Hf : In f (filter is_top_risk fs)).
    { rewrite <- (firstn_skipn 10). apply in_or_app. now left. }
    apply filter_In in Hf. now apply is_top_risk_severity. }
  split; [reflexivity|]. split; [|split; [|split; [|split]]].
  - exists (skipn 10 (filter is_top_risk fs)).
    symmetry. apply firstn_skipn.
  - eexists. exact Hprefix.
  - apply firstn_le_length.
  - exact Hall.
  - split; [now rewrite Hfilter|].
    split; [apply is_top_risk_severity|].
    split; [rewrite length_firstn; now rewrite Hfilter|].
    split.
    + intros Hlen f Hin Hsev. rewrite firstn_all2 by now rewrite Hfilter.
      apply filter_In. split; [assumption|]. now apply is_top_risk_severity.
    + intros i f Hi Hf.
      assert (Hnth : nth_error (firstn 10 (filter is_top_risk fs)) i = Some f).
      { rewrite Hprefix in Hf. now rewrite nth_error_app1 in Hf. }
      split; [exact Hnth|]. rewrite Forall_forall in Hall. apply Hall.
      now apply nth_error_In in Hnth.
Qed.

(* ================================================================== *)
(** * Traversal and the scanned-file count *)
(* ================================================================== *)

Lemma scan_path_visits (w : World) (rules : list Rule) (t : Traversal)
  (p : text) :
  scan_path w rules t p = fold_left (visit w rules) (files_of_path w p) t.
Proof.
  unfold scan_path, files_of_path.
  destruct (is_file w (make_path w p)); [reflexivity|].
  destruct (is_dir w (make_path w p)); [|reflexivity].
  apply fold_left_filter.
Qed.

Lemma traverse_visits (w : World) (rules : list Rule) (paths : list text)
  (st : nat) :
  traverse w rules paths st
  = fold_left (visit w rules) (files_visited w paths)
      {| all_findings := []; files_scanned := 0; drawn := st |}.
Proof.
  unfold traverse, files_visited. rewrite <- fold_left_flat_map.
  apply fold_left_pointwise. intros t p. apply scan_path_visits.
Qed.

Lemma visit_count (w : World) (rules : list Rule) (l : list Path) :
  forall t, files_scanned (fold_left (visit w rules) l t)
            = files_scanned t + length l.
Proof.
  induction l as [|p l IH]; intros t; cbn [fold_left length]; [lia|].
  rewrite IH. unfold visit.
  destruct (_scan_single_file w rules p (drawn t)). cbn. lia.
Qed.

Lemma unreadable_no_findings (w : World) (rules : list Rule) (p : Path)
  (st : nat) :
  read_text w p = None -> _scan_single_file w rules p st = ([], st).
Proof. unfold _scan_single_file. now intros ->. Qed.

Lemma visit_unreadable (w : World) (rules : list Rule) (t : Traversal)
  (p : Path) :
  read_text w p = None ->
  visit w rules t p
  = {| all_findings := all_findings t;
       files_scanned := files_scanned t + 1;
       drawn := drawn t |}.
Proof.
  intros H. unfold visit. rewrite (unreadable_no_findings _ _ _ _ H).
  now rewrite app_nil_r.
Qed.

(** The findings and the uuid counter after a run of visits do not depend on
    the file count. *)
Lemma visit_findings_count_free (w : World) (rules : list Rule)
  (l : list Path) :
  forall t t',
    all_findings t = all_findings t' -> drawn t = drawn t' ->
    all_findings (fold_left (visit w rules) l t)
    = all_findings (fold_left (visit w rules) l t')
    /\ drawn (fold_left (visit w rules) l t)
       = drawn (fold_left (visit w rules) l t').
Proof.
  induction l as [|p l IH]; intros t t' Hf Hd; cbn [fold_left]; [easy|].
  apply IH; unfold visit; rewrite Hd;
    destruct (_scan_single_file w rules p (drawn t')); cbn; congruence.
Qed.

(** C3, as the code has it: a file that cannot be opened contributes no
    finding and draws no uuid, and the scan goes on with the files after it
    exactly as if it were absent, but it is counted: the summary's
    [total_files_scanned] is the number of files handed to the single-file
    scanner, readable or not.  A file under a directory that the skip policy
    rejects is not handed over and not counted. *)
Theorem scan_paths_file_count
  (w : World) (rules : list Rule) (paths : list text)
  (frameworks : option (list Framework)) (st : nat) :
  total_files_scanned (summary (scan_paths w rules paths frameworks st))
  = length (files_visited w paths)
  /\ (forall p n, read_text w p = None ->
                  _scan_single_file w rules p n = ([], n))
  /\ (forall before p after t,
        read_text w p = None ->
        all_findings (fold_left (visit w rules) (before ++ p :: after) t)
        = all_findings (fold_left (visit w rules) (before ++ after) t)
        /\ files_scanned (fold_left (visit w rules) (before ++ p :: after) t)
           = S (files_scanned
                  (fold_left (visit w rules) (before ++ after) t)))
  /\ (forall dir fp,
        is_file w (make_path w dir) = false ->
        In fp (files_of_path w dir) ->
        is_file w fp = true /\ _should_skip_file w fp = false).
Proof.
  split; [|split; [|split]].
  - cbn [scan_paths summary]. unfold _generate_summary.
    destruct (fold_left _ _ _). cbn [total_files_scanned].
    rewrite traverse_visits, visit_count. reflexivity.
  - intros p n. apply unreadable_no_findings.
  - intros before p after t Hp. split.
    + rewrite !fold_left_app. cbn [fold_left].
      rewrite (visit_unreadable _ _ _ _ Hp).
      apply visit_findings_count_free; reflexivity.
    + rewrite !visit_count, !length_app. cbn [length]. lia.
  - intros dir fp Hdir Hin. unfold files_of_path in Hin. rewrite Hdir in Hin.
    destruct (is_dir w (make_path w dir)); [|easy].
    apply filter_In in Hin. destruct Hin as [_ Hc].
    apply andb_true_iff in Hc. destruct Hc as [H1 H2].
    apply negb_true_iff in H2. now split.
Qed.

(** C3, as the claim has it, fails: the only file of this scan cannot be
    opened, and the summary counts one scanned file. *)
Lemma unreadable_file_is_counted :
  read_text unreadable_world (make_path unreadable_world (lit "secret.txt"))
  = None
  /\ findings (scan_paths unreadable_world [] [lit "secret.txt"] None 0) = []
  /\ total_files_scanned
       (summary (scan_paths unreadable_world [] [lit "secret.txt"] None 0))
     = 1.
Proof. repeat split. Qed.

(* ================================================================== *)
(** * Loops that append findings with fresh identifiers *)
(* ================================================================== *)

Lemma in_with_ids_elim (w : World) (l : list (text -> Finding)) (st : nat)
  (f : Finding) :
  In f (with_ids w l st) -> exists mk u, In mk l /\ f = mk u.
Proof.
  revert st. induction l as [|mk l IH]; intros st; cbn [with_ids In]; [easy|].
  intros [<-|Hin]; [now eauto|].
  destruct (IH _ Hin) as (mk' & u & Hmk & ->). eauto.
Qed.

Lemma in_with_ids_intro (w : World) (l : list (text -> Finding)) (st : nat)
  (mk : text -> Finding) :
  In mk l -> exists u, In (mk u) (with_ids w l st).
Proof.
  revert st. induction l as [|mk' l IH]; intros st; cbn [with_ids In]; [easy|].
  intros [->|Hin]; [now eauto|].
  destruct (IH (S st) Hin) as [u Hu]. eauto.
Qed.

Lemma fold_append_fresh {X} (w : World) (g : X -> text -> Finding)
  (l : list X) (a : acc) :
  fold_left (fun a' x => append_fresh w (g x) a') l a
  = (fst a ++ with_ids w (map g l) (snd a), snd a + length l).
Proof.
  revert a. induction l as [|x l IH]; intros a; cbn [fold_left map with_ids].
  - destruct a. cbn. now rewrite app_nil_r, Nat.add_0_r.
  - rewrite IH. unfold append_fresh. cbn [fst snd length].
    rewrite <- app_assoc. cbn [app]. f_equal. lia.
Qed.

(** Findings for a tag: one per tagged maker, whatever the identifiers. *)
Lemma count_with_ids {X} (w : World) (g : X -> text -> Finding)
  (sel : X -> Finding -> bool) (same : X -> X -> bool) (l : list X) :
  (forall x y u, sel x (g y u) = same x y) ->
  forall (keep : X -> bool) (st : nat) (x : X),
    length (filter (sel x) (with_ids w (map g (filter keep l)) st))
    = length (filter (fun y => same x y && keep y) l).
Proof.
  intros Hsel keep. induction l as [|y l IH]; intros st x; [reflexivity|].
  cbn [filter]. destruct (keep y) eqn:Ek; cbn [map with_ids filter].
  - rewrite Hsel. rewrite andb_true_r.
    destruct (same x y); cbn [length]; now rewrite IH.
  - rewrite andb_false_r. apply IH.
Qed.

(* ================================================================== *)
(** * Substrings and letter case *)
(* ================================================================== *)

Lemma starts_with_spec (p s : text) :
  starts_with p s = true <-> exists b, s = p ++ b.
Proof.
  revert s. induction p as [|a p IH]; intros s; cbn [starts_with].
  - split; [intros _; now exists s|easy].
  - destruct s as [|c s].
    + split; [easy|]. now intros [b Hb].
    + rewrite andb_true_iff, IH. split.
      * intros [Hac [b ->]]. apply Ascii.eqb_eq in Hac. subst. now exists b.
      * intros [b Hb]. inversion Hb; subst. split; [apply Ascii.eqb_refl|eauto].
Qed.

Lemma contains_spec (needle hay : text) :
  contains needle hay = true <-> occurs needle hay.
Proof.
  unfold occurs. induction hay as [|c hay IH]; cbn [contains].
  - rewrite orb_false_r, starts_with_spec. split.
    + intros [b ->]. now exists [], b.
    + intros (a & b & H). destruct a; [now exists b|discriminate].
  - rewrite orb_true_iff, starts_with_spec, IH. split.
    + intros [[b ->]|(a & b & ->)]; [now exists [], b|now exists (c :: a), b].
    + intros (a & b & H). destruct a as [|x a]; [left; now exists b|].
      right. inversion H; subst. now exists a, b.
Qed.

Lemma occurs_lower_ci (word content : text) :
  occurs (lower word) (lower content) <-> occurs_ci word content.
Proof.
  unfold occurs, occurs_ci, lower. split.
  - intros (a & b & H).
    apply map_eq_app in H. destruct H as (a' & r & -> & <- & H).
    apply map_eq_app in H. destruct H as (u & b' & -> & Hu & <-).
    now exists a', u, b'.
  - intros (a & u & b & -> & Hu). rewrite !map_app, Hu. eauto.
Qed.

Lemma policy_indicators_lower :
  Forall (fun word => lower word = word) policy_indicators.
Proof. repeat constructor. Qed.

(** The policy heuristic is the case-insensitive occurrence of one of the
    indicator words. *)
Lemma is_policy_document_spec (content : text) :
  _is_policy_document content = true
  <-> exists word, In word policy_indicators /\ occurs_ci word content.
Proof.
  unfold _is_policy_document. rewrite existsb_exists.
  split; intros (word & Hin & H); exists word; (split; [exact Hin|]).
  - apply occurs_lower_ci. apply contains_spec in H.
    pose proof policy_indicators_lower as Hl.
    rewrite Forall_forall in Hl. now rewrite (Hl _ Hin).
  - apply contains_spec. apply occurs_lower_ci in H.
    pose proof policy_indicators_lower as Hl.
    rewrite Forall_forall in Hl. now rewrite (Hl _ Hin) in H.
Qed.

Lemma section_missing_spec (content_lower : text) (section : Section_) :
  section_missing content_lower section = true
  <-> forall kw, In kw (keywords section) -> ~ occurs kw content_lower.
Proof.
  unfold section_missing. rewrite negb_true_iff. split.
  - intros H kw Hin Hocc. apply contains_spec in Hocc.
    assert (existsb (fun k => contains k content_lower) (keywords section)
            = true) by (apply existsb_exists; eauto).
    congruence.
  - intros H.
    destruct (existsb (fun k => contains k content_lower) (keywords section))
      eqn:E; [|reflexivity].
    apply existsb_exists in E. destruct E as (kw & Hin & Hc).
    apply contains_spec in Hc. now destruct (H kw Hin).
Qed.

(* ================================================================== *)
(** * Document gap detector *)
(* ================================================================== *)

Lemma fold_left_map {A B C} (f : C -> B -> C) (h : A -> B) (l : list A)
  (c : C) :
  fold_left f (map h l) c = fold_left (fun acc x => f acc (h x)) l c.
Proof.
  revert c. induction l as [|a l IH]; intros c; cbn; [reflexivity|apply IH].
Qed.

(** The two nested loops, read as one pass over the table rows. *)
Lemma scan_document_entries (w : World) (p : Path) (content : text)
  (st : nat) :
  _is_policy_document content = true ->
  scan_document w p content st
  = (with_ids w
       (map (fun e => gap_finding p (fst e) (snd e))
          (filter (fun e => section_missing (lower content) (snd e))
             required_entries)) st,
     st + length (filter (fun e => section_missing (lower content) (snd e))
                    required_entries)).
Proof.
  intros Hpol. unfold scan_document. rewrite Hpol. cbn [negb].
  set (G := fun (a : acc) (e : Framework * Section_) =>
              if section_missing (lower content) (snd e)
              then append_fresh w (gap_finding p (fst e) (snd e)) a else a).
  transitivity (fold_left G required_entries (([], st) : acc)).
  - unfold required_entries. rewrite <- fold_left_flat_map.
    apply fold_left_pointwise. intros a [fw sections]. cbn [fst snd].
    now rewrite fold_left_map.
  - unfold G.
    rewrite (fold_left_filter
               (fun a e => append_fresh w (gap_finding p (fst e) (snd e)) a)
               (fun e => section_missing (lower content) (snd e))).
    now rewrite fold_append_fresh.
Qed.

Lemma scan_document_not_policy (w : World) (p : Path) (content : text)
  (st : nat) :
  _is_policy_document content = false ->
  scan_document w p content st = ([], st).
Proof. intros H. unfold scan_document. now rewrite H. Qed.

Lemma required_entries_distinct (e : Framework * Section_) :
  In e required_entries ->
  forall keep,
    length (filter (fun e' => same_entry e e' && keep e') required_entries)
    = if keep e then 1 else 0.
Proof.
  intros Hin keep. unfold required_entries, REQUIRED_SECTIONS in *.
  cbn [flat_map map app fst snd] in *.
  repeat (destruct Hin as [<-|Hin];
          [cbn [filter same_entry fst snd framework_eqb andb];
           repeat match goal with
             | |- context [text_eqb ?a ?b] =>
                 let v := eval vm_compute in (text_eqb a b) in
                 change (text_eqb a b) with v
             end;
           cbn [andb filter]; now destruct (keep _)|]).
  destruct Hin.
Qed.

Lemma for_entry_gap (p : Path) (e e' : Framework * Section_) (u : text) :
  for_entry e (gap_finding p (fst e') (snd e') u) = same_entry e e'.
Proof. reflexivity. Qed.

Lemma same_entry_eq (e e' : Framework * Section_) :
  In e required_entries -> In e' required_entries ->
  same_entry e e' = true -> e' = e.
Proof.
  unfold required_entries, REQUIRED_SECTIONS.
  cbn [flat_map map app fst snd In].
  intros He He'.
  repeat (destruct He as [<-|He]; [|]); try (now destruct He);
    repeat (destruct He' as [<-|He']; [|]); try (now destruct He');
    intros H; try reflexivity; vm_compute in H; discriminate.
Qed.

Lemma in_gap_findings (w : World) (p : Path) (content : text) (st : nat)
  (f : Finding) :
  In f (fst (scan_document w p content st)) ->
  exists e u,
    In e required_entries
    /\ section_missing (lower content) (snd e) = true
    /\ f = gap_finding p (fst e) (snd e) u.
Proof.
  destruct (_is_policy_document content) eqn:Hpol.
  - rewrite (scan_document_entries _ _ _ _ Hpol). cbn [fst]. intros Hin.
    apply in_with_ids_elim in Hin. destruct Hin as (mk & u & Hmk & ->).
    apply in_map_iff in Hmk. destruct Hmk as (e & <- & He).
    apply filter_In in He. destruct He. now exists e, u.
  - rewrite (scan_document_not_policy _ _ _ _ Hpol). easy.
Qed.

Lemma code_inj (a b : ascii) : code a = code b -> a = b.
Proof.
  unfold code. intros H.
  rewrite <- (ascii_nat_embedding a), <- (ascii_nat_embedding b).
  now rewrite H.
Qed.

Lemma is_capital_spec (c : ascii) :
  is_capital c = true
  <-> (65 <= code c <= 90) \/ (192 <= code c <= 222 /\ code c <> 215).
Proof.
  unfold is_capital, between.
  rewrite orb_true_iff, !andb_true_iff, negb_true_iff, !Nat.leb_le,
    Nat.eqb_neq.
  tauto.
Qed.

Lemma code_lower_char (c : ascii) :
  code (lower_char c) = if is_capital c then code c + 32 else code c.
Proof.
  unfold lower_char. fold (is_capital c).
  destruct (is_capital c) eqn:E; [|reflexivity].
  apply is_capital_spec in E. unfold code in *. apply nat_ascii_embedding.
  lia.
Qed.

(** Two characters have the same lower-cased form exactly when they are the
    same letter. *)
Lemma same_letter_lower (a b : ascii) :
  same_letter a b = Ascii.eqb (lower_char a) (lower_char b).
Proof.
  pose proof (code_lower_char a) as Ha. pose proof (code_lower_char b) as Hb.
  pose proof (is_capital_spec a) as Ca. pose proof (is_capital_spec b) as Cb.
  apply eq_true_iff_eq. unfold same_letter.
  rewrite !orb_true_iff, !andb_true_iff, !Ascii.eqb_eq, !Nat.eqb_eq. split.
  - intros [[->|[Hcap E]]|[Hcap E]]; [reflexivity| |]; apply code_inj;
      rewrite Ha, Hb, Hcap.
    + destruct (is_capital b); [|lia].
      destruct Ca as [Ca _], Cb as [Cb _].
      specialize (Ca Hcap). specialize (Cb eq_refl). lia.
    + destruct (is_capital a); [|lia].
      destruct Ca as [Ca _], Cb as [Cb _].
      specialize (Ca eq_refl). specialize (Cb Hcap). lia.
  - intros E. apply (f_equal code) in E. rewrite Ha, Hb in E.
    destruct (is_capital a), (is_capital b).
    + left. left. apply code_inj. lia.
    + left. right. split; [reflexivity|lia].
    + right. split; [reflexivity|lia].
    + left. left. now apply code_inj.
Qed.

Lemma same_word_lower (u v : text) :
  same_word u v = true <-> lower u = lower v.
Proof.
  revert v. induction u as [|a u IH]; intros [|b v]; cbn [same_word lower map];
    try (split; [discriminate|discriminate]); [tauto|].
  rewrite andb_true_iff, same_letter_lower, Ascii.eqb_eq, IH. unfold lower.
  split; [intros [-> ->]; reflexivity|intros H; now inversion H].
Qed.

Lemma occurs_caseless_ci (word content : text) :
  occurs_caseless word content <-> occurs_ci word content.
Proof.
  unfold occurs_caseless, occurs_ci. split.
  - intros (a & u & b & H & Hw). exists a, u, b. split; [exact H|].
    now apply same_word_lower.
  - intros (a & u & b & H & Hw). exists a, u, b. split; [exact H|].
    now apply same_word_lower.
Qed.

(** A keyword without capital letters is found in the lower-cased text
    exactly when it occurs in the text in some letter case. *)
Lemma occurs_lower_caseless (kw content : text) :
  lower kw = kw ->
  occurs kw (lower content) <-> occurs_caseless kw content.
Proof.
  intros Hkw. rewrite occurs_caseless_ci, <- occurs_lower_ci. now rewrite Hkw.
Qed.

(** C6: the document gap detector returns no finding for a text in which
    none of the six policy-indicator words policy, procedure, guideline,
    standard, privacy, security occurs, in whatever letter case.  For a text
    in which one occurs, in some letter case, it returns, in table order,
    one finding for each required-section row all of whose keywords are
    absent from the lower-cased text, and none for the other rows; a keyword
    in small letters is absent from the lower-cased text exactly when it
    occurs in the text in no letter case.  Every finding has severity
    medium, line range "1-end", confidence medium, review required, and
    evidence "Missing section: " followed by the row's keywords.  A text
    with the word "privacy", in some letter case, and with neither "data
    retention" nor "retention period" in any letter case gets exactly one
    finding for the GDPR retention row. *)
Theorem scan_document_gaps
  (w : World) (p : Path) (content : text) (st : nat) :
  ((forall word, In word policy_indicators -> ~ occurs_ci word content) ->
   fst (scan_document w p content st) = [])
  /\ ((exists word, In word policy_indicators /\ occurs_ci word content) ->
      fst (scan_document w p content st)
      = with_ids w
          (map (fun e => gap_finding p (fst e) (snd e))
             (filter (fun e => section_missing (lower content) (snd e))
                required_entries)) st
      /\ (forall e, In e required_entries ->
            length (filter (for_entry e) (fst (scan_document w p content st)))
            = if section_missing (lower content) (snd e) then 1 else 0))
  /\ (forall e : Framework * Section_,
        section_missing (lower content) (snd e) = true
        <-> (forall kw, In kw (keywords (snd e)) ->
                        ~ occurs kw (lower content)))
  /\ Forall (fun f =>
               severity f = MEDIUM
               /\ line_range f = lit "1-end"
               /\ mapping_confidence f = conf_medium
               /\ needs_review f = true
               /\ exists e,
                   In e required_entries
                   /\ section_missing (lower content) (snd e) = true
                   /\ framework f = fst e
                   /\ control_id f = sec_control_id (snd e)
                   /\ evidence_snippet f
                      = lit "Missing section: "
                        ++ join (lit ", ") (keywords (snd e)))
       (fst (scan_document w p content st))
  /\ (occurs (lit "privacy") content ->
      ~ occurs (lit "data retention") (lower content) ->
      ~ occurs (lit "retention period") (lower content) ->
      exists f,
        filter (for_entry retention_entry) (fst (scan_document w p content st))
        = [f]
        /\ severity f = MEDIUM
        /\ needs_review f = true
        /\ framework f = GDPR
        /\ control_id f = lit "Article 5"
        /\ evidence_snippet f
           = lit "Missing section: data retention, retention period")
  /\ ((forall word,
         In word [lit "policy"; lit "procedure"; lit "guideline";
                  lit "standard"; lit "privacy"; lit "security"] ->
         ~ occurs_caseless word content) ->
      fst (scan_document w p content st) = [])
  /\ ((exists word,
         In word [lit "policy"; lit "procedure"; lit "guideline";
                  lit "standard"; lit "privacy"; lit "security"]
         /\ occurs_caseless word content) ->
      forall e, In e required_entries ->
        ((forall kw, In kw (keywords (snd e)) -> ~ occurs kw (lower content))
         -> length (filter (for_entry e) (fst (scan_document w p content st)))
            = 1)
        /\ ((exists kw, In kw (keywords (snd e))
                        /\ occurs kw (lower content))
            -> length (filter (for_entry e)
                         (fst (scan_document w p content st))) = 0))
  /\ (forall kw, lower kw = kw ->
        (occurs kw (lower content) <-> occurs_caseless kw content))
  /\ (forall u v, same_word u v = true <-> lower u = lower v)
  /\ (occurs_caseless (lit "privacy") content ->
      ~ occurs_caseless (lit "data retention") content ->
      ~ occurs_caseless (lit "retention period") content ->
      exists f,
        filter (for_entry retention_entry) (fst (scan_document w p content st))
        = [f]
        /\ severity f = MEDIUM
        /\ line_range f = lit "1-end"
        /\ mapping_confidence f = conf_medium
        /\ needs_review f = true
        /\ framework f = GDPR
        /\ control_id f = lit "Article 5"
        /\ evidence_snippet f
           = lit "Missing section: data retention, retention period").
Proof.
  assert (Hold :
      ((forall word, In word policy_indicators -> ~ occurs_ci word content) ->
       fst (scan_document w p content st) = [])
      /\ ((exists word, In word policy_indicators /\ occurs_ci word content) ->
          fst (scan_document w p content st)
          = with_ids w
              (map (fun e => gap_finding p (fst e) (snd e))
                 (filter (fun e => section_missing (lower content) (snd e))
                    required_entries)) st
          /\ (forall e, In e required_entries ->
                length (filter (for_entry e) (fst (scan_document w p content st)))
                = if section_missing (lower content) (snd e) then 1 else 0))
      /\ (forall e : Framework * Section_,
            section_missing (lower content) (snd e) = true
            <-> (forall kw, In kw (keywords (snd e)) ->
                            ~ occurs kw (lower content)))
      /\ Forall (fun f =>
                   severity f = MEDIUM
                   /\ line_range f = lit "1-end"
                   /\ mapping_confidence f = conf_medium
                   /\ needs_review f = true
                   /\ exists e,
                       In e required_entries
                       /\ section_missing (lower content) (snd e) = true
                       /\ framework f = fst e
                       /\ control_id f = sec_control_id (snd e)
                       /\ evidence_snippet f
                          = lit "Missing section: "
                            ++ join (lit ", ") (keywords (snd e)))
           (fst (scan_document w p content st))
      /\ (occurs (lit "privacy") content ->
          ~ occurs (lit "data retention") (lower content) ->
          ~ occurs (lit "retention period") (lower content) ->
          exists f,
            filter (for_entry retention_entry) (fst (scan_document w p content st))
            = [f]
            /\ severity f = MEDIUM
            /\ needs_review f = true
            /\ framework f = GDPR
            /\ control_id f = lit "Article 5"
            /\ evidence_snippet f
               = lit "Missing section: data retention, retention period")).
  {
  assert (Hcount :
      _is_policy_document content = true ->
      forall e, In e required_entries ->
        length (filter (for_entry e) (fst (scan_document w p content st)))
        = if section_missing (lower content) (snd e) then 1 else 0).
    { intros Hpol e He. rewrite (scan_document_entries _ _ _ _ Hpol). cbn [fst].
      rewrite (count_with_ids w (fun e u => gap_finding p (fst e) (snd e) u)
                 for_entry same_entry required_entries
                 (fun x y u => for_entry_gap p x y u)).
      now rewrite (required_entries_distinct e He
                     (fun e' => section_missing (lower content) (snd e'))). }
    split; [|split; [|split; [|split]]].
    - intros Hnone.
      destruct (_is_policy_document content) eqn:Hpol.
      + apply is_policy_document_spec in Hpol.
        destruct Hpol as (word & Hin & Hocc). now destruct (Hnone word Hin).
      + now rewrite scan_document_not_policy.
    - intros Hsome. apply is_policy_document_spec in Hsome. split.
      + now rewrite (scan_document_entries _ _ _ _ Hsome).
      + now apply Hcount.
    - intros e. apply section_missing_spec.
    - apply Forall_forall. intros f Hin.
      apply in_gap_findings in Hin. destruct Hin as (e & u & He & Hm & ->).
      cbn [gap_finding severity line_range mapping_confidence needs_review
           framework control_id evidence_snippet].
      repeat (split; [reflexivity|]). exists e. auto.
    - intros Hpriv Hr1 Hr2.
      assert (Hpol : _is_policy_document content = true).
      { apply is_policy_document_spec. exists (lit "privacy"). split.
        - cbn. tauto.
        - destruct Hpriv as (a & b & ->). now exists a, (lit "privacy"), b. }
      assert (Hret : In retention_entry required_entries) by (cbn; tauto).
      assert (Hmiss : section_missing (lower content) (snd retention_entry)
                      = true).
      { apply section_missing_spec. cbn [retention_entry snd keywords In].
        intros kw [<-|[<-|[]]]; assumption. }
      pose proof (Hcount Hpol _ Hret) as Hlen. rewrite Hmiss in Hlen.
      destruct (filter (for_entry retention_entry)
                  (fst (scan_document w p content st))) as [|f [|g l]] eqn:Ef;
        try discriminate.
      exists f. split; [reflexivity|].
      assert (Hf : In f (filter (for_entry retention_entry)
                           (fst (scan_document w p content st))))
        by (rewrite Ef; now left).
      apply filter_In in Hf. destruct Hf as [Hf Hfor].
      apply in_gap_findings in Hf. destruct Hf as (e & u & He & _ & ->).
      rewrite for_entry_gap in Hfor.
      apply (same_entry_eq _ _ Hret He) in Hfor. subst e.
      repeat split.
  }
  assert (Hwords : _is_policy_document content = true
                   <-> exists word,
                       In word [lit "policy"; lit "procedure"; lit "guideline";
                                lit "standard"; lit "privacy"; lit "security"]
                       /\ occurs_caseless word content).
  { rewrite is_policy_document_spec. split.
    - intros (word & Hin & Hocc). exists word. split; [exact Hin|].
      now apply occurs_caseless_ci.
    - intros (word & Hin & Hocc). exists word. split; [exact Hin|].
      now apply occurs_caseless_ci. }
  destruct Hold as (H1 & H2 & H3 & H4 & H5).
  split; [exact H1|]. split; [exact H2|]. split; [exact H3|].
  split; [exact H4|]. split; [exact H5|].
  split.
  { intros Hnone. apply H1. intros word Hin Hocc.
    apply (Hnone word Hin). now apply occurs_caseless_ci. }
  split.
  { intros Hsome e He.
    assert (Hci : exists word, In word policy_indicators
                               /\ occurs_ci word content).
    { destruct Hsome as (word & Hin & Hocc). exists word.
      split; [exact Hin|]. now apply occurs_caseless_ci. }
    destruct (H2 Hci) as [_ Hcount]. rewrite (Hcount e He). split.
    - intros Habs. now rewrite (proj2 (H3 e) Habs).
    - intros (kw & Hin & Hocc).
      destruct (section_missing (lower content) (snd e)) eqn:E;
        [|reflexivity].
      pose proof (proj1 (H3 e) E kw Hin) as Habs. now destruct Habs. }
  split; [intros kw; apply occurs_lower_caseless|].
  split; [apply same_word_lower|].
  intros Hpriv Hr1 Hr2.
  assert (Hpol : exists word, In word policy_indicators
                              /\ occurs_ci word content).
  { exists (lit "privacy"). split; [cbn; tauto|].
    now apply occurs_caseless_ci. }
  destruct (H2 Hpol) as [_ Hcount].
  assert (Hret : In retention_entry required_entries) by (cbn; tauto).
  assert (Hmiss : section_missing (lower content) (snd retention_entry)
                  = true).
  { apply section_missing_spec. cbn [retention_entry snd keywords In].
    intros kw [<-|[<-|[]]] Hocc.
    - apply Hr1. now apply (occurs_lower_caseless (lit "data retention")).
    - apply Hr2. now apply (occurs_lower_caseless (lit "retention period")). }
  pose proof (Hcount _ Hret) as Hlen. rewrite Hmiss in Hlen.
  destruct (filter (for_entry retention_entry)
              (fst (scan_document w p content st))) as [|f [|g l]] eqn:Ef;
    try discriminate.
  exists f. split; [reflexivity|].
  assert (Hf : In f (filter (for_entry retention_entry)
                       (fst (scan_document w p content st))))
    by (rewrite Ef; now left).
  apply filter_In in Hf. destruct Hf as [Hf Hfor].
  apply in_gap_findings in Hf. destruct Hf as (e & u & He & _ & ->).
  rewrite for_entry_gap in Hfor.
  apply (same_entry_eq _ _ Hret He) in Hfor. subst e.
  repeat split.
Qed.

(** The document of the repository's test spells the word with a capital
    and has no retention language. *)
Example privacy_policy_is_policy :
  occurs_caseless (lit "privacy") privacy_policy_md
  /\ contains (lit "privacy") privacy_policy_md = false
  /\ _is_policy_document privacy_policy_md = true
  /\ contains (lit "data retention") (lower privacy_policy_md) = false
  /\ contains (lit "retention period") (lower privacy_policy_md) = false.
Proof.
  split; [|repeat split].
  exists (skipn 0 (firstn 5 privacy_policy_md)), (lit "Privacy"),
    (skipn 12 privacy_policy_md). split; reflexivity.
Qed.

(* ================================================================== *)
(** * Searching *)
(* ================================================================== *)

Lemma prev_after_cons (prev : option ascii) (c : ascii) (a : text) :
  prev_after prev (c :: a) = prev_after (Some c) a.
Proof.
  unfold prev_after. cbn [map].
  revert c prev. induction a as [|x a IH]; intros c prev; [reflexivity|].
  change (last (Some c :: map Some (x :: a)) prev)
    with (last (Some x :: map Some a) prev).
  change (last (map Some (x :: a)) (Some c))
    with (last (Some x :: map Some a) (Some c)).
  now rewrite !IH.
Qed.

Lemma prev_after_app (prev : option ascii) (a b : text) :
  prev_after prev (a ++ b) = prev_after (prev_after prev a) b.
Proof.
  revert prev. induction a as [|c a IH]; intros prev; [reflexivity|].
  cbn [app]. now rewrite !prev_after_cons, IH.
Qed.

Lemma search_from_spec (p : regex) (s : text) :
  forall prev,
    search_from p prev s = true
    <-> exists a b n, s = a ++ b /\ match_alt p (prev_after prev a) b = Some n.
Proof.
  induction s as [|c s IH]; intros prev; cbn [search_from].
  - destruct (match_alt p prev []) as [n|] eqn:E.
    + split; [|reflexivity]. intros _. now exists [], [], n.
    + split; [discriminate|]. intros (a & b & n & Hs & Hm).
      symmetry in Hs. apply app_eq_nil in Hs. destruct Hs as [-> ->].
      cbn in Hm. congruence.
  - destruct (match_alt p prev (c :: s)) as [n|] eqn:E.
    + split; [|reflexivity]. intros _. now exists [], (c :: s), n.
    + rewrite IH. split.
      * intros (a & b & n & -> & Hm). exists (c :: a), b, n.
        now rewrite prev_after_cons.
      * intros (a & b & n & Hs & Hm). destruct a as [|x a].
        -- cbn in Hs, Hm. subst b. congruence.
        -- inversion Hs; subst. rewrite prev_after_cons in Hm.
           now exists a, b, n.
Qed.

Lemma re_search_spec (p : regex) (s : text) :
  re_search p s = true <-> matches_somewhere p s.
Proof. apply search_from_spec. Qed.

(* ================================================================== *)
(** * Configuration detector *)
(* ================================================================== *)

Lemma scan_config_checks (w : World) (p : Path) (content : text) (st : nat) :
  fst (scan_config w p content st)
  = with_ids w (map snd (filter fst (config_checks p content))) st.
Proof.
  unfold scan_config, config_checks, append_if.
  destruct (disabled_tls_check content), (broad_iam_check content),
    (public_storage_check content), (weak_cipher_check content);
    reflexivity.
Qed.

Lemma ssl_false_matches (prev : option ascii) (b : text) :
  match_alt DISABLED_TLS_RE prev (lit "ssl: false" ++ b) = Some 10.
Proof. reflexivity. Qed.

Lemma ssl_false_detected (content : text) :
  occurs (lit "ssl: false") content -> disabled_tls_check content = true.
Proof.
  intros (a & b & ->). apply re_search_spec.
  exists a, (lit "ssl: false" ++ b), 10. split; [reflexivity|].
  apply ssl_false_matches.
Qed.

(** C7: each of the four checks of the configuration detector appends one
    finding when its pattern matches somewhere in the text and none
    otherwise, however often it matches; the findings come in the order of
    the checks; every finding has confidence high and the rule identifier,
    framework, control, severity and fixed evidence string of its check.  A
    text in which "ssl: false" occurs gets exactly one [disabled_tls]
    finding, of severity high and framework iso27001. *)
Theorem scan_config_one_finding_per_check
  (w : World) (p : Path) (content : text) (st : nat) :
  fst (scan_config w p content st)
  = with_ids w (map snd (filter fst (config_checks p content))) st
  /\ (length (filter (has_rule_id (lit "disabled_tls"))
                (fst (scan_config w p content st)))
      = (if disabled_tls_check content then 1 else 0)
      /\ length (filter (has_rule_id (lit "broad_iam"))
                   (fst (scan_config w p content st)))
         = (if broad_iam_check content then 1 else 0)
      /\ length (filter (has_rule_id (lit "public_storage"))
                   (fst (scan_config w p content st)))
         = (if public_storage_check content then 1 else 0)
      /\ length (filter (has_rule_id (lit "weak_cipher"))
                   (fst (scan_config w p content st)))
         = (if weak_cipher_check content then 1 else 0))
  /\ ((disabled_tls_check content = true
       <-> matches_somewhere DISABLED_TLS_RE content)
      /\ (broad_iam_check content = true
          <-> matches_somewhere ACTION_RESOURCE_RE content
              \/ matches_somewhere RESOURCE_ACTION_RE content)
      /\ (public_storage_check content = true
          <-> matches_somewhere PUBLIC_RE content)
      /\ (weak_cipher_check content = true
          <-> matches_somewhere WEAK_CIPHER_RE content))
  /\ Forall (fun f =>
               mapping_confidence f = conf_high
               /\ line_range f = lit "1-end"
               /\ needs_review f = false
               /\ In (catalogue_entry f) config_catalogue)
       (fst (scan_config w p content st))
  /\ (occurs (lit "ssl: false") content ->
      exists f,
        filter (has_rule_id (lit "disabled_tls"))
          (fst (scan_config w p content st)) = [f]
        /\ severity f = HIGH
        /\ framework f = ISO27001
        /\ control_id f = lit "A.13"
        /\ evidence_snippet f = lit "TLS/SSL disabled in configuration"
        /\ mapping_confidence f = conf_high).
Proof.
  split; [apply scan_config_checks|].
  split; [|split; [|split]].
  - rewrite scan_config_checks. unfold config_checks.
    destruct (disabled_tls_check content), (broad_iam_check content),
      (public_storage_check content), (weak_cipher_check content);
      repeat split.
  - unfold disabled_tls_check, broad_iam_check, public_storage_check,
      weak_cipher_check.
    split; [apply re_search_spec|].
    split; [rewrite orb_true_iff, !re_search_spec; reflexivity|].
    split; apply re_search_spec.
  - rewrite scan_config_checks. unfold config_checks.
    destruct (disabled_tls_check content), (broad_iam_check content),
      (public_storage_check content), (weak_cipher_check content);
      cbn [filter fst snd map with_ids];
      repeat (constructor;
              [repeat (split; [reflexivity|]); cbn; tauto|]);
      constructor.
  - intros Hssl. apply ssl_false_detected in Hssl.
    rewrite scan_config_checks. unfold config_checks. rewrite Hssl.
    destruct (broad_iam_check content), (public_storage_check content),
      (weak_cipher_check content);
      (eexists; split; [reflexivity|repeat split]).
Qed.

(** C4, on the code: the policy file of the repository's own test holds
    ["Action": "*"] and ["Resource": "*"] on two consecutive lines, and the
    detector reports no [broad_iam] finding for it: [.] does not cross a line
    break. *)
Theorem broad_iam_missed_across_lines (w : World) (st : nat) :
  contains action_wildcard iam_policy_json = true
  /\ contains resource_wildcard iam_policy_json = true
  /\ broad_iam_check iam_policy_json = false
  /\ filter (has_rule_id (lit "broad_iam"))
       (fst (scan_config w some_path iam_policy_json st)) = []
  /\ fst (scan_config w some_path iam_policy_json st) = [].
Proof.
  assert (H1 : disabled_tls_check iam_policy_json = false)
    by (vm_compute; reflexivity).
  assert (H2 : broad_iam_check iam_policy_json = false)
    by (vm_compute; reflexivity).
  assert (H3 : public_storage_check iam_policy_json = false)
    by (vm_compute; reflexivity).
  assert (H4 : weak_cipher_check iam_policy_json = false)
    by (vm_compute; reflexivity).
  split; [vm_compute; reflexivity|].
  split; [vm_compute; reflexivity|].
  split; [exact H2|].
  rewrite scan_config_checks. unfold config_checks.
  rewrite H1, H2, H3, H4. split; reflexivity.
Qed.

(* ================================================================== *)
(** * Lines and evidence windows *)
(* ================================================================== *)

Lemma count_newlines_cons (c : ascii) (s : text) :
  count_newlines (c :: s)
  = (if Ascii.eqb c newline then 1 else 0) + count_newlines s.
Proof.
  unfold count_newlines. cbn [count_occ].
  destruct (ascii_dec c newline) as [->|Hne].
  - now rewrite Ascii.eqb_refl.
  - destruct (Ascii.eqb_spec c newline); [contradiction|reflexivity].
Qed.

Lemma split_lines_from_length (s : text) :
  forall cur, length (split_lines_from cur s) = count_newlines s + 1.
Proof.
  induction s as [|c s IH]; intros cur; [reflexivity|].
  cbn [split_lines_from]. rewrite count_newlines_cons.
  destruct (Ascii.eqb c newline); cbn [length]; rewrite IH; lia.
Qed.

Lemma split_lines_length (s : text) :
  length (split_lines s) = count_newlines s + 1.
Proof. apply split_lines_from_length. Qed.

Lemma join_cons_nonempty (sep p : text) (rest : list text) :
  rest <> [] -> join sep (p :: rest) = p ++ sep ++ join sep rest.
Proof. destruct rest; [easy|reflexivity]. Qed.

Lemma split_lines_from_join (s : text) :
  forall cur, join [newline] (split_lines_from cur s) = rev cur ++ s.
Proof.
  induction s as [|c s IH]; intros cur; cbn [split_lines_from].
  - cbn. now rewrite app_nil_r.
  - destruct (Ascii.eqb_spec c newline) as [->|Hne].
    + rewrite join_cons_nonempty, IH; [reflexivity|].
      intros H. apply (f_equal (@length _)) in H.
      rewrite split_lines_from_length in H. cbn in H. lia.
    + rewrite IH. cbn [rev]. now rewrite <- app_assoc.
Qed.

Lemma split_lines_join (s : text) : join [newline] (split_lines s) = s.
Proof. apply split_lines_from_join. Qed.

Lemma count_newlines_firstn (n : nat) (s : text) :
  count_newlines (firstn n s) <= count_newlines s.
Proof.
  revert n. induction s as [|c s IH]; intros [|n]; cbn [firstn];
    rewrite ?count_newlines_cons; try (cbn; lia).
  specialize (IH n). lia.
Qed.

Lemma line_index_in_range (content : text) (n : nat) :
  line_index content n < length (split_lines content).
Proof.
  unfold line_index. rewrite split_lines_length.
  pose proof (count_newlines_firstn n content). lia.
Qed.

Ltac bool_lia :=
  repeat match goal with
    | |- context [?a <=? ?b] => destruct (Nat.leb_spec a b)
    | |- context [?a <? ?b] => destruct (Nat.ltb_spec a b)
    end; cbn [andb]; try reflexivity; try lia.

(** A slice is the run of entries whose index lies in the half-open
    interval. *)
Lemma slice_by_index {A} (l : list A) :
  forall k a b,
    map snd
      (filter (fun il => (k + a <=? fst il) && (fst il <? k + b))
         (combine (seq k (length l)) l))
    = firstn (b - a) (skipn a l).
Proof.
  induction l as [|x l IH]; intros k a b.
  - cbn. now rewrite skipn_nil, firstn_nil.
  - cbn [length seq combine filter fst].
    assert (Hrest :
      filter (fun il => (k + a <=? fst il) && (fst il <? k + b))
        (combine (seq (S k) (length l)) l)
      = filter (fun il => (S k + (a - 1) <=? fst il)
                          && (fst il <? S k + (b - 1)))
          (combine (seq (S k) (length l)) l)).
    { apply filter_ext_in. intros [i y] Hin. cbn [fst].
      apply in_combine_l in Hin. apply in_seq in Hin. bool_lia. }
    rewrite Hrest. clear Hrest.
    destruct a as [|a'].
    + destruct b as [|b'].
      * replace ((k + 0 <=? k) && (k <? k + 0)) with false by bool_lia.
        rewrite IH. reflexivity.
      * replace ((k + 0 <=? k) && (k <? k + S b')) with true by bool_lia.
        cbn [map snd]. rewrite IH. cbn [skipn firstn Nat.sub].
        now rewrite !Nat.sub_0_r.
    + replace ((k + S a' <=? k) && (k <? k + b)) with false by bool_lia.
      rewrite IH. cbn [skipn]. replace (S a' - 1) with a' by lia.
      f_equal. lia.
Qed.

Lemma extract_evidence_window (content : text) (start end_ : nat) :
  _extract_evidence content start end_
  = join [newline]
      (window_lines (split_lines content) (line_index content start)
         (line_index content end_)).
Proof.
  unfold _extract_evidence, window_lines, slice, line_index. f_equal.
  set (lines := split_lines content).
  set (sl := count_newlines (firstn start content)).
  set (el := count_newlines (firstn end_ content)).
  replace (Z.to_nat (Z.max 0 (Z.of_nat sl - 2))) with (sl - 2) by lia.
  rewrite <- (slice_by_index lines 0). f_equal.
  apply filter_ext_in. intros [i y] Hin. cbn [fst].
  apply in_combine_l in Hin. apply in_seq in Hin. bool_lia.
Qed.

(* ================================================================== *)
(** * Pattern matcher *)
(* ================================================================== *)

Lemma scan_file_findings (w : World) (rules : list Rule) (p : Path)
  (content : text) (st : nat) :
  fst (scan_file w rules p content st)
  = with_ids w (flat_map (rule_findings p content) rules) st.
Proof.
  unfold scan_file.
  rewrite (fold_left_pointwise (scan_rule w p content)
             (fun a rule =>
                fold_left (fun a' mk => append_fresh w mk a')
                  (rule_findings p content rule) a)).
  - rewrite fold_left_flat_map.
    rewrite (fold_append_fresh w (fun mk => mk)). cbn [fst app].
    now rewrite map_id.
  - intros a rule. unfold scan_rule, rule_findings.
    destruct (rule_applies rule p); cbn [negb fold_left]; [|reflexivity].
    now rewrite fold_left_map.
Qed.

(** C9: the findings [scan_file] returns are, rule by rule and match by
    match, one finding per match of each applicable rule.  The finding of a
    match has line range "s-e" where s and e are one plus the number of
    newline characters before the match's start and end offsets, and its
    evidence is the redaction of the lines from two before the start line
    through two after the end line that exist in the text, joined by
    newlines. *)
Theorem scan_file_location_and_evidence
  (w : World) (rules : list Rule) (p : Path) (content : text) (st : nat) :
  fst (scan_file w rules p content st)
  = with_ids w (flat_map (rule_findings p content) rules) st
  /\ (forall rule m,
        In rule rules -> rule_applies rule p = true ->
        In m (r_pattern rule content) ->
        exists f,
          In f (fst (scan_file w rules p content st))
          /\ rule_id f = r_id rule
          /\ severity f = r_severity rule
          /\ framework f = r_framework rule
          /\ line_range f
             = str_of_nat (count_newlines (firstn (fst m) content) + 1)
               ++ lit "-"
               ++ str_of_nat (count_newlines (firstn (snd m) content) + 1)
          /\ evidence_snippet f
             = _redact_sensitive_data
                 (join [newline]
                    (window_lines (split_lines content)
                       (line_index content (fst m))
                       (line_index content (snd m)))))
  /\ (forall f,
        In f (fst (scan_file w rules p content st)) ->
        exists rule m,
          In rule rules /\ rule_applies rule p = true
          /\ In m (r_pattern rule content)
          /\ rule_id f = r_id rule
          /\ line_range f
             = str_of_nat (count_newlines (firstn (fst m) content) + 1)
               ++ lit "-"
               ++ str_of_nat (count_newlines (firstn (snd m) content) + 1)
          /\ evidence_snippet f
             = _redact_sensitive_data
                 (join [newline]
                    (window_lines (split_lines content)
                       (line_index content (fst m))
                       (line_index content (snd m)))))
  /\ (forall n,
        _extract_evidence content n n
        = join [newline]
            (slice (split_lines content) (line_index content n - 2)
               (Nat.min (length (split_lines content))
                  (line_index content n + 3)))
        /\ line_index content n < length (split_lines content))
  /\ length (split_lines content) = count_newlines content + 1
  /\ join [newline] (split_lines content) = content.
Proof.
  split; [apply scan_file_findings|].
  split; [|split; [|split; [|split]]].
  - intros rule m Hrule Happ Hm.
    assert (Hmk : In (match_finding rule p content m)
                    (flat_map (rule_findings p content) rules)).
    { apply in_flat_map. exists rule. split; [exact Hrule|].
      unfold rule_findings. rewrite Happ. now apply in_map. }
    destruct (in_with_ids_intro w _ st _ Hmk) as [u Hu].
    exists (match_finding rule p content m u).
    rewrite scan_file_findings. split; [exact Hu|].
    cbn [match_finding rule_id severity framework line_range
         evidence_snippet].
    rewrite extract_evidence_window. repeat split.
  - intros f Hf. rewrite scan_file_findings in Hf.
    apply in_with_ids_elim in Hf. destruct Hf as (mk & u & Hmk & ->).
    apply in_flat_map in Hmk. destruct Hmk as (rule & Hrule & Hmk).
    unfold rule_findings in Hmk.
    destruct (rule_applies rule p) eqn:Happ; [|easy].
    apply in_map_iff in Hmk. destruct Hmk as (m & <- & Hm).
    exists rule, m.
    cbn [match_finding rule_id line_range evidence_snippet].
    rewrite extract_evidence_window. repeat split; assumption.
  - intros n. split; [|apply line_index_in_range].
    unfold _extract_evidence, line_index. do 2 f_equal. lia.
  - apply split_lines_length.
  - apply split_lines_join.
Qed.

(* ================================================================== *)
(** * The matcher and what it accepts *)
(* ================================================================== *)

Lemma try_down_some (f : nat -> option nat) (lo : nat) :
  forall K n, try_down K lo f = Some n ->
              exists k, lo <= k /\ k <= K /\ f k = Some n.
Proof.
  induction K as [|K IH]; intros n; cbn [try_down].
  - destruct (Nat.ltb_spec 0 lo) as [Hlt|Hge]; [discriminate|].
    destruct (f 0) eqn:E; [|discriminate].
    intros H. inversion H; subst. exists 0. repeat split; [lia|lia|exact E].
  - destruct (Nat.ltb_spec (S K) lo) as [Hlt|Hge]; [discriminate|].
    destruct (f (S K)) eqn:E.
    + intros H. inversion H; subst. exists (S K). repeat split; [lia|lia|exact E].
    + intros H. destruct (IH _ H) as (k & ? & ? & ?). exists k.
      repeat split; [lia|lia|assumption].
Qed.

Lemma try_down_complete (f : nat -> option nat) (lo k : nat) :
  lo <= k -> f k <> None ->
  forall K, k <= K -> try_down K lo f <> None.
Proof.
  intros Hlo Hk. induction K as [|K IH]; intros HK; cbn [try_down].
  - assert (k = 0) by lia. subst.
    destruct (Nat.ltb_spec 0 lo) as [Hlt|Hge]; [lia|]. now destruct (f 0).
  - destruct (Nat.ltb_spec (S K) lo) as [Hlt|Hge]; [lia|].
    destruct (f (S K)) eqn:E; [discriminate|].
    destruct (Nat.eq_dec k (S K)) as [->|Hne]; [congruence|].
    apply IH. lia.
Qed.

Lemma prefix_len_firstn (cls : ascii -> bool) (s : text) :
  forall k, k <= prefix_len cls s ->
            forallb cls (firstn k s) = true /\ length (firstn k s) = k.
Proof.
  induction s as [|c s IH]; intros k Hk; cbn [prefix_len] in Hk.
  - assert (k = 0) by lia. subst. now split.
  - destruct k as [|k]; [now split|]. cbn [firstn forallb length].
    destruct (cls c); [|lia].
    destruct (IH k) as [H1 H2]; [lia|]. now rewrite H1, H2.
Qed.

Lemma prefix_len_app (cls : ascii -> bool) (u r : text) :
  forallb cls u = true -> length u <= prefix_len cls (u ++ r).
Proof.
  induction u as [|c u IH]; cbn [forallb app prefix_len length]; [lia|].
  intros H. apply andb_true_iff in H. destruct H as [-> H].
  specialize (IH H). lia.
Qed.

Lemma run_bound (cls : ascii -> bool) (hi : option nat) (s : text) (k : nat) :
  k <= run cls hi s <-> k <= prefix_len cls s /\ within hi k.
Proof. unfold run, within. destruct hi; lia. Qed.

Lemma firstn_plus {A} (k n : nat) (s : list A) :
  firstn (k + n) s = firstn k s ++ firstn n (skipn k s).
Proof.
  revert s. induction k as [|k IH]; intros s; [reflexivity|].
  destruct s as [|c s]; cbn [Nat.add firstn skipn app].
  - now rewrite firstn_nil.
  - now rewrite IH.
Qed.

Lemma skipn_plus {A} (k n : nat) (s : list A) :
  skipn (k + n) s = skipn n (skipn k s).
Proof.
  revert s. induction k as [|k IH]; intros s; [reflexivity|].
  destruct s as [|c s]; cbn [Nat.add skipn].
  - now rewrite skipn_nil.
  - apply IH.
Qed.

Lemma firstn_app_exact {A} (u r : list A) : firstn (length u) (u ++ r) = u.
Proof. induction u as [|c u IH]; cbn; [reflexivity|now rewrite IH]. Qed.

Lemma skipn_app_exact {A} (u r : list A) : skipn (length u) (u ++ r) = r.
Proof. induction u as [|c u IH]; cbn; [reflexivity|exact IH]. Qed.

(** What [match_seq] returns is accepted. *)
Lemma match_seq_sound (r : list item) :
  forall prev s n,
    match_seq r prev s = Some n ->
    n <= length s /\ accepts r prev (firstn n s) (skipn n s).
Proof.
  induction r as [|it r IH]; intros prev s n; cbn [match_seq accepts].
  - intros H. inversion H; subst. split; [lia|reflexivity].
  - destruct it as [cls lo hi|].
    + intros H. apply try_down_some in H. destruct H as (k & Hlo & Hk & Hf).
      destruct (match_seq r (prev_after prev (firstn k s)) (skipn k s))
        as [n'|] eqn:E; [|discriminate].
      cbn [option_map] in Hf. inversion Hf; subst n.
      apply run_bound in Hk. destruct Hk as [Hk Hhi].
      destruct (prefix_len_firstn cls s k Hk) as [Hall Hlen].
      destruct (IH _ _ _ E) as [Hn' Hacc].
      rewrite length_skipn in Hn'.
      assert (k <= length s)
        by (rewrite <- Hlen; rewrite length_firstn; lia).
      split; [lia|].
      exists (firstn k s), (firstn n' (skipn k s)).
      rewrite Hlen, <- firstn_plus. repeat split; try assumption.
      now rewrite skipn_plus.
    + destruct (at_boundary prev s) eqn:Eb; [|discriminate].
      intros H. destruct (IH _ _ _ H) as [Hn Hacc].
      split; [exact Hn|]. split; [|exact Hacc].
      now rewrite firstn_skipn.
Qed.

(** What is accepted is found, perhaps with other repetition counts. *)
Lemma match_seq_complete (r : list item) :
  forall prev u rest,
    accepts r prev u rest -> match_seq r prev (u ++ rest) <> None.
Proof.
  induction r as [|it r IH]; intros prev u rest; cbn [match_seq accepts].
  - discriminate.
  - destruct it as [cls lo hi|].
    + intros (u1 & u2 & -> & Hall & Hlo & Hhi & Hacc).
      apply (try_down_complete _ lo (length u1)); [exact Hlo| |].
      * rewrite <- app_assoc, firstn_app_exact, skipn_app_exact.
        specialize (IH _ _ _ Hacc).
        destruct (match_seq r (prev_after prev u1) (u2 ++ rest));
          [discriminate|congruence].
      * apply run_bound. split; [|exact Hhi].
        rewrite <- app_assoc. now apply prefix_len_app.
    + intros [Hb Hacc]. rewrite Hb. now apply IH.
Qed.

Lemma accepts_body_then_boundary (body : list item) :
  rep_only body = true ->
  forall prev u rest,
    accepts (body ++ [WordBoundary]) prev u rest
    <-> body_accepts body u /\ at_boundary (prev_after prev u) rest = true.
Proof.
  induction body as [|it body IH]; intros Hrep prev u rest.
  - cbn [app accepts body_accepts]. split.
    + intros [Hb ->]. now split.
    + intros [-> Hb]. now split.
  - destruct it as [cls lo hi|]; [|discriminate].
    cbn [rep_only forallb] in Hrep. cbn [app accepts body_accepts]. split.
    + intros (u1 & u2 & -> & Hall & Hlo & Hhi & Hacc).
      apply IH in Hacc; [|exact Hrep]. destruct Hacc as [Hacc Hb].
      rewrite prev_after_app. split; [|exact Hb].
      now exists u1, u2.
    + intros [(u1 & u2 & -> & Hall & Hlo & Hhi & Hacc) Hb].
      exists u1, u2. repeat split; try assumption.
      apply IH; [exact Hrep|]. now rewrite <- prev_after_app.
Qed.

Lemma match_alt_bounded (body : list item) (prev : option ascii) (s : text) :
  match_alt (bounded body) prev s
  = match_seq (WordBoundary :: body ++ [WordBoundary]) prev s.
Proof.
  unfold bounded. cbn [match_alt].
  now destruct (match_seq (WordBoundary :: body ++ [WordBoundary]) prev s).
Qed.

Lemma bounded_sound (body : list item) (prev : option ascii) (s : text)
  (n : nat) :
  rep_only body = true ->
  match_alt (bounded body) prev s = Some n ->
  n <= length s /\ Occurrence body prev (firstn n s) (skipn n s).
Proof.
  intros Hrep H. rewrite match_alt_bounded in H.
  apply match_seq_sound in H. destruct H as [Hn [Hb Hacc]].
  apply accepts_body_then_boundary in Hacc; [|exact Hrep].
  split; [exact Hn|]. unfold Occurrence. tauto.
Qed.

Lemma bounded_complete (body : list item) (prev : option ascii)
  (u rest : text) :
  rep_only body = true ->
  Occurrence body prev u rest ->
  match_alt (bounded body) prev (u ++ rest) <> None.
Proof.
  intros Hrep (Hb & Hacc & He). rewrite match_alt_bounded.
  apply match_seq_complete. split; [exact Hb|].
  apply accepts_body_then_boundary; [exact Hrep|]. now split.
Qed.

Lemma body_accepts_min_len (body : list item) :
  forall u, body_accepts body u -> min_len body <= length u.
Proof.
  induction body as [|it body IH]; intros u; cbn [body_accepts min_len].
  - intros ->. reflexivity.
  - destruct it as [cls lo hi|]; [|easy].
    intros (u1 & u2 & -> & _ & Hlo & _ & Hacc).
    rewrite length_app. specialize (IH _ Hacc). lia.
Qed.

Lemma body_accepts_avoids (body : list item) (c : ascii) :
  avoids body c = true ->
  forall u, body_accepts body u -> ~ In c u.
Proof.
  induction body as [|it body IH]; intros Hav u; cbn [body_accepts].
  - intros ->. easy.
  - destruct it as [cls lo hi|]; [|easy].
    cbn [avoids forallb] in Hav. apply andb_true_iff in Hav.
    destruct Hav as [Hc Hav].
    intros (u1 & u2 & -> & Hall & _ & _ & Hacc) Hin.
    apply in_app_or in Hin. destruct Hin as [Hin|Hin].
    + rewrite forallb_forall in Hall. apply Hall in Hin.
      rewrite Hin in Hc. discriminate.
    + exact (IH Hav _ Hacc Hin).
Qed.

(* ================================================================== *)
(** * Substitution *)
(* ================================================================== *)

Lemma sub_from_skip (p : regex) (mask : text) (s : text) :
  forall prev k,
    sub_from p mask prev s k
    = sub_from p mask (prev_after prev (firstn k s)) (skipn k s) 0.
Proof.
  induction s as [|c s IH]; intros prev k.
  - now rewrite firstn_nil, skipn_nil.
  - destruct k as [|k]; [reflexivity|].
    cbn [sub_from firstn skipn]. now rewrite IH, prev_after_cons.
Qed.

Lemma sub_from_match (p : regex) (mask : text) (prev : option ascii)
  (s : text) (k : nat) :
  match_alt p prev s = Some (S k) -> s <> [] ->
  sub_from p mask prev s 0
  = mask ++ sub_from p mask (prev_after prev (firstn (S k) s))
              (skipn (S k) s) 0.
Proof.
  intros Hm Hs. destruct s as [|c s]; [easy|].
  cbn [sub_from]. rewrite Hm. f_equal.
  rewrite sub_from_skip. cbn [firstn skipn]. now rewrite prev_after_cons.
Qed.

Lemma sub_from_keep (p : regex) (mask : text) (prev : option ascii)
  (c : ascii) (s : text) :
  match_alt p prev (c :: s) = None ->
  sub_from p mask prev (c :: s) 0 = c :: sub_from p mask (Some c) s 0.
Proof. intros Hm. cbn [sub_from]. now rewrite Hm. Qed.

(** A text without a match is left as it is. *)
Lemma sub_from_fixed (p : regex) (mask : text) (s : text) :
  forall prev, search_from p prev s = false ->
               sub_from p mask prev s 0 = s.
Proof.
  induction s as [|c s IH]; intros prev H; [reflexivity|].
  cbn [search_from] in H.
  destruct (match_alt p prev (c :: s)) eqn:E; [discriminate|].
  rewrite sub_from_keep by exact E. now rewrite IH.
Qed.

Lemma prev_after_nonempty (p p' : option ascii) (u : text) :
  u <> [] -> prev_after p u = prev_after p' u.
Proof.
  destruct u as [|c u]; [easy|]. intros _. now rewrite !prev_after_cons.
Qed.

Lemma at_boundary_hd (p : option ascii) (s s' : text) :
  hd_error s = hd_error s' -> at_boundary p s = at_boundary p s'.
Proof. unfold at_boundary. now intros ->. Qed.

Lemma search_from_false_shift (p : regex) (prev : option ascii) (a b : text) :
  search_from p prev (a ++ b) = false ->
  search_from p (prev_after prev a) b = false.
Proof.
  intros H. destruct (search_from p (prev_after prev a) b) eqn:E;
    [|reflexivity].
  apply search_from_spec in E. destruct E as (a' & b' & n & -> & Hm).
  assert (search_from p prev (a ++ a' ++ b') = true).
  { apply search_from_spec. exists (a ++ a'), b', n.
    split; [now rewrite app_assoc|]. now rewrite prev_after_app. }
  congruence.
Qed.

Lemma search_from_false_here (p : regex) (prev : option ascii) (s : text) :
  search_from p prev s = false -> match_alt p prev s = None.
Proof.
  intros H. destruct (match_alt p prev s) eqn:E; [|reflexivity].
  destruct s; cbn [search_from] in H; rewrite E in H; discriminate.
Qed.

Lemma bounded_match_pos (body : list item) (prev : option ascii) (s : text)
  (n : nat) :
  rep_only body = true -> 1 <= min_len body ->
  match_alt (bounded body) prev s = Some n -> 1 <= n.
Proof.
  intros Hrep Hmin H. apply bounded_sound in H; [|exact Hrep].
  destruct H as [Hn (_ & Hacc & _)].
  apply body_accepts_min_len in Hacc. rewrite length_firstn in Hacc. lia.
Qed.

Lemma bounded_not_at (body : list item) (prev : option ascii) (c : ascii)
  (s : text) :
  rep_only body = true -> 1 <= min_len body -> avoids body c = true ->
  match_alt (bounded body) prev (c :: s) = None.
Proof.
  intros Hrep Hmin Hav.
  destruct (match_alt (bounded body) prev (c :: s)) as [n|] eqn:E;
    [|reflexivity].
  pose proof (bounded_match_pos _ _ _ _ Hrep Hmin E) as Hn.
  apply bounded_sound in E; [|exact Hrep]. destruct E as [_ (_ & Hacc & _)].
  destruct n as [|n]; [lia|]. cbn [firstn] in Hacc.
  exfalso. apply (body_accepts_avoids _ _ Hav _ Hacc). now left.
Qed.

Lemma bounded_not_empty (body : list item) (prev : option ascii) :
  rep_only body = true -> 1 <= min_len body ->
  match_alt (bounded body) prev [] = None.
Proof.
  intros Hrep Hmin.
  destruct (match_alt (bounded body) prev []) as [n|] eqn:E; [|reflexivity].
  pose proof (bounded_match_pos _ _ _ _ Hrep Hmin E) as Hn.
  apply bounded_sound in E; [|exact Hrep]. destruct E as [Hle _].
  cbn in Hle. lia.
Qed.

Lemma search_through_inert (p : regex) (m : text) :
  forall c z,
    inert_tail p c m ->
    search_from p (prev_after (Some c) m) z = false ->
    search_from p (Some c) (m ++ z) = false.
Proof.
  induction m as [|d m IH]; intros c z Hin Hz; [exact Hz|].
  destruct Hin as [Hhere Hin]. cbn [app search_from].
  specialize (Hhere z). cbn [app] in Hhere. rewrite Hhere.
  apply IH; [exact Hin|]. now rewrite prev_after_cons in Hz.
Qed.

Section Substitution.
(** [bodyR] is the pattern looked for in the output of the substitution
    of [bodyJ] by the mask [star_char :: mask_tail]. *)
Variables (bodyR bodyJ : list item) (mask_tail : text).
Hypothesis HrepR : rep_only bodyR = true.
Hypothesis HrepJ : rep_only bodyJ = true.
Hypothesis HminR : 1 <= min_len bodyR.
Hypothesis HminJ : 1 <= min_len bodyJ.
Hypothesis HavR : avoids bodyR star_char = true.
Hypothesis Hinert : inert_tail (bounded bodyR) star_char mask_tail.
Hypothesis Hlast :
  is_word_opt (prev_after (Some star_char) mask_tail) = false.

Let R := bounded bodyR.
Let J := bounded bodyJ.
Let mask := star_char :: mask_tail.

(** A boundary before the output is a boundary before the input. *)
Lemma boundary_before_sub (p : option ascii) (y : text) :
  at_boundary p (sub_from J mask p y 0) = true -> at_boundary p y = true.
Proof.
  destruct y as [|d y]; [easy|].
  destruct (match_alt J p (d :: y)) as [[|k]|] eqn:E.
  - apply bounded_match_pos in E; [lia|exact HrepJ|exact HminJ].
  - intros _. apply bounded_sound in E; [|exact HrepJ].
    destruct E as [_ (Hb & _)]. now rewrite firstn_skipn in Hb.
  - now rewrite sub_from_keep by exact E.
Qed.

(** A star-free prefix of the output is a prefix of the input. *)
Lemma star_free_prefix (u : text) :
  forall py y rz,
    ~ In star_char u ->
    sub_from J mask py y 0 = u ++ rz ->
    exists ry, y = u ++ ry
               /\ rz = sub_from J mask (prev_after py u) ry 0.
Proof.
  induction u as [|c u IH]; intros py y rz Hstar Hz.
  - exists y. now split.
  - destruct y as [|d y]; [discriminate|].
    destruct (match_alt J py (d :: y)) as [[|k]|] eqn:E.
    + apply bounded_match_pos in E; [lia|exact HrepJ|exact HminJ].
    + rewrite (sub_from_match _ _ _ _ _ E) in Hz by easy.
      subst mask. cbn [app] in Hz. inversion Hz; subst c.
      exfalso. apply Hstar. now left.
    + rewrite sub_from_keep in Hz by exact E.
      cbn [app] in Hz. inversion Hz; subst d.
      destruct (IH (Some c) y rz) as (ry & -> & Hrz);
        [intros H; apply Hstar; now right|assumption|].
      exists ry. split; [reflexivity|]. now rewrite prev_after_cons.
Qed.

(** A match in the output, away from the masks, is a match in the
    input. *)
Lemma match_transfer (pz py : option ascii) (y : text) (n : nat) :
  scan_context pz py y ->
  match_alt R pz (sub_from J mask py y 0) = Some n ->
  match_alt R py y <> None.
Proof.
  intros Hctx Hm.
  pose proof (bounded_match_pos _ _ _ _ HrepR HminR Hm) as Hn.
  apply bounded_sound in Hm; [|exact HrepR].
  destruct Hm as [Hlen (Hb & Hacc & He)].
  pose proof (body_accepts_avoids _ _ HavR _ Hacc) as Hstar.
  pose proof (body_accepts_min_len _ _ Hacc) as Hu.
  set (u := firstn n (sub_from J mask py y 0)) in *.
  set (rz := skipn n (sub_from J mask py y 0)) in *.
  assert (Hne : u <> []) by (intros H0; rewrite H0 in Hu; cbn in Hu; lia).
  destruct (star_free_prefix u py y rz Hstar) as (ry & Hy & Hrz).
  { subst u rz. now rewrite firstn_skipn. }
  rewrite Hy. apply bounded_complete; [exact HrepR|].
  split; [|split; [exact Hacc|]].
  - destruct Hctx as [->|[Hpz Hpy]]; [|now rewrite <- Hy].
    rewrite <- Hb. apply at_boundary_hd.
    destruct u; [easy|reflexivity].
  - apply boundary_before_sub. rewrite <- Hrz.
    now rewrite (prev_after_nonempty py pz u Hne).
Qed.

(** The output of the substitution has no match of [R], provided the
    input has none where [J] does not match. *)
Lemma no_match_after_sub :
  forall n y py pz,
    length y <= n ->
    scan_context pz py y ->
    free_where R J py y ->
    search_from R pz (sub_from J mask py y 0) = false.
Proof.
  induction n as [|n IH]; intros y py pz Hlen Hctx Hfree.
  - destruct y; [|cbn in Hlen; lia]. cbn [sub_from search_from].
    unfold R. now rewrite bounded_not_empty.
  - destruct y as [|c y].
    { cbn [sub_from search_from]. unfold R.
      now rewrite bounded_not_empty. }
    cbn [length] in Hlen.
    destruct (match_alt J py (c :: y)) as [[|k]|] eqn:E.
    + apply bounded_match_pos in E; [lia|exact HrepJ|exact HminJ].
    + rewrite (sub_from_match _ _ _ _ _ E) by easy.
      subst mask. cbn [app search_from]. unfold R at 1.
      rewrite bounded_not_at by assumption.
      apply search_through_inert; [exact Hinert|].
      apply bounded_sound in E; [|exact HrepJ].
      destruct E as [_ (_ & _ & He)].
      apply IH.
      * rewrite length_skipn. cbn [length]. lia.
      * right. split; [exact Hlast|exact He].
      * intros a b Hab. rewrite <- prev_after_app.
        apply Hfree. rewrite <- app_assoc, <- Hab. now rewrite firstn_skipn.
    + rewrite sub_from_keep by exact E. cbn [search_from].
      destruct (match_alt R pz
                  (c :: sub_from J mask (Some c) y 0)) as [m|] eqn:Em.
      * exfalso. rewrite <- (sub_from_keep J mask py c y E) in Em.
        apply (match_transfer _ _ _ _ Hctx) in Em. apply Em.
        apply (Hfree [] (c :: y)); [reflexivity|exact E].
      * apply IH; [lia|now left|].
        intros a b Hab. rewrite <- (prev_after_cons py).
        apply Hfree. now rewrite Hab.
Qed.
End Substitution.

(** After the substitution of a pattern, the pattern matches nowhere. *)
Lemma sub_clears (body : list item) (tail : text) :
  plain_body body -> inert_mask body tail ->
  forall s,
    re_search (bounded body) (re_sub (bounded body) (star_char :: tail) s)
    = false.
Proof.
  intros (Hrep & Hmin & Hav) (Hin & Hlast) s. unfold re_search, re_sub.
  apply (no_match_after_sub body body tail Hrep Hrep Hmin Hmin Hav Hin Hlast
           (length s)); [lia|now left|].
  intros a b _ H. exact H.
Qed.

(** The substitution of one pattern brings no match of another. *)
Lemma sub_preserves (bodyR bodyJ : list item) (tail : text) :
  plain_body bodyR -> plain_body bodyJ -> inert_mask bodyR tail ->
  forall s,
    re_search (bounded bodyR) s = false ->
    re_search (bounded bodyR) (re_sub (bounded bodyJ) (star_char :: tail) s)
    = false.
Proof.
  intros (HrepR & HminR & HavR) (HrepJ & HminJ & _) (Hin & Hlast) s Hs.
  unfold re_search, re_sub.
  apply (no_match_after_sub bodyR bodyJ tail HrepR HrepJ HminR HminJ HavR
           Hin Hlast (length s)); [lia|now left|].
  intros a b -> _. apply search_from_false_here.
  now apply search_from_false_shift.
Qed.

Lemma sub_replaced (body : list item) (mask : text) :
  rep_only body = true -> 1 <= min_len body ->
  forall n x prev,
    length x <= n ->
    replaced body mask prev x (sub_from (bounded body) mask prev x 0).
Proof.
  intros Hrep Hmin. induction n as [|n IH]; intros x prev Hlen.
  - destruct x; [constructor|cbn in Hlen; lia].
  - destruct x as [|c x]; [constructor|]. cbn [length] in Hlen.
    destruct (match_alt (bounded body) prev (c :: x)) as [[|k]|] eqn:E.
    + apply bounded_match_pos in E; [lia|exact Hrep|exact Hmin].
    + rewrite (sub_from_match _ _ _ _ _ E) by easy.
      apply bounded_sound in E; [|exact Hrep]. destruct E as [_ Hocc].
      rewrite <- (firstn_skipn (S k) (c :: x)) at 1.
      apply replaced_mask; [exact Hocc|].
      apply IH. rewrite length_skipn. cbn [length]. lia.
    + rewrite sub_from_keep by exact E.
      apply replaced_keep. apply IH. lia.
Qed.

Lemma re_sub_replaced (body : list item) (mask : text) (x : text) :
  rep_only body = true -> 1 <= min_len body ->
  replaced body mask None x (re_sub (bounded body) mask x).
Proof. intros Hrep Hmin. now apply (sub_replaced body mask Hrep Hmin (length x)). Qed.

Lemma bounded_match_iff (body : list item) (prev : option ascii) (s : text) :
  rep_only body = true ->
  (exists n, match_alt (bounded body) prev s = Some n)
  <-> (exists u rest, s = u ++ rest /\ Occurrence body prev u rest).
Proof.
  intros Hrep. split.
  - intros [n H]. apply bounded_sound in H; [|exact Hrep].
    exists (firstn n s), (skipn n s). now rewrite firstn_skipn.
  - intros (u & rest & -> & Hocc).
    pose proof (bounded_complete _ _ _ _ Hrep Hocc) as H.
    destruct (match_alt (bounded body) prev (u ++ rest)) as [n|];
      [now exists n|congruence].
Qed.

(* ================================================================== *)
(** * The four redaction patterns and their masks *)
(* ================================================================== *)

Lemma email_plain : plain_body EMAIL_BODY.
Proof. repeat split. cbn. lia. Qed.
Lemma card_plain : plain_body CARD_BODY.
Proof. repeat split. cbn. lia. Qed.
Lemma phone_plain : plain_body PHONE_BODY.
Proof. repeat split. cbn. lia. Qed.
Lemma token_plain : plain_body TOKEN_BODY.
Proof. repeat split. cbn. lia. Qed.

Ltac inert :=
  split; [cbn [inert_tail lit list_ascii_of_string app];
          repeat split; intros b; reflexivity
         | reflexivity].

Lemma email_inert_email : inert_mask EMAIL_BODY EMAIL_TAIL.
Proof. inert. Qed.
Lemma email_inert_card : inert_mask EMAIL_BODY CARD_TAIL.
Proof. inert. Qed.
Lemma email_inert_phone : inert_mask EMAIL_BODY PHONE_TAIL.
Proof. inert. Qed.
Lemma email_inert_token : inert_mask EMAIL_BODY TOKEN_TAIL.
Proof. inert. Qed.
Lemma card_inert_card : inert_mask CARD_BODY CARD_TAIL.
Proof. inert. Qed.
Lemma card_inert_phone : inert_mask CARD_BODY PHONE_TAIL.
Proof. inert. Qed.
Lemma card_inert_token : inert_mask CARD_BODY TOKEN_TAIL.
Proof. inert. Qed.
Lemma phone_inert_phone : inert_mask PHONE_BODY PHONE_TAIL.
Proof. inert. Qed.
Lemma phone_inert_token : inert_mask PHONE_BODY TOKEN_TAIL.
Proof. inert. Qed.
Lemma token_inert_token : inert_mask TOKEN_BODY TOKEN_TAIL.
Proof. inert. Qed.

(** No pattern of the redactor matches anywhere in its output. *)
Lemma redacted_has_no_match (t : text) :
  re_search EMAIL_RE (_redact_sensitive_data t) = false
  /\ re_search CARD_RE (_redact_sensitive_data t) = false
  /\ re_search PHONE_RE (_redact_sensitive_data t) = false
  /\ re_search TOKEN_RE (_redact_sensitive_data t) = false.
Proof.
  unfold _redact_sensitive_data.
  set (t1 := re_sub EMAIL_RE EMAIL_MASK t).
  set (t2 := re_sub CARD_RE CARD_MASK t1).
  set (t3 := re_sub PHONE_RE PHONE_MASK t2).
  assert (E1 : re_search EMAIL_RE t1 = false)
    by apply (sub_clears _ _ email_plain email_inert_email).
  assert (E2 : re_search EMAIL_RE t2 = false)
    by apply (sub_preserves _ _ _ email_plain card_plain email_inert_card
                _ E1).
  assert (E3 : re_search EMAIL_RE t3 = false)
    by apply (sub_preserves _ _ _ email_plain phone_plain email_inert_phone
                _ E2).
  assert (C2 : re_search CARD_RE t2 = false)
    by apply (sub_clears _ _ card_plain card_inert_card).
  assert (C3 : re_search CARD_RE t3 = false)
    by apply (sub_preserves _ _ _ card_plain phone_plain card_inert_phone
                _ C2).
  assert (P3 : re_search PHONE_RE t3 = false)
    by apply (sub_clears _ _ phone_plain phone_inert_phone).
  split; [|split; [|split]].
  - apply (sub_preserves _ _ _ email_plain token_plain email_inert_token
             _ E3).
  - apply (sub_preserves _ _ _ card_plain token_plain card_inert_token
             _ C3).
  - apply (sub_preserves _ _ _ phone_plain token_plain phone_inert_token
             _ P3).
  - apply (sub_clears _ _ token_plain token_inert_token).
Qed.

Lemma re_sub_fixed (p : regex) (mask s : text) :
  re_search p s = false -> re_sub p mask s = s.
Proof. apply sub_from_fixed. Qed.

(** C10: redacting a redacted text changes nothing; none of the four
    patterns matches anywhere in a redacted text, its mask tokens
    included. *)
Theorem redact_idempotent (t : text) :
  _redact_sensitive_data (_redact_sensitive_data t) = _redact_sensitive_data t
  /\ ~ matches_somewhere EMAIL_RE (_redact_sensitive_data t)
  /\ ~ matches_somewhere CARD_RE (_redact_sensitive_data t)
  /\ ~ matches_somewhere PHONE_RE (_redact_sensitive_data t)
  /\ ~ matches_somewhere TOKEN_RE (_redact_sensitive_data t).
Proof.
  destruct (redacted_has_no_match t) as (He & Hc & Hp & Ht).
  split.
  - set (r := _redact_sensitive_data t) in *.
    unfold _redact_sensitive_data at 1.
    now rewrite (re_sub_fixed _ _ _ He), (re_sub_fixed _ _ _ Hc),
      (re_sub_fixed _ _ _ Hp), (re_sub_fixed _ _ _ Ht).
  - repeat split; intros H; apply re_search_spec in H; congruence.
Qed.

Lemma token_occurrence (prev : option ascii) (u rest : text) :
  Occurrence TOKEN_BODY prev u rest
  <-> at_boundary prev (u ++ rest) = true
      /\ 20 <= length u /\ forallb token_char u = true
      /\ at_boundary (prev_after prev u) rest = true.
Proof.
  unfold Occurrence, TOKEN_BODY, at_least. cbn [body_accepts within]. split.
  - intros (Hb & (u1 & u2 & -> & Hall & Hlen & _ & ->) & He).
    rewrite app_nil_r in *. tauto.
  - intros (Hb & Hlen & Hall & He). repeat split; try assumption.
    exists u, []. now rewrite app_nil_r.
Qed.

(** The texts the card pattern accepts between its word boundaries: four
    groups of four digits, with at most one dash or space between two
    groups. *)
Lemma card_shape (u : text) :
  body_accepts CARD_BODY u
  <-> exists g1 s1 g2 s2 g3 s3 g4,
        u = g1 ++ s1 ++ g2 ++ s2 ++ g3 ++ s3 ++ g4
        /\ (length g1 = 4 /\ length g2 = 4 /\ length g3 = 4
            /\ length g4 = 4)
        /\ forallb is_digit (g1 ++ g2 ++ g3 ++ g4) = true
        /\ (length s1 <= 1 /\ length s2 <= 1 /\ length s3 <= 1)
        /\ forallb dash_or_space (s1 ++ s2 ++ s3) = true.
Proof.
  unfold CARD_BODY, times, opt. cbn [body_accepts within]. split.
  - intros (g1 & r1 & -> & Hg1 & L1 & U1 & s1 & r2 & -> & Hs1 & _ & Us1
            & g2 & r3 & -> & Hg2 & L2 & U2 & s2 & r4 & -> & Hs2 & _ & Us2
            & g3 & r5 & -> & Hg3 & L3 & U3 & s3 & r6 & -> & Hs3 & _ & Us3
            & g4 & r7 & -> & Hg4 & L4 & U4 & ->).
    exists g1, s1, g2, s2, g3, s3, g4. rewrite app_nil_r.
    rewrite !forallb_app, Hg1, Hg2, Hg3, Hg4, Hs1, Hs2, Hs3.
    repeat split; try reflexivity; lia.
  - intros (g1 & s1 & g2 & s2 & g3 & s3 & g4 & -> & (L1 & L2 & L3 & L4) & Hg
            & (U1 & U2 & U3) & Hs).
    rewrite !forallb_app, !andb_true_iff in Hg.
    rewrite !forallb_app, !andb_true_iff in Hs.
    destruct Hg as (Hg1 & Hg2 & Hg3 & Hg4). destruct Hs as (Hs1 & Hs2 & Hs3).
    exists g1, (s1 ++ g2 ++ s2 ++ g3 ++ s3 ++ g4).
    repeat (split; [first [reflexivity | assumption | lia]|]).
    exists s1, (g2 ++ s2 ++ g3 ++ s3 ++ g4).
    repeat (split; [first [reflexivity | assumption | lia]|]).
    exists g2, (s2 ++ g3 ++ s3 ++ g4).
    repeat (split; [first [reflexivity | assumption | lia]|]).
    exists s2, (g3 ++ s3 ++ g4).
    repeat (split; [first [reflexivity | assumption | lia]|]).
    exists g3, (s3 ++ g4).
    repeat (split; [first [reflexivity | assumption | lia]|]).
    exists s3, g4.
    repeat (split; [first [reflexivity | assumption | lia]|]).
    exists g4, [].
    repeat (split; [first [reflexivity | assumption | lia
                          | now rewrite app_nil_r]|]).
    reflexivity.
Qed.

(** The texts the telephone pattern accepts between its word boundaries:
    groups of three, three and four digits, with at most one dash or space
    between two groups. *)
Lemma phone_shape (u : text) :
  body_accepts PHONE_BODY u
  <-> exists g1 s1 g2 s2 g3,
        u = g1 ++ s1 ++ g2 ++ s2 ++ g3
        /\ (length g1 = 3 /\ length g2 = 3 /\ length g3 = 4)
        /\ forallb is_digit (g1 ++ g2 ++ g3) = true
        /\ (length s1 <= 1 /\ length s2 <= 1)
        /\ forallb dash_or_space (s1 ++ s2) = true.
Proof.
  unfold PHONE_BODY, times, opt. cbn [body_accepts within]. split.
  - intros (g1 & r1 & -> & Hg1 & L1 & U1 & s1 & r2 & -> & Hs1 & _ & Us1
            & g2 & r3 & -> & Hg2 & L2 & U2 & s2 & r4 & -> & Hs2 & _ & Us2
            & g3 & r5 & -> & Hg3 & L3 & U3 & ->).
    exists g1, s1, g2, s2, g3. rewrite app_nil_r.
    rewrite !forallb_app, Hg1, Hg2, Hg3, Hs1, Hs2.
    repeat split; try reflexivity; lia.
  - intros (g1 & s1 & g2 & s2 & g3 & -> & (L1 & L2 & L3) & Hg & (U1 & U2)
            & Hs).
    rewrite !forallb_app, !andb_true_iff in Hg.
    rewrite !forallb_app, !andb_true_iff in Hs.
    destruct Hg as (Hg1 & Hg2 & Hg3). destruct Hs as (Hs1 & Hs2).
    exists g1, (s1 ++ g2 ++ s2 ++ g3).
    repeat (split; [first [reflexivity | assumption | lia]|]).
    exists s1, (g2 ++ s2 ++ g3).
    repeat (split; [first [reflexivity | assumption | lia]|]).
    exists g2, (s2 ++ g3).
    repeat (split; [first [reflexivity | assumption | lia]|]).
    exists s2, g3.
    repeat (split; [first [reflexivity | assumption | lia]|]).
    exists g3, [].
    repeat (split; [first [reflexivity | assumption | lia
                          | now rewrite app_nil_r]|]).
    reflexivity.
Qed.

(** The texts the address pattern accepts between its word boundaries: a
    local part, an at sign, a domain, a dot and at least two letters. *)
Lemma email_shape (u : text) :
  body_accepts EMAIL_BODY u
  <-> exists local domain tld,
        u = local ++ lit "@" ++ domain ++ lit "." ++ tld
        /\ 1 <= length local /\ forallb email_local local = true
        /\ 1 <= length domain /\ forallb email_domain domain = true
        /\ 2 <= length tld /\ forallb email_tld tld = true.
Proof.
  unfold EMAIL_BODY, many1, one, at_least. cbn [body_accepts within]. split.
  - intros (l & r1 & -> & Hl & Ll & _ & a & r2 & -> & Ha & La & Ua
            & d & r3 & -> & Hd & Ld & _ & o & r4 & -> & Ho & Lo & Uo
            & t & r5 & -> & Ht & Lt & _ & ->).
    destruct a as [|a [|a' a'']]; cbn [length] in La, Ua; try lia.
    destruct o as [|o [|o' o'']]; cbn [length] in Lo, Uo; try lia.
    cbn [forallb] in Ha, Ho. rewrite andb_true_r in Ha, Ho.
    unfold exactly in Ha, Ho. apply Ascii.eqb_eq in Ha, Ho. subst a o.
    exists l, d, t. rewrite app_nil_r. now repeat split.
  - intros (l & d & t & -> & Ll & Hl & Ld & Hd & Lt & Ht).
    exists l, (lit "@" ++ d ++ lit "." ++ t).
    repeat (split; [first [reflexivity | assumption | exact I]|]).
    exists (lit "@"), (d ++ lit "." ++ t).
    repeat (split; [first [reflexivity | assumption | exact I | cbn; lia]|]).
    exists d, (lit "." ++ t).
    repeat (split; [first [reflexivity | assumption | exact I]|]).
    exists (lit "."), t.
    repeat (split; [first [reflexivity | assumption | exact I | cbn; lia]|]).
    exists t, [].
    repeat (split; [first [reflexivity | assumption | exact I
                          | now rewrite app_nil_r]|]).
    reflexivity.
Qed.

Lemma is_digit_spec (c : ascii) : is_digit c = true <-> 48 <= code c <= 57.
Proof.
  unfold is_digit, between. now rewrite andb_true_iff, !Nat.leb_le.
Qed.

Lemma dash_or_space_spec (c : ascii) :
  dash_or_space c = true <-> c = "-"%char \/ c = " "%char.
Proof.
  unfold dash_or_space, in_set. cbn [existsb in_atom].
  now rewrite orb_false_r, orb_true_iff, !Ascii.eqb_eq.
Qed.

Lemma token_char_spec (c : ascii) :
  token_char c = true
  <-> 65 <= code c <= 90 \/ 97 <= code c <= 122 \/ 48 <= code c <= 57
      \/ c = "+"%char \/ c = "/"%char.
Proof.
  unfold token_char, in_set. cbn [existsb in_atom]. unfold between.
  change (code "A") with 65. change (code "Z") with 90.
  change (code "a") with 97. change (code "z") with 122.
  change (code "0") with 48. change (code "9") with 57.
  rewrite orb_false_r, !orb_true_iff, !andb_true_iff, !Nat.leb_le,
    !Ascii.eqb_eq.
  tauto.
Qed.

Lemma masks_distinct : NoDup [EMAIL_MASK; CARD_MASK; PHONE_MASK; TOKEN_MASK].
Proof.
  repeat constructor; cbn [In]; intros H;
    repeat (destruct H as [H|H]; [discriminate|]); exact H.
Qed.

(** C5, as the code has it: the redactor is the composition of four
    substitutions, in the order e-mail address, card number, telephone
    number, long token.  Each stage replaces occurrences of its pattern
    [\b body \b] by its mask and keeps every other character, and leaves no
    occurrence of its pattern behind; the four masks are pairwise distinct.
    An occurrence of the last pattern is a run of at least 20 characters of
    [A-Za-z0-9+/] with a word boundary before it and after it.  Between its
    word boundaries a card number is four groups of four digits and a
    telephone number groups of three, three and four digits, with at most
    one dash or space between two groups, and an address is a local part,
    an at sign, a domain, a dot and at least two letters. *)
Theorem redact_is_four_substitutions (t : text) :
  _redact_sensitive_data t
  = re_sub TOKEN_RE TOKEN_MASK
      (re_sub PHONE_RE PHONE_MASK
         (re_sub CARD_RE CARD_MASK (re_sub EMAIL_RE EMAIL_MASK t)))
  /\ (forall x,
        replaced EMAIL_BODY EMAIL_MASK None x (re_sub EMAIL_RE EMAIL_MASK x)
        /\ ~ matches_somewhere EMAIL_RE (re_sub EMAIL_RE EMAIL_MASK x))
  /\ (forall x,
        replaced CARD_BODY CARD_MASK None x (re_sub CARD_RE CARD_MASK x)
        /\ ~ matches_somewhere CARD_RE (re_sub CARD_RE CARD_MASK x))
  /\ (forall x,
        replaced PHONE_BODY PHONE_MASK None x (re_sub PHONE_RE PHONE_MASK x)
        /\ ~ matches_somewhere PHONE_RE (re_sub PHONE_RE PHONE_MASK x))
  /\ (forall x,
        replaced TOKEN_BODY TOKEN_MASK None x (re_sub TOKEN_RE TOKEN_MASK x)
        /\ ~ matches_somewhere TOKEN_RE (re_sub TOKEN_RE TOKEN_MASK x))
  /\ NoDup [EMAIL_MASK; CARD_MASK; PHONE_MASK; TOKEN_MASK]
  /\ (forall prev u rest,
        Occurrence TOKEN_BODY prev u rest
        <-> at_boundary prev (u ++ rest) = true
            /\ 20 <= length u /\ forallb token_char u = true
            /\ at_boundary (prev_after prev u) rest = true)
  /\ (forall body prev s,
        In body [EMAIL_BODY; CARD_BODY; PHONE_BODY; TOKEN_BODY] ->
        (exists n, match_alt (bounded body) prev s = Some n)
        <-> (exists u rest, s = u ++ rest /\ Occurrence body prev u rest))
  /\ (forall u,
        body_accepts CARD_BODY u
        <-> exists g1 s1 g2 s2 g3 s3 g4,
              u = g1 ++ s1 ++ g2 ++ s2 ++ g3 ++ s3 ++ g4
              /\ (length g1 = 4 /\ length g2 = 4 /\ length g3 = 4
                  /\ length g4 = 4)
              /\ forallb is_digit (g1 ++ g2 ++ g3 ++ g4) = true
              /\ (length s1 <= 1 /\ length s2 <= 1 /\ length s3 <= 1)
              /\ forallb dash_or_space (s1 ++ s2 ++ s3) = true)
  /\ (forall u,
        body_accepts PHONE_BODY u
        <-> exists g1 s1 g2 s2 g3,
              u = g1 ++ s1 ++ g2 ++ s2 ++ g3
              /\ (length g1 = 3 /\ length g2 = 3 /\ length g3 = 4)
              /\ forallb is_digit (g1 ++ g2 ++ g3) = true
              /\ (length s1 <= 1 /\ length s2 <= 1)
              /\ forallb dash_or_space (s1 ++ s2) = true)
  /\ (forall u,
        body_accepts EMAIL_BODY u
        <-> exists local domain tld,
              u = local ++ lit "@" ++ domain ++ lit "." ++ tld
              /\ 1 <= length local /\ forallb email_local local = true
              /\ 1 <= length domain /\ forallb email_domain domain = true
              /\ 2 <= length tld /\ forallb email_tld tld = true)
  /\ (forall c,
        (is_digit c = true <-> 48 <= code c <= 57)
        /\ (dash_or_space c = true <-> c = "-"%char \/ c = " "%char)
        /\ (token_char c = true
            <-> 65 <= code c <= 90 \/ 97 <= code c <= 122
                \/ 48 <= code c <= 57 \/ c = "+"%char \/ c = "/"%char)).
Proof.
  split; [reflexivity|].
  split; [|split; [|split; [|split; [|split; [|split; [|split]]]]]].
  - intros x. split; [apply re_sub_replaced; apply email_plain|].
    intros H. apply re_search_spec in H.
    pose proof (sub_clears _ _ email_plain email_inert_email x
                : re_search EMAIL_RE (re_sub EMAIL_RE EMAIL_MASK x) = false) as Hc.
    congruence.
  - intros x. split; [apply re_sub_replaced; apply card_plain|].
    intros H. apply re_search_spec in H.
    pose proof (sub_clears _ _ card_plain card_inert_card x
                : re_search CARD_RE (re_sub CARD_RE CARD_MASK x) = false) as Hc.
    congruence.
  - intros x. split; [apply re_sub_replaced; apply phone_plain|].
    intros H. apply re_search_spec in H.
    pose proof (sub_clears _ _ phone_plain phone_inert_phone x
                : re_search PHONE_RE (re_sub PHONE_RE PHONE_MASK x) = false) as Hc.
    congruence.
  - intros x. split; [apply re_sub_replaced; apply token_plain|].
    intros H. apply re_search_spec in H.
    pose proof (sub_clears _ _ token_plain token_inert_token x
                : re_search TOKEN_RE (re_sub TOKEN_RE TOKEN_MASK x) = false) as Hc.
    congruence.
  - exact masks_distinct.
  - exact token_occurrence.
  - intros body prev s Hin. apply bounded_match_iff.
    cbn [In] in Hin.
    repeat (destruct Hin as [<-|Hin]; [reflexivity|]). destruct Hin.
  - split; [exact card_shape|]. split; [exact phone_shape|].
    split; [exact email_shape|]. intros c.
    split; [apply is_digit_spec|].
    split; [apply dash_or_space_spec|apply token_char_spec].
Qed.

(** C5, as the claim has it, fails: a run of twenty '+' characters is a run
    of at least 20 characters of [A-Za-z0-9+/] and is not replaced, and
    neither is the run of 26 letters that follows an underscore. *)
Lemma redact_keeps_undelimited_runs :
  (forallb token_char twenty_plus = true
   /\ length twenty_plus = 20
   /\ _redact_sensitive_data twenty_plus = twenty_plus)
  /\ (forallb token_char (skipn 4 underscore_key) = true
      /\ length (skipn 4 underscore_key) = 26
      /\ _redact_sensitive_data underscore_key = underscore_key).
Proof. repeat split. Qed.

(** A run that starts without a word boundary can still hold a token: after
    four '+' characters, twenty letters are replaced. *)
Example redact_inside_a_longer_run :
  _redact_sensitive_data (lit "++++ABCDEFGHIJKLMNOPQRST")
  = lit "++++****[REDACTED]****".
Proof. vm_compute. reflexivity. Qed.

(* ================================================================== *)
(** * Runs on the inputs of the repository's tests *)
(* ================================================================== *)

Example tls_config_one_finding :
  map rule_id (fst (scan_config unreadable_world some_path tls_config_yml 0))
  = [lit "disabled_tls"].
Proof. vm_compute. reflexivity. Qed.

Example privacy_policy_gaps :
  map control_id
    (fst (scan_document unreadable_world some_path privacy_policy_md 0))
  = [lit "Article 5"; lit "Article 12"; lit "Article 35"; lit "Article 33";
     lit "A.9"; lit "A.16"; lit "A.10"; lit "CC 6.1"; lit "CC 6.7";
     lit "CC 7.1"].
Proof. vm_compute. reflexivity. Qed.

Example sample_evidence_redacted :
  _redact_sensitive_data sample_evidence
  = lit "mail ****@****.*** card ****-****-****-**** tel ***-***-**** key ****[REDACTED]****".
Proof. vm_compute. reflexivity. Qed.

Example sample_findings_processed :
  map rule_id
    (sort_by severity_rank (_deduplicate_findings sample_findings))
  = [lit "aws_key"; lit "api_key"; lit "email"; lit "phone"].
Proof. vm_compute. reflexivity. Qed.

Example evidence_window_clamped :
  _extract_evidence (lit "ab" ++ [newline] ++ lit "cd" ++ [newline]
                     ++ lit "ef" ++ [newline] ++ lit "gh") 1 2
  = lit "ab" ++ [newline] ++ lit "cd" ++ [newline] ++ lit "ef".
Proof. vm_compute. reflexivity. Qed.

Example sample_rule_finding :
  map (fun f => (line_range f, evidence_snippet f))
    (fst (scan_file unreadable_world [sample_rule] some_path
            (lit "ab" ++ [newline] ++ lit "k=AKIA1234567890ABCDEFGH"
             ++ [newline] ++ lit "cd") 0))
  = [(lit "2-2",
      lit "ab" ++ [newline] ++ lit "k=****[REDACTED]****" ++ [newline]
      ++ lit "cd")].
Proof. vm_compute. reflexivity. Qed.

(* ================================================================== *)
(** * Wildcard pairs on one line *)
(* ================================================================== *)

Lemma accepts_literal (s : text) (r : list item) :
  forall prev u rest,
    accepts r (prev_after prev s) u rest ->
    accepts (literal s ++ r) prev (s ++ u) rest.
Proof.
  induction s as [|x s IH]; intros prev u rest H; [exact H|].
  cbn [literal map app accepts one].
  exists [x], (s ++ u).
  split; [reflexivity|].
  split; [cbn; unfold exactly; now rewrite Ascii.eqb_refl|].
  split; [cbn; lia|]. split; [cbn; lia|].
  apply IH. now rewrite prev_after_cons in H.
Qed.

Lemma accepts_rep (cls : ascii -> bool) (lo : nat) (hi : option nat)
  (r : list item) (prev : option ascii) (u1 u2 rest : text) :
  forallb cls u1 = true -> lo <= length u1 -> within hi (length u1) ->
  accepts r (prev_after prev u1) u2 rest ->
  accepts (Rep cls lo hi :: r) prev (u1 ++ u2) rest.
Proof. intros. cbn [accepts]. now exists u1, u2. Qed.

Lemma accepts_wildcard_pair (name : string) (r : list item)
  (prev : option ascii) (u rest : text) :
  accepts r (Some dquote) u rest ->
  accepts (wildcard_pair name ++ r) prev
    (quoted (lit name) ++ lit ": " ++ quoted (lit "*") ++ u) rest.
Proof.
  intros H. unfold wildcard_pair. rewrite <- !app_assoc.
  apply accepts_literal. cbn [app].
  apply (accepts_rep is_space 0 None _ _ [] (lit ": " ++ _));
    [reflexivity|cbn; lia|exact I|].
  apply (accepts_rep (exactly ":") 1 (Some 1) _ _ [":"%char]
           (lit " " ++ _)); [reflexivity|cbn; lia|cbn; lia|].
  apply (accepts_rep is_space 0 None _ _ [" "%char]);
    [reflexivity|cbn; lia|exact I|].
  apply accepts_literal. exact H.
Qed.

(** When the two pairs stand on one line, in either order, the detector
    reports the finding: exactly one, critical, SOC 2, CC 6.2. *)
Lemma broad_iam_found_on_one_line (w : World) (p : Path) (st : nat)
  (a mid c : text) :
  forallb dot mid = true ->
  (broad_iam_check (a ++ action_wildcard ++ mid ++ resource_wildcard ++ c)
   = true
   /\ broad_iam_check (a ++ resource_wildcard ++ mid ++ action_wildcard ++ c)
      = true)
  /\ forall content,
      broad_iam_check content = true ->
      exists f,
        filter (has_rule_id (lit "broad_iam"))
          (fst (scan_config w p content st)) = [f]
        /\ severity f = CRITICAL /\ framework f = SOC2
        /\ control_id f = lit "CC 6.2".
Proof.
  intros Hmid. split; [split|].
  - unfold broad_iam_check. apply orb_true_iff. left.
    apply re_search_spec.
    assert (Hacc : accepts
                     (wildcard_pair "Action" ++ [many dot]
                      ++ wildcard_pair "Resource" ++ [])
                     (prev_after None a)
                     (action_wildcard ++ mid ++ resource_wildcard) c).
    { unfold action_wildcard, resource_wildcard. rewrite <- !app_assoc.
      apply accepts_wildcard_pair. cbn [app].
      apply (accepts_rep dot 0 None); [exact Hmid|lia|exact I|].
      rewrite <- (app_nil_r (quoted (lit "*"))).
      apply accepts_wildcard_pair. reflexivity. }
    apply match_seq_complete in Hacc. rewrite app_nil_r in Hacc.
    destruct (match_seq _ _ _) as [n|] eqn:E; [|congruence].
    exists a, ((action_wildcard ++ mid ++ resource_wildcard) ++ c), n.
    split; [now rewrite <- !app_assoc|].
    unfold ACTION_RESOURCE_RE. cbn [match_alt]. now rewrite E.
  - unfold broad_iam_check. apply orb_true_iff. right.
    apply re_search_spec.
    assert (Hacc : accepts
                     (wildcard_pair "Resource" ++ [many dot]
                      ++ wildcard_pair "Action" ++ [])
                     (prev_after None a)
                     (resource_wildcard ++ mid ++ action_wildcard) c).
    { unfold action_wildcard, resource_wildcard. rewrite <- !app_assoc.
      apply accepts_wildcard_pair. cbn [app].
      apply (accepts_rep dot 0 None); [exact Hmid|lia|exact I|].
      rewrite <- (app_nil_r (quoted (lit "*"))).
      apply accepts_wildcard_pair. reflexivity. }
    apply match_seq_complete in Hacc. rewrite app_nil_r in Hacc.
    destruct (match_seq _ _ _) as [n|] eqn:E; [|congruence].
    exists a, ((resource_wildcard ++ mid ++ action_wildcard) ++ c), n.
    split; [now rewrite <- !app_assoc|].
    unfold RESOURCE_ACTION_RE. cbn [match_alt]. now rewrite E.
  - intros content Hc. rewrite scan_config_checks. unfold config_checks.
    rewrite Hc.
    destruct (disabled_tls_check content), (public_storage_check content),
      (weak_cipher_check content);
      (eexists; split; [reflexivity|repeat split]).
Qed.

(* ================================================================== *)
(** * Luhn check *)
(* ================================================================== *)

Example luhn_valid_visa : luhn_check (lit "4532015112830366") = Some true.
Proof. vm_compute. reflexivity. Qed.
Example luhn_valid_mastercard : luhn_check (lit "5555555555554444") = Some true.
Proof. vm_compute. reflexivity. Qed.
Example luhn_wrong_check_digit : luhn_check (lit "4532015112830367") = Some false.
Proof. vm_compute. reflexivity. Qed.
Example luhn_invalid_sequence : luhn_check (lit "1234567890123456") = Some false.
Proof. vm_compute. reflexivity. Qed.
Example luhn_letter_raises : luhn_check (lit "12a") = None.
Proof. vm_compute. reflexivity. Qed.

Lemma every_other_cons {A} (x : A) (l : list A) :
  every_other (x :: l) = x :: every_other (tl l).
Proof. now destruct l. Qed.

Lemma luhn_sum_every_other (l : list nat) :
  list_sum (every_other l) + list_sum (map luhn_double (every_other (tl l)))
  = luhn_sum false l
  /\ list_sum (map luhn_double (every_other l)) + list_sum (every_other (tl l))
     = luhn_sum true l.
Proof.
  induction l as [|x l [IH1 IH2]]; [now split|].
  rewrite every_other_cons. cbn [tl map luhn_sum negb].
  unfold list_sum in *. cbn [fold_right]. split; lia.
Qed.

Lemma fold_left_checksum (l : list nat) :
  forall init,
    fold_left (fun checksum d => checksum + list_sum (digits_of_nat (d * 2)))
      l init
    = init + list_sum (map luhn_double l).
Proof.
  induction l as [|d l IH]; intros init; cbn [fold_left map].
  - cbn. lia.
  - rewrite IH. unfold luhn_double, list_sum. cbn [fold_right]. lia.
Qed.

Lemma remove_separators (s : text) :
  remove_char "-" (remove_char " " s) = without_separators s.
Proof.
  unfold remove_char, without_separators, is_separator.
  rewrite filter_filter. apply filter_ext. intros c.
  now rewrite negb_orb.
Qed.

Lemma luhn_check_checksum (s : text) :
  luhn_check s
  = option_map (fun ds => luhn_sum false (rev ds) mod 10 =? 0)
      (digits_of_text (without_separators s)).
Proof.
  unfold luhn_check. rewrite remove_separators.
  destruct (digits_of_text (without_separators s)) as [ds|]; [|reflexivity].
  cbn [option_map]. rewrite fold_left_checksum.
  now rewrite (proj1 (luhn_sum_every_other (rev ds))).
Qed.

Lemma digits_of_text_digits (s : text) :
  forallb is_digit s = true ->
  digits_of_text s = Some (map digit_value s).
Proof.
  induction s as [|c s IH]; [reflexivity|].
  cbn [forallb digits_of_text map]. intros H.
  apply andb_true_iff in H. destruct H as [Hc Hs].
  unfold int_of_char. rewrite Hc, (IH Hs). reflexivity.
Qed.

Lemma digits_of_text_raises (s : text) :
  forallb is_digit s = false -> digits_of_text s = None.
Proof.
  induction s as [|c s IH]; [discriminate|].
  cbn [forallb digits_of_text]. unfold int_of_char.
  destruct (is_digit c); cbn [andb]; [|reflexivity].
  intros H. now rewrite (IH H).
Qed.

Lemma forallb_without_separators (s : text) :
  forallb is_digit (without_separators s)
  = forallb (fun c => is_digit c || is_separator c) s.
Proof.
  induction s as [|c s IH]; [reflexivity|].
  unfold without_separators in *. cbn [filter forallb].
  destruct (is_separator c); cbn [negb forallb]; rewrite IH.
  - now rewrite orb_true_r.
  - now rewrite orb_false_r.
Qed.

Lemma luhn_check_result_text (s : text) (b : bool) :
  luhn_check s = Some b ->
  forallb (fun c => is_digit c || is_separator c) s = true.
Proof.
  rewrite luhn_check_checksum, <- forallb_without_separators.
  destruct (forallb is_digit (without_separators s)) eqn:E; [reflexivity|].
  rewrite (digits_of_text_raises _ E). discriminate.
Qed.

Lemma luhn_check_some_iff (s : text) :
  (exists b, luhn_check s = Some b)
  <-> forallb (fun c => is_digit c || is_separator c) s = true.
Proof.
  rewrite luhn_check_checksum, <- forallb_without_separators.
  destruct (forallb is_digit (without_separators s)) eqn:E.
  - rewrite (digits_of_text_digits _ E). cbn [option_map].
    split; [reflexivity|eauto].
  - rewrite (digits_of_text_raises _ E). cbn [option_map].
    split; [intros [b H]|]; discriminate.
Qed.

Lemma digit_or_separator_spec (c : ascii) :
  is_digit c || is_separator c = true
  <-> 48 <= code c <= 57 \/ c = " "%char \/ c = "-"%char.
Proof.
  unfold is_separator.
  now rewrite !orb_true_iff, is_digit_spec, !Ascii.eqb_eq.
Qed.

Lemma forallb_false_exists {A} (f : A -> bool) (l : list A) :
  forallb f l = false <-> exists x, In x l /\ f x = false.
Proof.
  induction l as [|a l IH]; cbn [forallb In].
  - split; [discriminate|now intros (x & [] & _)].
  - rewrite andb_false_iff, IH. split.
    + intros [H|(x & Hx & H)]; [exists a|exists x]; tauto.
    + intros (x & [->|Hx] & H); [now left|right; now exists x].
Qed.

(** X1: on text of code points below 256, [luhn_check] returns a result
    exactly for the texts made of the digits '0' to '9', spaces and dashes;
    for a text with any other character below code point 256 the conversion
    of that character raises. *)
Theorem luhn_check_defined (s : text) :
  ((exists b, luhn_check s = Some b)
   <-> Forall (fun c => 48 <= code c <= 57 \/ c = " "%char \/ c = "-"%char) s)
  /\ (luhn_check s = None
      <-> exists c, In c s /\ ~ (48 <= code c <= 57) /\ c <> " "%char
                    /\ c <> "-"%char).
Proof.
  pose proof (luhn_check_some_iff s) as Hsome.
  split.
  - rewrite Hsome, forallb_forall, Forall_forall.
    split; intros H c Hc; apply digit_or_separator_spec; now apply H.
  - destruct (forallb (fun c => is_digit c || is_separator c) s) eqn:E.
    + destruct (proj2 Hsome eq_refl) as [b Hb]. rewrite Hb. split;
        [discriminate|].
      intros (c & Hc & Hd & Hsp & Hda). rewrite forallb_forall in E.
      apply E, digit_or_separator_spec in Hc. tauto.
    + split.
      * intros _. apply forallb_false_exists in E.
        destruct E as (c & Hc & Hf). exists c. split; [exact Hc|].
        assert (Hn : ~ (48 <= code c <= 57 \/ c = " "%char \/ c = "-"%char)).
        { intros H. apply digit_or_separator_spec in H. congruence. }
        tauto.
      * intros _. destruct (luhn_check s) as [b|] eqn:Eb; [|reflexivity].
        assert (H : false = true) by (apply Hsome; eauto). discriminate.
Qed.

Lemma without_separators_app (a b : text) :
  without_separators (a ++ b) = without_separators a ++ without_separators b.
Proof. apply filter_app. Qed.

Lemma without_separators_only (s : text) :
  forallb is_separator s = true -> without_separators s = [].
Proof.
  induction s as [|c s IH]; [reflexivity|].
  cbn [forallb]. intros H. apply andb_true_iff in H. destruct H as [Hc Hs].
  unfold without_separators in *. cbn [filter]. rewrite Hc. cbn [negb].
  now apply IH.
Qed.

(** X2: spaces and dashes are ignored wherever they stand in the number,
    and a text with nothing else (the empty text included) passes the
    check. *)
Theorem luhn_check_separators :
  (forall a b, luhn_check (a ++ " "%char :: b) = luhn_check (a ++ b))
  /\ (forall a b, luhn_check (a ++ "-"%char :: b) = luhn_check (a ++ b))
  /\ (forall s, forallb is_separator s = true -> luhn_check s = Some true).
Proof.
  split; [|split].
  - intros a b. rewrite !luhn_check_checksum, !without_separators_app.
    reflexivity.
  - intros a b. rewrite !luhn_check_checksum, !without_separators_app.
    reflexivity.
  - intros s H. rewrite luhn_check_checksum, (without_separators_only _ H).
    reflexivity.
Qed.

Lemma digit_not_separator (c : ascii) :
  is_digit c = true -> is_separator c = false.
Proof.
  intros H. unfold is_separator.
  destruct (Ascii.eqb_spec c " ") as [->|_]; [discriminate|].
  destruct (Ascii.eqb_spec c "-") as [->|_]; [discriminate|reflexivity].
Qed.

Lemma digit_value_le (c : ascii) : is_digit c = true -> digit_value c <= 9.
Proof.
  unfold is_digit, between, digit_value. intros H.
  apply andb_true_iff in H. destruct H as [_ H]. apply Nat.leb_le in H. lia.
Qed.

Lemma digit_value_inj (c c' : ascii) :
  is_digit c = true -> is_digit c' = true ->
  digit_value c = digit_value c' -> c = c'.
Proof.
  unfold is_digit, between, digit_value, code. intros H H' E.
  apply andb_true_iff in H, H'. destruct H as [H _], H' as [H' _].
  apply Nat.leb_le in H, H'.
  rewrite <- (ascii_nat_embedding c), <- (ascii_nat_embedding c').
  f_equal. lia.
Qed.

Lemma luhn_double_value (d : nat) :
  d <= 9 -> luhn_double d = if d <=? 4 then 2 * d else 2 * d - 9.
Proof.
  intros H. do 10 (destruct d as [|d]; [reflexivity|]). lia.
Qed.

Lemma luhn_sum_app (l1 l2 : list nat) :
  forall p,
    luhn_sum p (l1 ++ l2)
    = luhn_sum p l1 + luhn_sum (if Nat.even (length l1) then p else negb p) l2.
Proof.
  induction l1 as [|x l1 IH]; intros p; [reflexivity|].
  cbn [app luhn_sum length]. rewrite IH, Nat.even_succ, <- Nat.negb_even.
  destruct (Nat.even (length l1)); cbn [negb]; rewrite ?negb_involutive; lia.
Qed.

(** The checksum of a number, with the share of one digit apart. *)
Lemma luhn_sum_digit (da db : list nat) (d : nat) :
  luhn_sum false (rev (da ++ d :: db))
  = luhn_sum false (rev db)
    + ((if Nat.even (length db) then d else luhn_double d)
       + luhn_sum (Nat.even (length db)) (rev da)).
Proof.
  rewrite rev_app_distr. cbn [rev]. rewrite <- app_assoc. cbn [app].
  rewrite luhn_sum_app, length_rev.
  destruct (Nat.even (length db)); reflexivity.
Qed.

Lemma without_separators_digits (s : text) :
  forallb is_digit s = true -> without_separators s = s.
Proof.
  induction s as [|c s IH]; [reflexivity|].
  cbn [forallb]. intros H. apply andb_true_iff in H. destruct H as [Hc Hs].
  unfold without_separators in *. cbn [filter].
  rewrite (digit_not_separator _ Hc). cbn [negb]. now rewrite IH.
Qed.

Lemma without_separators_at_digit (a b : text) (c : ascii) :
  is_digit c = true ->
  without_separators (a ++ c :: b)
  = without_separators a ++ c :: without_separators b.
Proof.
  intros Hc. rewrite without_separators_app. f_equal.
  unfold without_separators. cbn [filter].
  now rewrite (digit_not_separator _ Hc).
Qed.

(** The checksum of the text [a ++ c :: b] when it passes or fails. *)
Lemma luhn_check_at_digit (a b : text) (c : ascii) (r : bool) :
  is_digit c = true ->
  luhn_check (a ++ c :: b) = Some r ->
  forall c', is_digit c' = true ->
    luhn_check (a ++ c' :: b)
    = Some (luhn_sum false
              (rev (map digit_value (without_separators a)
                    ++ digit_value c' :: map digit_value (without_separators b)))
            mod 10 =? 0).
Proof.
  intros Hc H c' Hc'.
  assert (Hdef : forallb is_digit (without_separators (a ++ c :: b)) = true).
  { destruct (forallb is_digit (without_separators (a ++ c :: b))) eqn:E;
      [reflexivity|].
    rewrite luhn_check_checksum, (digits_of_text_raises _ E) in H.
    discriminate. }
  rewrite (without_separators_at_digit _ _ _ Hc), forallb_app in Hdef.
  cbn [forallb] in Hdef.
  apply andb_true_iff in Hdef. destruct Hdef as [Ha Hb].
  apply andb_true_iff in Hb. destruct Hb as [_ Hb].
  rewrite luhn_check_checksum, (without_separators_at_digit _ _ _ Hc').
  rewrite digits_of_text_digits.
  - cbn [option_map]. now rewrite map_app.
  - rewrite forallb_app. cbn [forallb]. now rewrite Ha, Hc', Hb.
Qed.

Lemma luhn_mod_digit (A B d d' : nat) (q : bool) :
  d <= 9 -> d' <= 9 -> d <> d' ->
  (A + ((if q then d else luhn_double d) + B)) mod 10 = 0 ->
  (A + ((if q then d' else luhn_double d') + B)) mod 10 <> 0.
Proof.
  intros Hd Hd' Hne. rewrite !luhn_double_value by assumption.
  intros H H'. apply Nat.Div0.mod_divides in H, H'.
  destruct H as [k H], H' as [k' H'].
  destruct q; [lia|].
  destruct (Nat.leb_spec d 4), (Nat.leb_spec d' 4); lia.
Qed.

(** X3: the check detects every error in a single digit: when a number
    passes, the number with one of its digits replaced by another digit
    fails. *)
Theorem luhn_check_single_digit_error (a b : text) (c c' : ascii) :
  luhn_check (a ++ c :: b) = Some true ->
  is_digit c = true -> is_digit c' = true -> c <> c' ->
  luhn_check (a ++ c' :: b) = Some false.
Proof.
  intros H Hc Hc' Hne.
  pose proof (luhn_check_at_digit a b c true Hc H c Hc) as H1.
  rewrite H in H1. inversion H1 as [H2]. symmetry in H2.
  apply Nat.eqb_eq in H2.
  rewrite (luhn_check_at_digit a b c true Hc H c' Hc'). f_equal.
  apply Nat.eqb_neq.
  rewrite luhn_sum_digit in *.
  apply (luhn_mod_digit _ _ (digit_value c)); try assumption.
  - now apply digit_value_le.
  - now apply digit_value_le.
  - intros E. apply Hne. now apply digit_value_inj.
Qed.

Lemma luhn_check_single_digit_error_witness :
  luhn_check (lit "453201511283036" ++ "7"%char :: []) = Some false.
Proof.
  apply (luhn_check_single_digit_error (lit "453201511283036") [] "6" "7");
    [vm_compute; reflexivity | reflexivity | reflexivity | discriminate].
Defined.

Lemma check_digit_arith (T : nat) :
  (10 - T mod 10) mod 10 <= 9
  /\ ((10 - T mod 10) mod 10 + T) mod 10 = 0
  /\ forall d', d' <= 9 -> (d' + T) mod 10 = 0 -> d' = (10 - T mod 10) mod 10.
Proof.
  pose proof (Nat.mod_upper_bound T 10 ltac:(lia)) as Hr.
  pose proof (Nat.div_mod_eq T 10) as HT.
  remember (T mod 10) as r eqn:Er. remember (T / 10) as k eqn:Ek. clear Er Ek.
  assert (Hd : (10 - r) mod 10 = if r =? 0 then 0 else 10 - r).
  { destruct (Nat.eqb_spec r 0) as [->|Hne]; [reflexivity|].
    apply Nat.mod_small. lia. }
  rewrite Hd. split; [destruct (Nat.eqb_spec r 0); lia|]. split.
  - apply Nat.Div0.mod_divides.
    destruct (Nat.eqb_spec r 0); [exists k|exists (S k)]; lia.
  - intros d' Hd' H. apply Nat.Div0.mod_divides in H. destruct H as [c H].
    destruct (Nat.eqb_spec r 0); lia.
Qed.

(** X4: every digit string has exactly one check digit: one digit that,
    written after it, makes the number pass. *)
Theorem luhn_check_digit_unique (body : text) :
  forallb is_digit body = true ->
  exists c,
    is_digit c = true
    /\ luhn_check (body ++ [c]) = Some true
    /\ forall c', is_digit c' = true ->
                  luhn_check (body ++ [c']) = Some true -> c' = c.
Proof.
  intros Hbody.
  assert (Hsum : forall x, is_digit x = true ->
            luhn_check (body ++ [x])
            = Some ((digit_value x
                     + luhn_sum true (rev (map digit_value body))) mod 10
                    =? 0)).
  { intros x Hx. rewrite luhn_check_checksum, without_separators_digits.
    - rewrite digits_of_text_digits.
      + cbn [option_map]. rewrite map_app. cbn [map].
        rewrite luhn_sum_digit. reflexivity.
      + rewrite forallb_app. cbn [forallb]. now rewrite Hbody, Hx.
    - rewrite forallb_app. cbn [forallb]. now rewrite Hbody, Hx. }
  set (T := luhn_sum true (rev (map digit_value body))) in *.
  destruct (check_digit_arith T) as (Hd & Hzero & Huniq).
  set (d := (10 - T mod 10) mod 10) in *.
  assert (Hcode : code (ascii_of_nat (48 + d)) = 48 + d)
    by (apply nat_ascii_embedding; lia).
  assert (Hc : is_digit (ascii_of_nat (48 + d)) = true).
  { unfold is_digit, between. rewrite Hcode.
    apply andb_true_iff. split; apply Nat.leb_le; lia. }
  assert (Hval : digit_value (ascii_of_nat (48 + d)) = d)
    by (unfold digit_value; rewrite Hcode; lia).
  exists (ascii_of_nat (48 + d)). split; [exact Hc|]. split.
  - rewrite (Hsum _ Hc), Hval. f_equal. now apply Nat.eqb_eq.
  - intros c' Hc' H'. rewrite (Hsum _ Hc') in H'. inversion H' as [H2].
    apply Nat.eqb_eq in H2.
    apply digit_value_inj; [assumption|assumption|].
    rewrite Hval. apply Huniq; [now apply digit_value_le|exact H2].
Qed.

Lemma luhn_check_digit_unique_witness :
  exists c,
    is_digit c = true
    /\ luhn_check (lit "453201511283036" ++ [c]) = Some true
    /\ forall c', is_digit c' = true ->
                  luhn_check (lit "453201511283036" ++ [c']) = Some true ->
                  c' = c.
Proof.
  apply (luhn_check_digit_unique (lit "453201511283036")). reflexivity.
Defined.

Lemma luhn_check_value (s : text) :
  forallb (fun c => is_digit c || is_separator c) s = true ->
  luhn_check s
  = Some (luhn_sum false (rev (map digit_value (without_separators s)))
          mod 10 =? 0).
Proof.
  intros H. rewrite <- forallb_without_separators in H.
  now rewrite luhn_check_checksum, (digits_of_text_digits _ H).
Qed.

(** The checksum of a number, with the share of two neighbouring digits
    apart. *)
Lemma luhn_sum_two_digits (da db : list nat) (x y : nat) :
  luhn_sum false (rev (da ++ x :: y :: db))
  = luhn_sum false (rev db)
    + ((if Nat.even (length db) then y else luhn_double y)
       + ((if Nat.even (length db) then luhn_double x else x)
          + luhn_sum (negb (Nat.even (length db))) (rev da))).
Proof.
  rewrite luhn_sum_digit.
  rewrite (luhn_sum_digit [] db y : luhn_sum false (rev (y :: db)) = _).
  cbn [length rev luhn_sum].
  rewrite Nat.even_succ, <- Nat.negb_even.
  destruct (Nat.even (length db)); cbn [negb]; lia.
Qed.

Lemma luhn_mod_swap (A B x y : nat) (e : bool) :
  x <= 9 -> y <= 9 -> x <> y ->
  ~ (x = 0 /\ y = 9) -> ~ (x = 9 /\ y = 0) ->
  (A + ((if e then y else luhn_double y)
        + ((if e then luhn_double x else x) + B))) mod 10 = 0 ->
  (A + ((if e then x else luhn_double x)
        + ((if e then luhn_double y else y) + B))) mod 10 <> 0.
Proof.
  intros Hx Hy Hne H09 H90. rewrite !luhn_double_value by assumption.
  intros H H'. apply Nat.Div0.mod_divides in H, H'.
  destruct H as [k H], H' as [k' H'].
  destruct e, (Nat.leb_spec x 4), (Nat.leb_spec y 4); lia.
Qed.

(** X5: the check detects the exchange of two neighbouring digits, except
    for the pair 0 and 9: when a number passes, the number with two
    different neighbouring digits exchanged fails, unless the two are 0 and
    9; exchanging a neighbouring 0 and 9 never changes the result. *)
Theorem luhn_check_transposition :
  (forall a b x y,
      luhn_check (a ++ x :: y :: b) = Some true ->
      is_digit x = true -> is_digit y = true -> x <> y ->
      ~ (x = "0"%char /\ y = "9"%char) -> ~ (x = "9"%char /\ y = "0"%char) ->
      luhn_check (a ++ y :: x :: b) = Some false)
  /\ (forall a b,
        luhn_check (a ++ "0"%char :: "9"%char :: b)
        = luhn_check (a ++ "9"%char :: "0"%char :: b)).
Proof.
  assert (Hws : forall a b x y,
            is_digit x = true -> is_digit y = true ->
            map digit_value (without_separators (a ++ x :: y :: b))
            = map digit_value (without_separators a)
              ++ digit_value x :: digit_value y
                 :: map digit_value (without_separators b)).
  { intros a b x y Hx Hy.
    rewrite (without_separators_at_digit a (y :: b) x Hx).
    rewrite (without_separators_at_digit [] b y Hy
             : without_separators (y :: b) = _).
    now rewrite map_app. }
  assert (Hdef : forall a b x y,
            forallb (fun c => is_digit c || is_separator c) (a ++ x :: y :: b)
            = forallb (fun c => is_digit c || is_separator c)
                (a ++ y :: x :: b)).
  { intros a b x y. rewrite !forallb_app. cbn [forallb]. f_equal.
    destruct (is_digit x || is_separator x), (is_digit y || is_separator y);
      reflexivity. }
  split.
  - intros a b x y H Hx Hy Hne H09 H90.
    assert (Hok : forallb (fun c => is_digit c || is_separator c)
                    (a ++ x :: y :: b) = true)
      by (now apply (luhn_check_result_text _ true)).
    rewrite (luhn_check_value _ Hok) in H. inversion H as [H1].
    apply Nat.eqb_eq in H1.
    rewrite luhn_check_value by (now rewrite <- Hdef). f_equal.
    apply Nat.eqb_neq.
    rewrite Hws in * by assumption. rewrite luhn_sum_two_digits in *.
    apply (luhn_mod_swap _ _ (digit_value x) (digit_value y));
      try assumption; try (now apply digit_value_le).
    + intros E. apply Hne. now apply digit_value_inj.
    + intros [E0 E9]. apply H09. split.
      * now apply (digit_value_inj x "0").
      * now apply (digit_value_inj y "9").
    + intros [E9 E0]. apply H90. split.
      * now apply (digit_value_inj x "9").
      * now apply (digit_value_inj y "0").
  - intros a b.
    destruct (forallb (fun c => is_digit c || is_separator c)
                (a ++ "0"%char :: "9"%char :: b)) eqn:E.
    + rewrite (luhn_check_value _ E).
      rewrite (luhn_check_value (a ++ "9"%char :: "0"%char :: b))
        by (rewrite <- Hdef; exact E).
      rewrite !Hws by reflexivity. rewrite !luhn_sum_two_digits.
      destruct (Nat.even (length (map digit_value (without_separators b))));
        reflexivity.
    + rewrite !luhn_check_checksum.
      rewrite 2 digits_of_text_raises; [reflexivity| |];
        rewrite forallb_without_separators; [now rewrite <- Hdef|exact E].
Qed.

(* ================================================================== *)
(** * Summary counts *)
(* ================================================================== *)

Lemma dict_incr_keys (d : dict nat) (k : text) :
  map fst (dict_incr d k) = map fst d.
Proof.
  induction d as [|[k' v] d IH]; [reflexivity|].
  cbn [dict_incr]. destruct (text_eqb k k'); cbn [map fst]; congruence.
Qed.

Lemma dict_get_incr_other (d : dict nat) (k k' : text) (dflt : nat) :
  k <> k' -> dict_get (dict_incr d k) k' dflt = dict_get d k' dflt.
Proof.
  intros Hne. induction d as [|[k0 v] d IH]; [reflexivity|].
  cbn [dict_incr]. destruct (text_eqb k k0) eqn:E; cbn [dict_get].
  - apply text_eqb_eq in E. subst k0.
    destruct (text_eqb k' k) eqn:E'; [|reflexivity].
    apply text_eqb_eq in E'. congruence.
  - now rewrite IH.
Qed.

Lemma dict_get_incr_same (d : dict nat) (k : text) (dflt : nat) :
  In k (map fst d) ->
  dict_get (dict_incr d k) k dflt = S (dict_get d k dflt).
Proof.
  induction d as [|[k0 v] d IH]; [easy|].
  cbn [map fst In dict_incr dict_get]. intros Hin.
  destruct (text_eqb k k0) eqn:E; cbn [dict_get]; rewrite E; [reflexivity|].
  apply IH. destruct Hin as [->|Hin]; [|exact Hin].
  now rewrite text_eqb_refl in E.
Qed.

Lemma dict_count (key : Finding -> text) (fs : list Finding) :
  forall (d : dict nat) (k : text),
    (forall f, In (key f) (map fst d)) ->
    dict_get (fold_left (fun d' f => dict_incr d' (key f)) fs d) k 0
    = dict_get d k 0 + length (filter (fun f => text_eqb (key f) k) fs)
    /\ map fst (fold_left (fun d' f => dict_incr d' (key f)) fs d)
       = map fst d.
Proof.
  induction fs as [|f fs IH]; intros d k Hkeys; cbn [fold_left filter].
  - cbn. split; [lia|reflexivity].
  - destruct (IH (dict_incr d (key f)) k) as [IH1 IH2].
    { intros g. rewrite dict_incr_keys. apply Hkeys. }
    rewrite IH1, IH2, dict_incr_keys. split; [|reflexivity].
    destruct (text_eqb (key f) k) eqn:E.
    + apply text_eqb_eq in E. subst k.
      rewrite dict_get_incr_same by apply Hkeys. cbn [length]. lia.
    + rewrite dict_get_incr_other; [reflexivity|].
      intros Hk. rewrite Hk, text_eqb_refl in E. discriminate.
Qed.

Lemma fold_left_pair {A B C} (f : A -> C -> A) (g : B -> C -> B)
  (l : list C) (a : A) (b : B) :
  fold_left (fun (c : A * B) x => (f (fst c) x, g (snd c) x)) l (a, b)
  = (fold_left f l a, fold_left g l b).
Proof.
  revert a b. induction l as [|x l IH]; intros a b; [reflexivity|].
  cbn [fold_left fst snd]. apply IH.
Qed.

Lemma has_severity_eqb (sev : Severity) (f : Finding) :
  has_severity sev f = severity_eqb (severity f) sev.
Proof. unfold has_severity. now destruct (severity f), sev. Qed.

Lemma has_framework_eqb (fw : Framework) (f : Finding) :
  has_framework fw f = framework_eqb (framework f) fw.
Proof. unfold has_framework. now destruct (framework f), fw. Qed.

Lemma severity_partition (fs : list Finding) :
  length fs
  = length (filter (has_severity CRITICAL) fs)
    + length (filter (has_severity HIGH) fs)
    + length (filter (has_severity MEDIUM) fs)
    + length (filter (has_severity LOW) fs).
Proof.
  induction fs as [|f fs IH]; [reflexivity|].
  cbn [filter]. rewrite !has_severity_eqb.
  destruct (severity f); cbn [severity_eqb length]; lia.
Qed.

Lemma framework_partition (fs : list Finding) :
  length fs
  = length (filter (has_framework ISO27001) fs)
    + length (filter (has_framework SOC2) fs)
    + length (filter (has_framework GDPR) fs).
Proof.
  induction fs as [|f fs IH]; [reflexivity|].
  cbn [filter]. rewrite !has_framework_eqb.
  destruct (framework f); cbn [framework_eqb length]; lia.
Qed.

Lemma summary_dicts (n : nat) (fs : list Finding) (duration : Z) :
  findings_by_severity (_generate_summary n fs duration)
  = fold_left (fun d f => dict_incr d (severity_value (severity f))) fs
      [(lit "critical", 0); (lit "high", 0); (lit "medium", 0); (lit "low", 0)]
  /\ findings_by_framework (_generate_summary n fs duration)
     = fold_left (fun d f => dict_incr d (framework_value (framework f))) fs
         [(lit "iso27001", 0); (lit "soc2", 0); (lit "gdpr", 0)].
Proof.
  unfold _generate_summary.
  rewrite (fold_left_pair
             (fun d f => dict_incr d (severity_value (severity f)))
             (fun d f => dict_incr d (framework_value (framework f)))).
  split; reflexivity.
Qed.

Ltac eval_text_eqb :=
  repeat match goal with
    | H : context [text_eqb ?a ?b] |- _ =>
        let v := eval vm_compute in (text_eqb a b) in
        change (text_eqb a b) with v in H
    end.

Lemma summary_totals (n : nat) (fs : list Finding) (duration : Z) :
  total_files_scanned (_generate_summary n fs duration) = n
  /\ total_findings (_generate_summary n fs duration) = length fs.
Proof.
  unfold _generate_summary.
  destruct (fold_left _ fs _) as [a b]. split; reflexivity.
Qed.

(** X6: the summary counts the findings it is given: [total_findings] is
    their number, the severity dictionary keeps its four keys and holds
    under each the number of findings of that severity, the framework
    dictionary keeps its three keys and holds under each the number of
    findings of that framework; the four severity counts, and the three
    framework counts, add up to [total_findings]. *)
Theorem generate_summary_counts (n : nat) (fs : list Finding) (duration : Z) :
  total_files_scanned (_generate_summary n fs duration) = n
  /\ total_findings (_generate_summary n fs duration) = length fs
  /\ map fst (findings_by_severity (_generate_summary n fs duration))
     = [lit "critical"; lit "high"; lit "medium"; lit "low"]
  /\ map fst (findings_by_framework (_generate_summary n fs duration))
     = [lit "iso27001"; lit "soc2"; lit "gdpr"]
  /\ (forall sev,
        dict_get (findings_by_severity (_generate_summary n fs duration))
          (severity_value sev) 0
        = length (filter (has_severity sev) fs))
  /\ (forall fw,
        dict_get (findings_by_framework (_generate_summary n fs duration))
          (framework_value fw) 0
        = length (filter (has_framework fw) fs))
  /\ list_sum (map snd (findings_by_severity (_generate_summary n fs duration)))
     = length fs
  /\ list_sum (map snd (findings_by_framework (_generate_summary n fs duration)))
     = length fs.
Proof.
  destruct (summary_dicts n fs duration) as [Hs Hf].
  assert (Hsev : forall k,
    dict_get (findings_by_severity (_generate_summary n fs duration)) k 0
    = dict_get [(lit "critical", 0); (lit "high", 0); (lit "medium", 0);
                (lit "low", 0)] k 0
      + length (filter (fun f => text_eqb (severity_value (severity f)) k) fs)
    /\ map fst (findings_by_severity (_generate_summary n fs duration))
       = [lit "critical"; lit "high"; lit "medium"; lit "low"]).
  { intros k. rewrite Hs.
    apply (dict_count (fun f => severity_value (severity f))).
    intros f. destruct (severity f); cbn; tauto. }
  assert (Hfw : forall k,
    dict_get (findings_by_framework (_generate_summary n fs duration)) k 0
    = dict_get [(lit "iso27001", 0); (lit "soc2", 0); (lit "gdpr", 0)] k 0
      + length (filter (fun f => text_eqb (framework_value (framework f)) k) fs)
    /\ map fst (findings_by_framework (_generate_summary n fs duration))
       = [lit "iso27001"; lit "soc2"; lit "gdpr"]).
  { intros k. rewrite Hf.
    apply (dict_count (fun f => framework_value (framework f))).
    intros f. destruct (framework f); cbn; tauto. }
  assert (Hsev' : forall sev,
    dict_get (findings_by_severity (_generate_summary n fs duration))
      (severity_value sev) 0 = length (filter (has_severity sev) fs)).
  { intros sev. rewrite (proj1 (Hsev _)). now destruct sev. }
  assert (Hfw' : forall fw,
    dict_get (findings_by_framework (_generate_summary n fs duration))
      (framework_value fw) 0 = length (filter (has_framework fw) fs)).
  { intros fw. rewrite (proj1 (Hfw _)). now destruct fw. }
  split; [apply summary_totals|]. split; [apply summary_totals|].
  split; [exact (proj2 (Hsev []))|]. split; [exact (proj2 (Hfw []))|].
  split; [exact Hsev'|]. split; [exact Hfw'|]. split.
  - pose proof (proj2 (Hsev [])) as Hk.
    pose proof (Hsev' CRITICAL) as H1. pose proof (Hsev' HIGH) as H2.
    pose proof (Hsev' MEDIUM) as H3. pose proof (Hsev' LOW) as H4.
    destruct (findings_by_severity (_generate_summary n fs duration))
      as [|[k1 v1] [|[k2 v2] [|[k3 v3] [|[k4 v4] [|? ?]]]]];
      try discriminate.
    cbn [map fst] in Hk. inversion Hk; subst.
    cbn [dict_get] in H1, H2, H3, H4. eval_text_eqb.
    rewrite (severity_partition fs). cbn [map snd list_sum fold_right]. lia.
  - pose proof (proj2 (Hfw [])) as Hk.
    pose proof (Hfw' ISO27001) as H1. pose proof (Hfw' SOC2) as H2.
    pose proof (Hfw' GDPR) as H3.
    destruct (findings_by_framework (_generate_summary n fs duration))
      as [|[k1 v1] [|[k2 v2] [|[k3 v3] [|? ?]]]]; try discriminate.
    cbn [map fst] in Hk. inversion Hk; subst.
    cbn [dict_get] in H1, H2, H3. eval_text_eqb.
    rewrite (framework_partition fs). cbn [map snd list_sum fold_right]. lia.
Qed.

(* ================================================================== *)
(** * Recommendations, exit status, top risks *)
(* ================================================================== *)

Lemma filter_nil_iff {A} (p : A -> bool) (l : list A) :
  filter p l = [] <-> forall x, In x l -> p x = false.
Proof.
  induction l as [|a l IH]; cbn [filter In]; [easy|].
  destruct (p a) eqn:E; split.
  - discriminate.
  - intros H. specialize (H a (or_introl eq_refl)). congruence.
  - intros H x [<-|Hx]; [exact E|]. now apply IH.
  - intros H. apply IH. auto.
Qed.

Lemma length_filter_pos {A} (p : A -> bool) (l : list A) :
  0 < length (filter p l) <-> exists x, In x l /\ p x = true.
Proof.
  split.
  - destruct (filter p l) as [|x r] eqn:E; [cbn; lia|]. intros _.
    assert (Hx : In x (filter p l)) by (rewrite E; now left).
    apply filter_In in Hx. eauto.
  - intros (x & Hx & Hp).
    assert (H : In x (filter p l)) by (apply filter_In; now split).
    destruct (filter p l); [easy|cbn; lia].
Qed.

Lemma recommendations_shape (fs : list Finding) :
  _generate_recommendations fs
  = (if 0 <? length (filter (has_severity CRITICAL) fs)
     then [AddressCritical (length (filter (has_severity CRITICAL) fs))]
     else [])
    ++ (if 0 <? length (filter (has_severity HIGH) fs)
        then [ReviewHigh (length (filter (has_severity HIGH) fs))] else [])
    ++ (if 3 <? length (filter mentions_pii fs) then [PiiHandling] else [])
    ++ (if 2 <? length (filter mentions_secret fs)
        then [RotateCredentials] else [])
    ++ (if 2 <? length (filter soc2_top_risk fs)
        then [ReviewConfigurations] else []).
Proof.
  unfold _generate_recommendations.
  change (fun f => text_eqb (severity_value (severity f)) (lit "critical"))
    with (has_severity CRITICAL).
  change (fun f => text_eqb (severity_value (severity f)) (lit "high"))
    with (has_severity HIGH).
  change (fun f => contains (lit "pii") (lower (rule_id f))
                   || contains (lit "personal") (lower (why_it_matters f)))
    with mentions_pii.
  change (fun f => contains (lit "secret") (lower (rule_id f))
                   || contains (lit "api") (lower (rule_id f)))
    with mentions_secret.
  change (fun f => framework_eqb (framework f) SOC2 && is_top_risk f)
    with soc2_top_risk.
  destruct (0 <? length (filter (has_severity CRITICAL) fs)),
    (0 <? length (filter (has_severity HIGH) fs)),
    (3 <? length (filter mentions_pii fs)),
    (2 <? length (filter mentions_secret fs)),
    (2 <? length (filter soc2_top_risk fs)); reflexivity.
Qed.

Lemma soc2_top_needs_headline (fs : list Finding) :
  0 < length (filter soc2_top_risk fs) ->
  0 < length (filter (has_severity CRITICAL) fs)
  \/ 0 < length (filter (has_severity HIGH) fs).
Proof.
  intros H. apply length_filter_pos in H. destruct H as (f & Hf & Hp).
  unfold soc2_top_risk in Hp. apply andb_true_iff in Hp.
  destruct Hp as [_ Hp]. apply is_top_risk_severity in Hp.
  destruct Hp as [Hs|Hs]; [left|right]; apply length_filter_pos; exists f;
    (split; [exact Hf|]); rewrite has_severity_eqb, Hs; reflexivity.
Qed.

Lemma condition_fields (f : Finding) :
  (has_severity CRITICAL f = true <-> severity f = CRITICAL)
  /\ (has_severity HIGH f = true <-> severity f = HIGH)
  /\ (soc2_top_risk f = true
      <-> framework f = SOC2 /\ (severity f = CRITICAL \/ severity f = HIGH)).
Proof.
  rewrite !has_severity_eqb. unfold soc2_top_risk.
  rewrite andb_true_iff, is_top_risk_severity.
  split; [|split].
  - destruct (severity f); cbn; split; intros H; congruence.
  - destruct (severity f); cbn; split; intros H; congruence.
  - destruct (framework f); cbn; split; intros [H1 H2]; split;
      congruence.
Qed.

(** X7: each of the five recommendations is issued exactly when its
    condition holds, so the cap of five never drops one: the critical and
    the high headline when that count is positive (and with that count),
    the PII one for more than 3 findings that mention it, the credentials
    one for more than 2, the configuration one for more than 2 critical or
    high SOC 2 findings.  They come in this order: critical, high, PII,
    credentials, configuration.  The configuration recommendation never
    comes without a headline, and no finding means no recommendation. *)
Theorem generate_recommendations_conditions (fs : list Finding) :
  (forall n, In (AddressCritical n) (_generate_recommendations fs)
             <-> n = length (filter (has_severity CRITICAL) fs) /\ 0 < n)
  /\ (forall n, In (ReviewHigh n) (_generate_recommendations fs)
                <-> n = length (filter (has_severity HIGH) fs) /\ 0 < n)
  /\ (In PiiHandling (_generate_recommendations fs)
      <-> 3 < length (filter mentions_pii fs))
  /\ (In RotateCredentials (_generate_recommendations fs)
      <-> 2 < length (filter mentions_secret fs))
  /\ (In ReviewConfigurations (_generate_recommendations fs)
      <-> 2 < length (filter soc2_top_risk fs))
  /\ (In ReviewConfigurations (_generate_recommendations fs) ->
      exists n, In (AddressCritical n) (_generate_recommendations fs)
                \/ In (ReviewHigh n) (_generate_recommendations fs))
  /\ (fs = [] -> _generate_recommendations fs = [])
  /\ _generate_recommendations fs
     = map snd
         (filter fst
            [ (0 <? length (filter (has_severity CRITICAL) fs),
               AddressCritical (length (filter (has_severity CRITICAL) fs)));
              (0 <? length (filter (has_severity HIGH) fs),
               ReviewHigh (length (filter (has_severity HIGH) fs)));
              (3 <? length (filter mentions_pii fs), PiiHandling);
              (2 <? length (filter mentions_secret fs), RotateCredentials);
              (2 <? length (filter soc2_top_risk fs), ReviewConfigurations) ])
  /\ (forall f,
        (has_severity CRITICAL f = true <-> severity f = CRITICAL)
        /\ (has_severity HIGH f = true <-> severity f = HIGH)
        /\ (soc2_top_risk f = true
            <-> framework f = SOC2
                /\ (severity f = CRITICAL \/ severity f = HIGH))).
Proof.
  pose proof (soc2_top_needs_headline fs) as Hhead.
  rewrite recommendations_shape.
  set (c := length (filter (has_severity CRITICAL) fs)) in *.
  set (h := length (filter (has_severity HIGH) fs)) in *.
  set (p := length (filter mentions_pii fs)) in *.
  set (s := length (filter mentions_secret fs)) in *.
  set (g := length (filter soc2_top_risk fs)) in *.
  assert (Hnil : fs = [] -> c = 0 /\ h = 0 /\ p = 0 /\ s = 0 /\ g = 0)
    by (intros ->; repeat split).
  clearbody c h p s g.
  destruct (Nat.ltb_spec 0 c), (Nat.ltb_spec 0 h), (Nat.ltb_spec 3 p),
    (Nat.ltb_spec 2 s), (Nat.ltb_spec 2 g);
    cbn [app In];
    (split; [intros n; split;
             [intros H'; repeat (destruct H' as [H'|H']; try discriminate);
              try (inversion H'; subst; split; [reflexivity|lia]);
              try contradiction
             |intros [-> Hn]; try lia; auto 10]|]);
    (split; [intros n; split;
             [intros H'; repeat (destruct H' as [H'|H']; try discriminate);
              try (inversion H'; subst; split; [reflexivity|lia]);
              try contradiction
             |intros [-> Hn]; try lia; auto 10]|]);
    (split; [split;
             [intros H'; repeat (destruct H' as [H'|H']; try discriminate);
              try contradiction; lia
             |intros Hn; try lia; auto 10]|]);
    (split; [split;
             [intros H'; repeat (destruct H' as [H'|H']; try discriminate);
              try contradiction; lia
             |intros Hn; try lia; auto 10]|]);
    (split; [split;
             [intros H'; repeat (destruct H' as [H'|H']; try discriminate);
              try contradiction; lia
             |intros Hn; try lia; auto 10]|]);
    (split;
     [intros H'; repeat (destruct H' as [H'|H']; try discriminate);
      try contradiction;
      try (exists c; left; now left);
      try (exists h; right; now left);
      try (exists h; right; right; now left);
      try (destruct Hhead; lia)
     |]);
    (split;
     [intros Hfs; destruct (Hnil Hfs) as (? & ? & ? & ? & ?);
      try lia; reflexivity|]);
    (split; [reflexivity|exact condition_fields]).
Qed.

Lemma sorted_head_least {A} (key : A -> nat) (x : A) (l : list A) :
  StronglySorted (key_le key) (x :: l) ->
  forall y, In y l -> key x <= key y.
Proof.
  intros H y Hy. inversion H as [|? ? _ Hx]; subst.
  rewrite Forall_forall in Hx. now apply Hx.
Qed.

Lemma rank_of_severity (f : Finding) :
  severity_rank f = match severity f with
                    | CRITICAL => 0 | HIGH => 1 | MEDIUM => 2 | LOW => 3
                    end.
Proof. unfold severity_rank. now destruct (severity f). Qed.

Lemma exit_status_of_sorted (r : ScanResult) :
  StronglySorted (key_le severity_rank) (findings r) ->
  scan_exit_status r = status_of (hd_error (findings r)).
Proof.
  unfold scan_exit_status.
  change (fun f => text_eqb (severity_value (severity f)) (lit "critical"))
    with (has_severity CRITICAL).
  change (fun f => text_eqb (severity_value (severity f)) (lit "high"))
    with (has_severity HIGH).
  destruct (findings r) as [|x l]; [reflexivity|]. intros Hs.
  pose proof (sorted_head_least _ _ _ Hs) as Hle.
  cbn [hd_error status_of filter]. rewrite !has_severity_eqb.
  assert (Hnone : forall sev,
            severity_rank x
            > match sev with CRITICAL => 0 | HIGH => 1 | MEDIUM => 2 | LOW => 3 end ->
            filter (has_severity sev) l = []).
  { intros sev Hgt. apply filter_nil_iff. intros y Hy.
    specialize (Hle y Hy). rewrite has_severity_eqb.
    rewrite (rank_of_severity y) in Hle.
    destruct (severity y), sev; try reflexivity; lia. }
  rewrite (rank_of_severity x) in Hnone.
  destruct (severity x); cbn [severity_eqb length]; try reflexivity.
  - rewrite (Hnone CRITICAL) by lia. reflexivity.
  - rewrite (Hnone CRITICAL), (Hnone HIGH) by lia. reflexivity.
  - rewrite (Hnone CRITICAL), (Hnone HIGH) by lia. reflexivity.
Qed.

Lemma is_top_risk_split (f : Finding) :
  is_top_risk f = has_severity CRITICAL f || has_severity HIGH f.
Proof.
  rewrite !has_severity_eqb. unfold is_top_risk. now destruct (severity f).
Qed.

Lemma top_risk_count (fs : list Finding) :
  length (filter is_top_risk fs)
  = length (filter (has_severity CRITICAL) fs)
    + length (filter (has_severity HIGH) fs).
Proof.
  induction fs as [|f fs IH]; [reflexivity|].
  cbn [filter]. rewrite is_top_risk_split, !has_severity_eqb.
  destruct (severity f); cbn [severity_eqb orb length]; lia.
Qed.

(** X8: the exit status of the [scan] command is decided by the first
    finding of the result, because the findings are sorted: 2 when it is
    critical, 1 when it is high, 0 otherwise or when there is none; and it
    is 0 exactly when the result has no top risk. *)
Theorem scan_exit_status_by_first_finding
  (w : World) (rules : list Rule) (paths : list text)
  (frameworks : option (list Framework)) (st : nat) :
  scan_exit_status (scan_paths w rules paths frameworks st)
  = status_of (hd_error (findings (scan_paths w rules paths frameworks st)))
  /\ (scan_exit_status (scan_paths w rules paths frameworks st) = 0
      <-> top_risks (scan_paths w rules paths frameworks st) = [])
  /\ scan_exit_status (scan_paths w rules paths frameworks st) <= 2.
Proof.
  assert (Hs : StronglySorted (key_le severity_rank)
                 (findings (scan_paths w rules paths frameworks st)))
    by apply sort_by_sorted.
  split; [now apply exit_status_of_sorted|]. split.
  - unfold scan_exit_status. cbn [scan_paths top_risks findings].
    set (fs := sort_by severity_rank
                 (deduplicated_findings w rules paths frameworks st)).
    change (fun f => text_eqb (severity_value (severity f)) (lit "critical"))
      with (has_severity CRITICAL).
    change (fun f => text_eqb (severity_value (severity f)) (lit "high"))
      with (has_severity HIGH).
    pose proof (top_risk_count fs) as Hc.
    destruct (filter is_top_risk fs) as [|t ts] eqn:Et.
    + cbn [length] in Hc.
      replace (length (filter (has_severity CRITICAL) fs)) with 0 by lia.
      replace (length (filter (has_severity HIGH) fs)) with 0 by lia.
      cbn. tauto.
    + cbn [length firstn] in *. split; [|discriminate].
      destruct (Nat.ltb_spec 0 (length (filter (has_severity CRITICAL) fs)));
        [discriminate|].
      destruct (Nat.ltb_spec 0 (length (filter (has_severity HIGH) fs)));
        [discriminate|lia].
  - unfold scan_exit_status.
    repeat match goal with |- context [if ?b then _ else _] =>
      destruct b end; lia.
Qed.

(** X9: the top risks of a result are as many as its critical and high
    findings together, up to ten, these two numbers being the ones the
    summary shows. *)
Theorem scan_paths_top_risks_count
  (w : World) (rules : list Rule) (paths : list text)
  (frameworks : option (list Framework)) (st : nat) :
  length (top_risks (scan_paths w rules paths frameworks st))
  = Nat.min 10
      (dict_get (findings_by_severity
                   (summary (scan_paths w rules paths frameworks st)))
         (lit "critical") 0
       + dict_get (findings_by_severity
                     (summary (scan_paths w rules paths frameworks st)))
           (lit "high") 0)
  /\ total_findings (summary (scan_paths w rules paths frameworks st))
     = length (findings (scan_paths w rules paths frameworks st)).
Proof.
  cbn [scan_paths top_risks summary findings].
  set (fs := sort_by severity_rank
               (deduplicated_findings w rules paths frameworks st)).
  set (n := files_scanned _). set (d := (time_end w - time_start w)%Z).
  destruct (summary_dicts n fs d) as [Hs _].
  assert (Hk : forall f : Finding,
            In (severity_value (severity f))
              (map fst [(lit "critical", 0); (lit "high", 0);
                        (lit "medium", 0); (lit "low", 0)])).
  { intros f. destruct (severity f); cbn [map fst In severity_value]; auto. }
  pose proof (fun k => proj1 (dict_count
                (fun f => severity_value (severity f)) fs _ k Hk)) as Hc.
  split; [|apply summary_totals].
  rewrite Hs, !Hc, length_firstn, top_risk_count. reflexivity.
Qed.

(* ================================================================== *)
(** * The findings of a scan and their identifiers *)
(* ================================================================== *)

Lemma with_ids_app (w : World) (a b : list (text -> Finding)) (st : nat) :
  with_ids w (a ++ b) st = with_ids w a st ++ with_ids w b (st + length a).
Proof.
  revert st. induction a as [|mk a IH]; intros st; cbn [app with_ids length].
  - now rewrite Nat.add_0_r.
  - rewrite IH. do 3 f_equal. lia.
Qed.

Lemma with_ids_length (w : World) (mks : list (text -> Finding)) (st : nat) :
  length (with_ids w mks st) = length mks.
Proof.
  revert st. induction mks as [|mk l IH]; intros st; cbn; [reflexivity|].
  now rewrite IH.
Qed.

Lemma scan_file_acc (w : World) (rules : list Rule) (p : Path)
  (content : text) (st : nat) :
  scan_file w rules p content st
  = (with_ids w (flat_map (rule_findings p content) rules) st,
     st + length (flat_map (rule_findings p content) rules)).
Proof.
  unfold scan_file.
  rewrite (fold_left_pointwise (scan_rule w p content)
             (fun a rule =>
                fold_left (fun a' mk => append_fresh w mk a')
                  (rule_findings p content rule) a)).
  - rewrite fold_left_flat_map.
    rewrite (fold_append_fresh w (fun mk => mk)). cbn [fst snd app].
    now rewrite map_id.
  - intros a rule. unfold scan_rule, rule_findings.
    destruct (rule_applies rule p); cbn [negb fold_left]; [|reflexivity].
    now rewrite fold_left_map.
Qed.

Lemma scan_document_acc (w : World) (p : Path) (content : text) (st : nat) :
  scan_document w p content st
  = (with_ids w (gap_makers p content) st,
     st + length (gap_makers p content)).
Proof.
  unfold gap_makers. destruct (_is_policy_document content) eqn:E.
  - rewrite (scan_document_entries _ _ _ _ E). now rewrite length_map.
  - rewrite (scan_document_not_policy _ _ _ _ E). cbn. now rewrite Nat.add_0_r.
Qed.

Lemma scan_config_acc (w : World) (p : Path) (content : text) (st : nat) :
  scan_config w p content st
  = (with_ids w (config_makers p content) st,
     st + length (config_makers p content)).
Proof.
  unfold scan_config, config_makers, config_checks, append_if, append_fresh.
  destruct (disabled_tls_check content), (broad_iam_check content),
    (public_storage_check content), (weak_cipher_check content);
    cbn; repeat f_equal; lia.
Qed.

Lemma scan_single_file_acc (w : World) (rules : list Rule) (p : Path)
  (st : nat) :
  _scan_single_file w rules p st
  = (with_ids w (file_makers w rules p) st,
     st + length (file_makers w rules p)).
Proof.
  unfold _scan_single_file, file_makers, content_makers.
  destruct (read_text w p) as [content|]; [|cbn; now rewrite Nat.add_0_r].
  rewrite scan_file_acc.
  set (m1 := flat_map (rule_findings p content) rules).
  destruct (text_in (suffix p) document_suffixes);
    destruct (text_in (suffix p) config_suffixes);
    rewrite ?scan_document_acc, ?scan_config_acc, !with_ids_app,
      ?length_app; cbn [with_ids length app];
    rewrite ?Nat.add_0_r, ?app_nil_r; f_equal; lia.
Qed.

Lemma visits_acc (w : World) (rules : list Rule) (l : list Path) :
  forall t,
    all_findings (fold_left (visit w rules) l t)
    = all_findings t
      ++ with_ids w (flat_map (file_makers w rules) l) (drawn t)
    /\ drawn (fold_left (visit w rules) l t)
       = drawn t + length (flat_map (file_makers w rules) l).
Proof.
  induction l as [|p l IH]; intros t; cbn [fold_left flat_map with_ids length].
  - now rewrite app_nil_r, Nat.add_0_r.
  - destruct (IH (visit w rules t p)) as [IH1 IH2]. rewrite IH1, IH2.
    unfold visit. rewrite scan_single_file_acc. cbn [all_findings drawn].
    rewrite with_ids_app, length_app, <- app_assoc. split; [reflexivity|lia].
Qed.

(** The findings of the traversal are those of the visited files, in the
    order of the visits, each with the next uuid drawn. *)
Lemma traverse_acc (w : World) (rules : list Rule) (paths : list text)
  (st : nat) :
  all_findings (traverse w rules paths st)
  = with_ids w (flat_map (file_makers w rules) (files_visited w paths)) st.
Proof.
  rewrite traverse_visits.
  now rewrite (proj1 (visits_acc w rules (files_visited w paths) _)).
Qed.

Lemma with_ids_ids (w : World) (mks : list (text -> Finding)) :
  Forall sets_id mks ->
  forall st, map id (with_ids w mks st) = map (uuid4 w) (seq st (length mks)).
Proof.
  induction 1 as [|mk l Hmk _ IH]; intros st; cbn [with_ids map length seq];
    [reflexivity|].
  now rewrite Hmk, IH.
Qed.

Lemma file_makers_made_for (w : World) (rules : list Rule) (p : Path)
  (mk : text -> Finding) :
  In mk (file_makers w rules p) ->
  made_for p mk /\ read_text w p <> None.
Proof.
  unfold file_makers. destruct (read_text w p) as [content|]; [|easy].
  intros Hin. split; [|discriminate]. unfold content_makers in Hin.
  rewrite !in_app_iff in Hin. destruct Hin as [Hin|[Hin|Hin]].
  - apply in_flat_map in Hin. destruct Hin as (rule & _ & Hin).
    unfold rule_findings in Hin.
    destruct (rule_applies rule p); [|easy].
    apply in_map_iff in Hin. destruct Hin as (m & <- & _). now intros u.
  - destruct (text_in (suffix p) document_suffixes); [|easy].
    unfold gap_makers in Hin. destruct (_is_policy_document content); [|easy].
    apply in_map_iff in Hin. destruct Hin as (e & <- & _). now intros u.
  - destruct (text_in (suffix p) config_suffixes); [|easy].
    unfold config_makers in Hin. apply in_map_iff in Hin.
    destruct Hin as ([c mk'] & <- & Hin). apply filter_In in Hin.
    destruct Hin as [Hin _]. unfold config_checks in Hin. cbn [In] in Hin.
    intros u.
    repeat (destruct Hin as [Hin|Hin]; [inversion Hin; now subst|]).
    easy.
Qed.

Lemma in_filter_frameworks (frameworks : option (list Framework))
  (fs : list Finding) (f : Finding) :
  In f (filter_frameworks frameworks fs) -> In f fs.
Proof.
  destruct frameworks as [[|fw fws]|]; cbn [filter_frameworks]; try easy.
  intros H. now apply filter_In in H.
Qed.

Lemma in_keep_first (fs : list Finding) (f : Finding) :
  In f (keep_first_per_key fs) -> In f fs.
Proof.
  induction fs as [|g fs IH]; cbn [keep_first_per_key In]; [easy|].
  intros [->|H]; [now left|]. apply filter_In in H. right. now apply IH.
Qed.

(** A finding of the result was appended during the traversal. *)
Lemma in_findings_traversed (w : World) (rules : list Rule)
  (paths : list text) (frameworks : option (list Framework)) (st : nat)
  (f : Finding) :
  In f (findings (scan_paths w rules paths frameworks st)) ->
  In f (all_findings (traverse w rules paths (S st))).
Proof.
  cbn [scan_paths findings]. intros H.
  apply (Permutation_in _ (Permutation_sym (sort_by_perm _ _))) in H.
  unfold deduplicated_findings in H. rewrite deduplicate_keep_first in H.
  apply in_keep_first in H. now apply in_filter_frameworks in H.
Qed.

(** X10: every finding of a result names a file that the traversal handed
    to the single-file scanner and that could be read. *)
Theorem scan_paths_findings_provenance
  (w : World) (rules : list Rule) (paths : list text)
  (frameworks : option (list Framework)) (st : nat) (f : Finding) :
  In f (findings (scan_paths w rules paths frameworks st)) ->
  exists p,
    In p (files_visited w paths)
    /\ read_text w p <> None
    /\ file_path f = path_str p.
Proof.
  intros H. apply in_findings_traversed in H. rewrite traverse_acc in H.
  apply in_with_ids_elim in H. destruct H as (mk & u & Hmk & ->).
  apply in_flat_map in Hmk. destruct Hmk as (p & Hp & Hmk).
  apply file_makers_made_for in Hmk. destruct Hmk as [Hmade Hread].
  exists p. repeat split; try assumption. apply Hmade.
Qed.

Lemma scan_paths_findings_provenance_witness :
  exists p,
    In p (files_visited config_world [lit "app.yml"])
    /\ read_text config_world p <> None
    /\ file_path
         (disabled_tls_finding (make_path config_world (lit "app.yml"))
            (uuid4 config_world 1))
       = path_str p.
Proof.
  apply (scan_paths_findings_provenance config_world [] [lit "app.yml"] None 0).
  vm_compute. left. reflexivity.
Defined.

Lemma NoDup_map_filter {A B} (g : A -> B) (keep : A -> bool) (l : list A) :
  NoDup (map g l) -> NoDup (map g (filter keep l)).
Proof.
  induction l as [|a l IH]; cbn [map filter]; [easy|].
  intros H. inversion H as [|? ? Hn Hl]; subst.
  destruct (keep a); [|now apply IH]. cbn [map]. constructor; [|now apply IH].
  intros Hin. apply Hn. apply in_map_iff in Hin.
  destruct Hin as (x & Hx & Hin). apply filter_In in Hin.
  apply in_map_iff. exists x. tauto.
Qed.

Lemma NoDup_map_keep_first {B} (g : Finding -> B) (fs : list Finding) :
  NoDup (map g fs) -> NoDup (map g (keep_first_per_key fs)).
Proof.
  induction fs as [|f fs IH]; cbn [map keep_first_per_key]; [easy|].
  intros H. inversion H as [|? ? Hn Hl]; subst. constructor.
  - intros Hin. apply Hn. apply in_map_iff in Hin.
    destruct Hin as (x & Hx & Hin). apply filter_In in Hin.
    apply in_map_iff. exists x. split; [easy|]. now apply in_keep_first.
  - apply NoDup_map_filter. now apply IH.
Qed.

Lemma NoDup_map_filter_frameworks {B} (g : Finding -> B)
  (frameworks : option (list Framework)) (fs : list Finding) :
  NoDup (map g fs) -> NoDup (map g (filter_frameworks frameworks fs)).
Proof.
  destruct frameworks as [[|fw fws]|]; cbn [filter_frameworks]; try easy.
  apply NoDup_map_filter.
Qed.

Lemma NoDup_uuids (w : World) (l : list nat) :
  distinct_uuids w -> NoDup l -> NoDup (map (uuid4 w) l).
Proof.
  intros Hinj. induction 1 as [|n l Hn _ IH]; cbn [map]; constructor; [|easy].
  intros Hin. apply in_map_iff in Hin. destruct Hin as (m & Hm & Hin).
  apply Hinj in Hm. now subst.
Qed.

Lemma traversal_ids (w : World) (rules : list Rule) (paths : list text)
  (st : nat) :
  map id (all_findings (traverse w rules paths st))
  = map (uuid4 w) (seq st (length (all_findings (traverse w rules paths st)))).
Proof.
  rewrite traverse_acc, with_ids_length. apply with_ids_ids.
  apply Forall_forall. intros mk Hmk. apply in_flat_map in Hmk.
  destruct Hmk as (p & _ & Hmk). apply file_makers_made_for in Hmk.
  intros u. apply Hmk.
Qed.

(** X11: the findings appended during a scan carry the uuids drawn after the
    scan identifier, one draw per finding and in the order of the findings;
    so when no two draws collide, the findings of the result have pairwise
    distinct identifiers, all different from the scan identifier. *)
Theorem scan_paths_ids_distinct
  (w : World) (rules : list Rule) (paths : list text)
  (frameworks : option (list Framework)) (st : nat) :
  distinct_uuids w ->
  map id (all_findings (traverse w rules paths (S st)))
  = map (uuid4 w)
      (seq (S st) (length (all_findings (traverse w rules paths (S st)))))
  /\ scan_id (scan_paths w rules paths frameworks st) = uuid4 w st
  /\ NoDup (scan_id (scan_paths w rules paths frameworks st)
            :: map id (findings (scan_paths w rules paths frameworks st))).
Proof.
  intros Hinj. split; [apply traversal_ids|]. split; [reflexivity|].
  pose proof (traversal_ids w rules paths (S st)) as Hids.
  set (all := all_findings (traverse w rules paths (S st))) in *.
  assert (Hnd : NoDup (map id all)).
  { rewrite Hids. apply NoDup_uuids; [assumption|apply seq_NoDup]. }
  constructor.
  - intros Hin. apply in_map_iff in Hin. destruct Hin as (f & Hf & Hin).
    apply in_findings_traversed in Hin. fold all in Hin.
    assert (Hid : In (id f) (map id all)) by now apply in_map.
    rewrite Hids in Hid. apply in_map_iff in Hid.
    destruct Hid as (n & Hn & Hseq). apply in_seq in Hseq.
    cbn [scan_paths scan_id] in Hf. rewrite <- Hn in Hf.
    apply Hinj in Hf. lia.
  - cbn [scan_paths findings].
    apply (Permutation_NoDup (Permutation_map id (sort_by_perm _ _))).
    unfold deduplicated_findings. rewrite deduplicate_keep_first.
    apply NoDup_map_keep_first. now apply NoDup_map_filter_frameworks.
Qed.

Lemma scan_paths_ids_distinct_witness :
  distinct_uuids config_world
  /\ NoDup (scan_id (scan_paths config_world [] [lit "app.yml"] None 0)
            :: map id
                 (findings (scan_paths config_world [] [lit "app.yml"] None 0))).
Proof.
  assert (H : distinct_uuids config_world).
  { intros m n E. apply (f_equal (@length ascii)) in E.
    cbn [config_world uuid4] in E. now rewrite !repeat_length in E. }
  split; [exact H|].
  apply (scan_paths_ids_distinct config_world [] [lit "app.yml"] None 0 H).
Defined.

Lemma keep_first_keeps_key (fs : list Finding) (f : Finding) :
  In f fs ->
  exists g, In g (keep_first_per_key fs) /\ finding_key g = finding_key f.
Proof.
  intros Hin.
  destruct (find (fun g => key_eqb (finding_key g) (finding_key f)) fs)
    as [g|] eqn:E.
  - rewrite <- keep_first_find in E. apply find_some in E.
    exists g. split; [easy|]. now apply key_eqb_eq.
  - apply (find_none _ _ E) in Hin.
    assert (key_eqb (finding_key f) (finding_key f) = true)
      by now apply key_eqb_eq.
    congruence.
Qed.

(** X12: a framework filter with at least one framework leaves only
    findings of the frameworks it names, and loses none of them: each
    finding of the unfiltered result in a named framework has its file, rule
    and line range in the filtered result.  An empty filter list filters
    nothing, exactly as no filter, and no filter changes the number of
    files scanned. *)
Theorem scan_paths_framework_filter
  (w : World) (rules : list Rule) (paths : list text) (st : nat) :
  (forall fw fws f,
      In f (findings (scan_paths w rules paths (Some (fw :: fws)) st)) ->
      In (framework f) (fw :: fws))
  /\ (forall fw fws f,
        In f (findings (scan_paths w rules paths None st)) ->
        In (framework f) (fw :: fws) ->
        exists g,
          In g (findings (scan_paths w rules paths (Some (fw :: fws)) st))
          /\ finding_key g = finding_key f)
  /\ scan_paths w rules paths (Some []) st = scan_paths w rules paths None st
  /\ (forall frameworks,
        total_files_scanned (summary (scan_paths w rules paths frameworks st))
        = total_files_scanned (summary (scan_paths w rules paths None st))).
Proof.
  split; [|split; [|split]].
  - intros fw fws f Hin. cbn [scan_paths findings] in Hin.
    apply (Permutation_in _ (Permutation_sym (sort_by_perm _ _))) in Hin.
    unfold deduplicated_findings in Hin.
    rewrite deduplicate_keep_first in Hin. apply in_keep_first in Hin.
    cbn [filter_frameworks] in Hin. apply filter_In in Hin.
    destruct Hin as [_ Hfw].
    apply existsb_exists in Hfw. destruct Hfw as (x & Hx & Heq).
    destruct (framework f), x; try discriminate; assumption.
  - intros fw fws f Hin Hfw. apply in_findings_traversed in Hin.
    assert (Hkeep : In f (filter_frameworks (Some (fw :: fws))
                            (all_findings (traverse w rules paths (S st))))).
    { cbn [filter_frameworks]. apply filter_In. split; [assumption|].
      apply existsb_exists. exists (framework f). split; [assumption|].
      now destruct (framework f). }
    apply keep_first_keeps_key in Hkeep. destruct Hkeep as (g & Hg & Hkey).
    exists g. split; [|assumption]. cbn [scan_paths findings].
    apply (Permutation_in _ (sort_by_perm _ _)).
    unfold deduplicated_findings. now rewrite deduplicate_keep_first.
  - reflexivity.
  - intros frameworks. cbn [scan_paths summary].
    now rewrite !(proj1 (summary_totals _ _ _)).
Qed.

(* ================================================================== *)
(** * Paths given to a scan *)
(* ================================================================== *)

Lemma scan_paths_counts_visits (w : World) (rules : list Rule)
  (paths : list text) (frameworks : option (list Framework)) (st : nat) :
  total_files_scanned (summary (scan_paths w rules paths frameworks st))
  = length (files_visited w paths).
Proof.
  cbn [scan_paths summary]. rewrite (proj1 (summary_totals _ _ _)).
  rewrite traverse_visits, visit_count. reflexivity.
Qed.

(** X13: a path that names a file is handed to the single-file scanner
    without asking the skip policy: it is counted, and its findings are
    those of that file, also when the policy rejects the file. *)
Theorem direct_file_is_not_skipped
  (w : World) (rules : list Rule) (path_str0 : text)
  (frameworks : option (list Framework)) (st : nat) :
  is_file w (make_path w path_str0) = true ->
  total_files_scanned (summary (scan_paths w rules [path_str0] frameworks st))
  = 1
  /\ all_findings (traverse w rules [path_str0] (S st))
     = fst (_scan_single_file w rules (make_path w path_str0) (S st))
  /\ drawn (traverse w rules [path_str0] (S st))
     = snd (_scan_single_file w rules (make_path w path_str0) (S st)).
Proof.
  intros Hfile. split.
  - rewrite scan_paths_counts_visits. cbn [files_visited flat_map].
    unfold files_of_path. now rewrite Hfile.
  - unfold traverse. cbn [fold_left]. unfold scan_path. rewrite Hfile.
    unfold visit. cbn [drawn all_findings].
    destruct (_scan_single_file w rules (make_path w path_str0) (S st)).
    now split.
Qed.

Lemma direct_file_is_not_skipped_witness :
  _should_skip_file pyc_world (make_path pyc_world (lit "cache.pyc")) = true
  /\ total_files_scanned
       (summary (scan_paths pyc_world [sample_rule] [lit "cache.pyc"] None 0))
     = 1
  /\ length (findings
               (scan_paths pyc_world [sample_rule] [lit "cache.pyc"] None 0))
     = 1.
Proof.
  split; [reflexivity|].
  destruct (direct_file_is_not_skipped pyc_world [sample_rule]
              (lit "cache.pyc") None 0 eq_refl) as [H _].
  split; [exact H|reflexivity].
Defined.

Lemma nothing_to_visit (w : World) (paths : list text) :
  Forall (fun p => is_file w (make_path w p) = false
                   /\ is_dir w (make_path w p) = false) paths ->
  files_visited w paths = [].
Proof.
  induction 1 as [|p l [Hf Hd] _ IH]; [reflexivity|].
  cbn [files_visited flat_map]. unfold files_of_path at 1.
  rewrite Hf, Hd. exact IH.
Qed.

(** X14: paths that name neither a file nor a directory are passed over
    without an error: the result lists them as scanned, and has no finding,
    no top risk, no recommendation, zero files and an exit status of 0. *)
Theorem missing_paths_give_empty_result
  (w : World) (rules : list Rule) (paths : list text)
  (frameworks : option (list Framework)) (st : nat) :
  Forall (fun p => is_file w (make_path w p) = false
                   /\ is_dir w (make_path w p) = false) paths ->
  paths_scanned (scan_paths w rules paths frameworks st) = paths
  /\ findings (scan_paths w rules paths frameworks st) = []
  /\ top_risks (scan_paths w rules paths frameworks st) = []
  /\ recommendations (scan_paths w rules paths frameworks st) = []
  /\ total_files_scanned (summary (scan_paths w rules paths frameworks st)) = 0
  /\ total_findings (summary (scan_paths w rules paths frameworks st)) = 0
  /\ scan_exit_status (scan_paths w rules paths frameworks st) = 0.
Proof.
  intros Hmissing. apply nothing_to_visit in Hmissing.
  assert (Hall : all_findings (traverse w rules paths (S st)) = []).
  { rewrite traverse_acc, Hmissing. reflexivity. }
  assert (Hf : findings (scan_paths w rules paths frameworks st) = []).
  { cbn [scan_paths findings]. unfold deduplicated_findings. rewrite Hall.
    now destruct frameworks as [[|? ?]|]. }
  split; [reflexivity|]. split; [exact Hf|].
  cbn [scan_paths findings] in Hf.
  rewrite scan_paths_counts_visits, Hmissing.
  unfold scan_exit_status.
  cbn [scan_paths top_risks recommendations summary findings].
  rewrite (proj2 (summary_totals _ _ _)), Hf. repeat split.
Qed.

Lemma missing_paths_give_empty_result_witness :
  findings (scan_paths bare_world [sample_rule] [lit "no/such/path"] None 0)
  = []
  /\ scan_exit_status
       (scan_paths bare_world [sample_rule] [lit "no/such/path"] None 0) = 0.
Proof.
  assert (H : Forall (fun p => is_file bare_world (make_path bare_world p)
                               = false
                               /\ is_dir bare_world (make_path bare_world p)
                                  = false) [lit "no/such/path"]).
  { constructor; [split; reflexivity|constructor]. }
  destruct (missing_paths_give_empty_result bare_world [sample_rule]
              [lit "no/such/path"] None 0 H) as (_ & Hf & _ & _ & _ & _ & He).
  split; [exact Hf|exact He].
Defined.

Lemma keep_first_app (l1 l2 : list Finding) :
  keep_first_per_key (l1 ++ l2)
  = keep_first_per_key l1
    ++ filter (fun g => negb (key_among l1 g)) (keep_first_per_key l2).
Proof.
  induction l1 as [|f l1 IH]; cbn [app keep_first_per_key].
  - unfold key_among. cbn [map existsb negb].
    symmetry. apply forallb_filter_id. now apply forallb_forall.
  - rewrite IH, filter_app, filter_filter. do 2 f_equal.
    apply filter_ext. intros g. unfold key_among. cbn [map existsb].
    rewrite negb_orb. apply andb_comm.
Qed.

Lemma filter_frameworks_as_filter (frameworks : option (list Framework)) :
  exists keep : Finding -> bool,
    (forall l, filter_frameworks frameworks l = filter keep l)
    /\ (forall f g, framework f = framework g -> keep f = keep g).
Proof.
  destruct frameworks as [[|fw fws]|].
  1, 3: exists (fun _ => true); split; [|reflexivity]; intros l;
    cbn [filter_frameworks]; symmetry; apply forallb_filter_id;
    now apply forallb_forall.
  exists (fun f => existsb (framework_eqb (framework f)) (fw :: fws)).
  split; [reflexivity|]. now intros f g ->.
Qed.

Lemma file_makers_id_free (w : World) (rules : list Rule) (p : Path)
  (mk : text -> Finding) :
  In mk (file_makers w rules p) -> id_free mk.
Proof.
  unfold file_makers. destruct (read_text w p) as [content|]; [|easy].
  intros Hin. unfold content_makers in Hin.
  rewrite !in_app_iff in Hin. destruct Hin as [Hin|[Hin|Hin]].
  - apply in_flat_map in Hin. destruct Hin as (rule & _ & Hin).
    unfold rule_findings in Hin.
    destruct (rule_applies rule p); [|easy].
    apply in_map_iff in Hin. destruct Hin as (m & <- & _). now intros u u'.
  - destruct (text_in (suffix p) document_suffixes); [|easy].
    unfold gap_makers in Hin. destruct (_is_policy_document content); [|easy].
    apply in_map_iff in Hin. destruct Hin as (e & <- & _). now intros u u'.
  - destruct (text_in (suffix p) config_suffixes); [|easy].
    unfold config_makers in Hin. apply in_map_iff in Hin.
    destruct Hin as ([c mk'] & <- & Hin). apply filter_In in Hin.
    destruct Hin as [Hin _]. unfold config_checks in Hin. cbn [In] in Hin.
    intros u u'.
    repeat (destruct Hin as [Hin|Hin]; [inversion Hin; now subst|]).
    easy.
Qed.

Lemma files_visited_incl (w : World) (again paths : list text) :
  incl again paths -> incl (files_visited w again) (files_visited w paths).
Proof.
  intros Hincl p Hp. unfold files_visited in *. apply in_flat_map in Hp.
  destruct Hp as (q & Hq & Hp). apply in_flat_map. exists q.
  split; [now apply Hincl|assumption].
Qed.

(** The findings before sorting do not change when paths already listed are
    listed again. *)
Lemma deduplicated_again (w : World) (rules : list Rule)
  (paths again : list text) (frameworks : option (list Framework))
  (st : nat) :
  incl again paths ->
  deduplicated_findings w rules (paths ++ again) frameworks st
  = deduplicated_findings w rules paths frameworks st.
Proof.
  intros Hincl. unfold deduplicated_findings.
  rewrite !deduplicate_keep_first, !traverse_acc.
  unfold files_visited. rewrite flat_map_app. fold (files_visited w paths).
  fold (files_visited w again). rewrite flat_map_app, with_ids_app.
  set (M1 := flat_map (file_makers w rules) (files_visited w paths)).
  set (M2 := flat_map (file_makers w rules) (files_visited w again)).
  destruct (filter_frameworks_as_filter frameworks) as (keep & Hkeep & Hfw).
  rewrite !Hkeep, filter_app, keep_first_app.
  rewrite (proj2 (filter_nil_iff (fun g => negb (key_among _ g)) _));
    [apply app_nil_r|].
  intros g Hg. apply in_keep_first in Hg. apply filter_In in Hg.
  destruct Hg as [Hg Hkg]. apply in_with_ids_elim in Hg.
  destruct Hg as (mk & u' & Hmk & ->).
  assert (Hfree : id_free mk).
  { apply in_flat_map in Hmk. destruct Hmk as (p & _ & Hmk).
    now apply file_makers_id_free in Hmk. }
  assert (Hmk1 : In mk M1).
  { apply in_flat_map in Hmk. destruct Hmk as (p & Hp & Hmk).
    apply in_flat_map. exists p. split; [|assumption].
    now apply (files_visited_incl w again paths Hincl). }
  destruct (in_with_ids_intro w M1 (S st) mk Hmk1) as [u Hu].
  destruct (Hfree u u') as [Hkey Hframework].
  apply negb_false_iff. unfold key_among. apply existsb_exists.
  exists (finding_key (mk u)). split.
  - apply in_map. apply filter_In. split; [assumption|].
    now rewrite (Hfw _ _ Hframework).
  - apply key_eqb_eq. now symmetry.
Qed.

(** X15: listing again paths that are already listed adds no finding and
    changes no identifier: findings, top risks and recommendations are the
    same, while the files of the repeated paths are counted once more. *)
Theorem listing_paths_again_adds_nothing
  (w : World) (rules : list Rule) (paths again : list text)
  (frameworks : option (list Framework)) (st : nat) :
  incl again paths ->
  findings (scan_paths w rules (paths ++ again) frameworks st)
  = findings (scan_paths w rules paths frameworks st)
  /\ top_risks (scan_paths w rules (paths ++ again) frameworks st)
     = top_risks (scan_paths w rules paths frameworks st)
  /\ recommendations (scan_paths w rules (paths ++ again) frameworks st)
     = recommendations (scan_paths w rules paths frameworks st)
  /\ total_findings
       (summary (scan_paths w rules (paths ++ again) frameworks st))
     = total_findings (summary (scan_paths w rules paths frameworks st))
  /\ total_files_scanned
       (summary (scan_paths w rules (paths ++ again) frameworks st))
     = total_files_scanned (summary (scan_paths w rules paths frameworks st))
       + length (files_visited w again).
Proof.
  intros Hincl. pose proof (deduplicated_again w rules paths again frameworks
                              st Hincl) as Heq.
  cbn [scan_paths findings top_risks recommendations summary].
  rewrite !(proj2 (summary_totals _ _ _)), !(proj1 (summary_totals _ _ _)).
  rewrite Heq. repeat split.
  rewrite !traverse_visits, !visit_count. unfold files_visited.
  rewrite flat_map_app, length_app. cbn [files_scanned]. lia.
Qed.

Lemma listing_paths_again_adds_nothing_witness :
  length (findings (scan_paths config_world []
                      ([lit "app.yml"] ++ [lit "app.yml"]) None 0)) = 1
  /\ total_files_scanned
       (summary (scan_paths config_world []
                   ([lit "app.yml"] ++ [lit "app.yml"]) None 0)) = 2.
Proof.
  destruct (listing_paths_again_adds_nothing config_world [] [lit "app.yml"]
              [lit "app.yml"] None 0 (incl_refl _)) as (Hf & _ & _ & _ & Hn).
  rewrite Hf, Hn. split; reflexivity.
Defined.

(* ================================================================== *)
(** * Keywords with capital letters *)
(* ================================================================== *)

Lemma lower_char_idempotent (c : ascii) :
  lower_char (lower_char c) = lower_char c.
Proof. destruct c as [[] [] [] [] [] [] [] []]; reflexivity. Qed.

(** A text with a character that [lower] changes is found in no lowered
    text. *)
Lemma capital_keyword_never_found (kw content : text) :
  lower kw <> kw -> contains kw (lower content) = false.
Proof.
  intros Hkw. destruct (contains kw (lower content)) eqn:E; [|reflexivity].
  apply contains_spec in E. destruct E as (a & b & E). destruct Hkw.
  unfold lower. rewrite <- (map_id kw) at 2. apply map_ext_in.
  intros c Hc.
  assert (Hin : In c (lower content))
    by (rewrite E, !in_app_iff; tauto).
  unfold lower in Hin. apply in_map_iff in Hin.
  destruct Hin as (c' & <- & _). apply lower_char_idempotent.
Qed.

(** X16: the document detector looks for its keywords in the lowered
    content, so a keyword with a capital letter is never found.  The row of
    impact assessments has such a keyword, [DPIA]: a policy document gets
    the Article 35 gap exactly when it lacks the words "data protection
    impact", whether or not it mentions a DPIA. *)
Theorem dpia_keyword_never_matches
  (w : World) (p : Path) (content : text) (st : nat) :
  _is_policy_document content = true ->
  (forall kw, lower kw <> kw -> contains kw (lower content) = false)
  /\ In dpia_entry required_entries
  /\ section_missing (lower content) (snd dpia_entry)
     = negb (contains (lit "data protection impact") (lower content))
  /\ ((exists f, In f (fst (scan_document w p content st))
                 /\ framework f = GDPR /\ control_id f = lit "Article 35")
      <-> contains (lit "data protection impact") (lower content) = false).
Proof.
  intros Hpol.
  assert (Hdpia : contains (lit "DPIA") (lower content) = false)
    by (apply capital_keyword_never_found; discriminate).
  assert (Hmiss : section_missing (lower content) (snd dpia_entry)
                  = negb (contains (lit "data protection impact")
                            (lower content))).
  { unfold section_missing, dpia_entry. cbn [snd keywords existsb].
    now rewrite Hdpia, !orb_false_r. }
  assert (Hrow : In dpia_entry required_entries).
  { cbn. tauto. }
  split; [intros kw; apply capital_keyword_never_found|].
  split; [exact Hrow|]. split; [exact Hmiss|]. split.
  - intros (f & Hin & Hfw & Hctl). apply in_gap_findings in Hin.
    destruct Hin as (e & u & He & Hm & ->). cbn [gap_finding framework
      control_id] in Hfw, Hctl.
    assert (e = dpia_entry) as ->.
    { unfold required_entries in He. cbn [REQUIRED_SECTIONS flat_map map app
        fst snd In] in He.
      repeat (destruct He as [<-|He];
              [first [discriminate Hfw | discriminate Hctl | reflexivity]|]).
      easy. }
    rewrite Hmiss in Hm. now apply negb_true_iff in Hm.
  - intros Hc. rewrite (scan_document_entries _ _ _ _ Hpol). cbn [fst].
    assert (Hsel : In dpia_entry
                     (filter (fun e => section_missing (lower content) (snd e))
                        required_entries)).
    { apply filter_In. split; [exact Hrow|]. now rewrite Hmiss, Hc. }
    apply (in_map (fun e => gap_finding p (fst e) (snd e))) in Hsel.
    destruct (in_with_ids_intro w _ st _ Hsel) as [u Hu].
    eexists. split; [exact Hu|]. split; reflexivity.
Qed.

Lemma dpia_keyword_never_matches_witness :
  contains (lit "dpia") (lower (lit "Privacy policy: a DPIA is made yearly."))
  = true
  /\ exists f,
      In f (fst (scan_document config_world some_path
                   (lit "Privacy policy: a DPIA is made yearly.") 0))
      /\ framework f = GDPR /\ control_id f = lit "Article 35".
Proof.
  split; [reflexivity|].
  apply (dpia_keyword_never_matches config_world some_path
           (lit "Privacy policy: a DPIA is made yearly.") 0 eq_refl).
  reflexivity.
Defined.

(* ================================================================== *)
(** * Spellings the configuration checks accept *)
(* ================================================================== *)

Lemma accepts_rep_only (r : list item) :
  rep_only r = true ->
  forall prev u rest, accepts r prev u rest <-> body_accepts r u.
Proof.
  induction r as [|it r IH]; intros Hrep prev u rest; [reflexivity|].
  destruct it as [cls lo hi|]; [|discriminate].
  cbn [rep_only forallb] in Hrep. cbn [accepts body_accepts]. split.
  - intros (u1 & u2 & Hu & Hall & Hlo & Hhi & Hacc).
    exists u1, u2. repeat split; try assumption. now apply (IH Hrep) in Hacc.
  - intros (u1 & u2 & Hu & Hall & Hlo & Hhi & Hacc).
    exists u1, u2. repeat split; try assumption. now apply (IH Hrep).
Qed.

Lemma match_alt_some (alts : regex) (prev : option ascii) (s : text)
  (n : nat) :
  match_alt alts prev s = Some n ->
  exists r, In r alts /\ match_seq r prev s = Some n.
Proof.
  induction alts as [|r alts IH]; cbn [match_alt]; [discriminate|].
  destruct (match_seq r prev s) as [m|] eqn:E.
  - intros H. exists r. split; [now left|congruence].
  - intros H. destruct (IH H) as (r' & Hin & Hm). exists r'. split;
      [now right|assumption].
Qed.

Lemma match_alt_complete (alts : regex) (r : list item)
  (prev : option ascii) (s : text) :
  In r alts -> match_seq r prev s <> None -> match_alt alts prev s <> None.
Proof.
  induction alts as [|r' alts IH]; cbn [In match_alt]; [easy|].
  intros [->|Hin] Hm.
  - now destruct (match_seq r prev s).
  - destruct (match_seq r' prev s); [discriminate|now apply IH].
Qed.

(** A search with a pattern that has no assertion succeeds exactly on the
    texts that hold a string accepted by one of the alternatives. *)
Lemma re_search_body (alts : regex) (s : text) :
  forallb rep_only alts = true ->
  re_search alts s = true
  <-> exists r a u b, In r alts /\ s = a ++ u ++ b /\ body_accepts r u.
Proof.
  intros Hrep. rewrite re_search_spec. split.
  - intros (a & b & n & -> & Hm). apply match_alt_some in Hm.
    destruct Hm as (r & Hin & Hm). apply match_seq_sound in Hm.
    destruct Hm as [_ Hacc]. exists r, a, (firstn n b), (skipn n b).
    split; [assumption|]. split; [now rewrite firstn_skipn|].
    apply (accepts_rep_only r) in Hacc; [assumption|].
    rewrite forallb_forall in Hrep. now apply Hrep.
  - intros (r & a & u & b & Hin & -> & Hacc).
    assert (Hr : rep_only r = true)
      by (rewrite forallb_forall in Hrep; now apply Hrep).
    apply (accepts_rep_only r Hr (prev_after None a) u b) in Hacc.
    apply match_seq_complete in Hacc.
    apply (match_alt_complete alts r _ _ Hin) in Hacc.
    destruct (match_alt alts (prev_after None a) (u ++ b)) as [n|] eqn:E;
      [|congruence].
    now exists a, (u ++ b), n.
Qed.

Lemma body_accepts_one (cls : ascii -> bool) (r : list item) (u : text) :
  body_accepts (one cls :: r) u
  <-> exists c u', u = c :: u' /\ cls c = true /\ body_accepts r u'.
Proof.
  unfold one. cbn [body_accepts within]. split.
  - intros (u1 & u2 & -> & Hall & Hlo & Hhi & Hacc).
    destruct u1 as [|c [|c' u1]]; cbn [length] in Hlo, Hhi; try lia.
    exists c, u2. cbn [forallb] in Hall. rewrite andb_true_r in Hall.
    now repeat split.
  - intros (c & u' & -> & Hc & Hacc). exists [c], u'.
    cbn [forallb length]. rewrite Hc. repeat split; try assumption; lia.
Qed.

Lemma body_accepts_many (cls : ascii -> bool) (r : list item) (u : text) :
  body_accepts (many cls :: r) u
  <-> exists u1 u2, u = u1 ++ u2 /\ forallb cls u1 = true
                    /\ body_accepts r u2.
Proof.
  unfold many. cbn [body_accepts within]. split.
  - intros (u1 & u2 & -> & Hall & _ & _ & Hacc). now exists u1, u2.
  - intros (u1 & u2 & -> & Hall & Hacc). exists u1, u2.
    repeat split; try assumption; lia.
Qed.

Lemma body_accepts_literal (s : text) (r : list item) :
  forall u,
    body_accepts (literal s ++ r) u
    <-> exists u', u = s ++ u' /\ body_accepts r u'.
Proof.
  induction s as [|x s IH]; intros u; cbn [literal map app].
  - split; [intros H; now exists u|now intros (u' & -> & H)].
  - fold (literal s). rewrite body_accepts_one. split.
    + intros (c & u' & -> & Hc & Hacc). apply IH in Hacc.
      destruct Hacc as (u'' & -> & Hacc). exists u''.
      unfold exactly in Hc. apply Ascii.eqb_eq in Hc. now subst.
    + intros (u' & -> & Hacc). exists x, (s ++ u'). split; [reflexivity|].
      split; [apply Ascii.eqb_refl|]. apply IH. now exists u'.
Qed.

Lemma body_accepts_literal_ci (s : text) (r : list item) :
  forall u,
    body_accepts (literal_ci s ++ r) u
    <-> exists s' u', u = s' ++ u' /\ lower s' = lower s
                      /\ body_accepts r u'.
Proof.
  induction s as [|x s IH]; intros u; cbn [literal_ci map app].
  - split.
    + intros H. now exists [], u.
    + intros (s' & u' & -> & Hlow & H). destruct s'; [exact H|discriminate].
  - fold (literal_ci s). rewrite body_accepts_one. split.
    + intros (c & u' & -> & Hc & Hacc). apply IH in Hacc.
      destruct Hacc as (s' & u'' & -> & Hlow & Hacc).
      exists (c :: s'), u''. split; [reflexivity|]. split; [|assumption].
      unfold exactly_ci in Hc. apply Ascii.eqb_eq in Hc.
      cbn [lower map]. unfold lower in Hlow. now rewrite Hc, Hlow.
    + intros (s' & u' & -> & Hlow & Hacc). destruct s' as [|c s'];
        [discriminate|].
      cbn [lower map] in Hlow. inversion Hlow as [[Hc Hs]].
      exists c, (s' ++ u'). split; [reflexivity|].
      split; [unfold exactly_ci; rewrite Hc; apply Ascii.eqb_refl|].
      apply IH. now exists s', u'.
Qed.

Lemma body_accepts_end_literal (s u : text) :
  body_accepts (literal s) u <-> u = s.
Proof.
  rewrite <- (app_nil_r (literal s)), body_accepts_literal. split.
  - intros (u' & -> & ->). apply app_nil_r.
  - intros ->. exists []. now rewrite app_nil_r.
Qed.

Lemma body_accepts_end_literal_ci (s u : text) :
  body_accepts (literal_ci s) u <-> lower u = lower s.
Proof.
  rewrite <- (app_nil_r (literal_ci s)), body_accepts_literal_ci. split.
  - intros (s' & u' & -> & Hlow & ->). now rewrite app_nil_r.
  - intros Hlow. exists u, []. now rewrite app_nil_r.
Qed.

Lemma body_accepts_flag_false (name : string) (u : text) :
  body_accepts (flag_false name) u
  <-> exists name' ws1 sep ws2 value,
        u = assignment name' ws1 sep ws2 value
        /\ lower name' = lower (lit name)
        /\ forallb is_space ws1 = true /\ forallb is_space ws2 = true
        /\ (sep = ":"%char \/ sep = "="%char)
        /\ lower value = lit "false".
Proof.
  unfold flag_false, assignment. rewrite body_accepts_literal_ci. split.
  - intros (name' & u1 & -> & Hname & H). cbn [app] in H.
    apply body_accepts_many in H. destruct H as (ws1 & u2 & -> & Hws1 & H).
    apply body_accepts_one in H. destruct H as (sep & u3 & -> & Hsep & H).
    apply body_accepts_many in H. destruct H as (ws2 & value & -> & Hws2 & H).
    apply body_accepts_end_literal_ci in H.
    exists name', ws1, sep, ws2, value. repeat split; try assumption.
    unfold in_set in Hsep. cbn [existsb in_atom] in Hsep.
    rewrite orb_false_r in Hsep. apply orb_true_iff in Hsep.
    destruct Hsep as [Hsep|Hsep]; apply Ascii.eqb_eq in Hsep; tauto.
  - intros (name' & ws1 & sep & ws2 & value & -> & Hname & Hws1 & Hws2 & Hsep
            & Hvalue).
    exists name', (ws1 ++ [sep] ++ ws2 ++ value).
    split; [reflexivity|]. split; [assumption|]. cbn [app].
    apply body_accepts_many. exists ws1, (sep :: ws2 ++ value).
    split; [reflexivity|]. split; [assumption|].
    apply body_accepts_one. exists sep, (ws2 ++ value).
    split; [reflexivity|]. split; [destruct Hsep as [-> | ->]; reflexivity|].
    apply body_accepts_many. exists ws2, value.
    split; [reflexivity|]. split; [assumption|].
    now apply body_accepts_end_literal_ci.
Qed.

(** The check in terms of the lower-cased forms of the name and the
    value. *)
Lemma disabled_tls_lowered (content : text) :
  disabled_tls_check content = true
  <-> exists a name ws1 sep ws2 value b,
        content = a ++ assignment name ws1 sep ws2 value ++ b
        /\ In (lower name) [lit "ssl"; lit "verify"; lit "tls"]
        /\ forallb is_space ws1 = true /\ forallb is_space ws2 = true
        /\ (sep = ":"%char \/ sep = "="%char)
        /\ lower value = lit "false".
Proof.
  unfold disabled_tls_check.
  rewrite (re_search_body DISABLED_TLS_RE content eq_refl). split.
  - intros (r & a & u & b & Hin & -> & Hacc).
    assert (Hr : exists name,
               r = flag_false name
               /\ In (lower (lit name)) [lit "ssl"; lit "verify"; lit "tls"]).
    { cbn [DISABLED_TLS_RE In] in Hin.
      destruct Hin as [<-|[<-|[<-|[]]]];
        [exists "ssl"%string|exists "verify"%string|exists "tls"%string];
        (split; [reflexivity|cbn; tauto]). }
    destruct Hr as (name & -> & Hname).
    apply body_accepts_flag_false in Hacc.
    destruct Hacc as (name' & ws1 & sep & ws2 & value & -> & Hn & Hrest).
    exists a, name', ws1, sep, ws2, value, b.
    split; [reflexivity|]. split; [now rewrite Hn|exact Hrest].
  - intros (a & name & ws1 & sep & ws2 & value & b & -> & Hname & Hrest).
    assert (Hr : exists n,
               In (flag_false n) DISABLED_TLS_RE
               /\ lower name = lower (lit n)).
    { cbn [In] in Hname. destruct Hname as [H|[H|[H|[]]]];
        [exists "ssl"%string|exists "verify"%string|exists "tls"%string];
        (split; [cbn; tauto|now rewrite <- H]). }
    destruct Hr as (n & Hin & Hn).
    exists (flag_false n), a, (assignment name ws1 sep ws2 value), b.
    split; [assumption|]. split; [reflexivity|].
    apply body_accepts_flag_false.
    exists name, ws1, sep, ws2, value. now split.
Qed.

Lemma is_space_spec (c : ascii) :
  is_space c = true
  <-> 9 <= code c <= 13 \/ 28 <= code c <= 32 \/ code c = 133
      \/ code c = 160.
Proof.
  unfold is_space, between.
  rewrite !orb_true_iff, !andb_true_iff, !Nat.leb_le, !Nat.eqb_eq. tauto.
Qed.

(** X17: on text of code points below 256, the disabled-TLS check fires
    exactly on the texts that hold [ssl], [verify] or [tls], each letter
    small or capital, then any amount of white space (line breaks included)
    around a colon or an equals sign, then [false], each letter small or
    capital.  Nothing is asked of the text before and after: the name may
    end a longer name, and [false] may begin a longer word.  White space is
    the code points 9 to 13, 28 to 32, 133 and 160. *)
Theorem disabled_tls_check_shape (content : text) :
  (disabled_tls_check content = true
   <-> exists a name ws1 sep ws2 value b,
         content = a ++ assignment name ws1 sep ws2 value ++ b
         /\ (same_word name (lit "ssl") = true
             \/ same_word name (lit "verify") = true
             \/ same_word name (lit "tls") = true)
         /\ forallb is_space ws1 = true /\ forallb is_space ws2 = true
         /\ (sep = ":"%char \/ sep = "="%char)
         /\ same_word value (lit "false") = true)
  /\ (forall c,
        is_space c = true
        <-> 9 <= code c <= 13 \/ 28 <= code c <= 32 \/ code c = 133
            \/ code c = 160)
  /\ (forall a b,
        same_letter a b = true
        <-> a = b
            \/ (is_capital a = true /\ code b = code a + 32)
            \/ (is_capital b = true /\ code a = code b + 32)).
Proof.
  split; [|split; [exact is_space_spec|]].
  - rewrite disabled_tls_lowered. split.
    + intros (a & name & ws1 & sep & ws2 & value & b & E & Hname & Hrest).
      exists a, name, ws1, sep, ws2, value, b. split; [exact E|].
      destruct Hrest as (Hws1 & Hws2 & Hsep & Hvalue). cbn [In] in Hname.
      split; [|repeat split; try assumption; now apply same_word_lower].
      destruct Hname as [H|[H|[H|[]]]];
        [left|right; left|right; right]; apply same_word_lower; symmetry;
        exact H.
    + intros (a & name & ws1 & sep & ws2 & value & b & E & Hname & Hrest).
      exists a, name, ws1, sep, ws2, value, b. split; [exact E|].
      destruct Hrest as (Hws1 & Hws2 & Hsep & Hvalue).
      apply same_word_lower in Hvalue. cbn [In].
      split; [|repeat split; assumption].
      destruct Hname as [H|[H|H]]; apply same_word_lower in H;
        [left|right; left|right; right; left]; symmetry; exact H.
  - intros a b. unfold same_letter.
    rewrite !orb_true_iff, !andb_true_iff, Ascii.eqb_eq, !Nat.eqb_eq. tauto.
Qed.

(** The check fires on [Verify], a line break, [=] and [FALSEhood] after
    [ssl_]. *)
Example disabled_tls_in_longer_words :
  disabled_tls_check
    (lit "ssl_" ++ assignment (lit "Verify") [" "%char; newline] "="
                     (lit "  ") (lit "FALSE") ++ lit "hood")
  = true.
Proof. reflexivity. Qed.

Lemma body_accepts_spaced (cls1 sepcls cls2 : ascii -> bool) (r : list item)
  (u : text) :
  body_accepts ([many cls1; one sepcls; many cls2] ++ r) u
  <-> exists ws1 sep ws2 u',
        u = ws1 ++ [sep] ++ ws2 ++ u'
        /\ forallb cls1 ws1 = true /\ sepcls sep = true
        /\ forallb cls2 ws2 = true /\ body_accepts r u'.
Proof.
  cbn [app]. rewrite body_accepts_many. split.
  - intros (ws1 & u1 & -> & Hws1 & H).
    apply body_accepts_one in H. destruct H as (sep & u2 & -> & Hsep & H).
    apply body_accepts_many in H. destruct H as (ws2 & u' & -> & Hws2 & H).
    now exists ws1, sep, ws2, u'.
  - intros (ws1 & sep & ws2 & u' & -> & Hws1 & Hsep & Hws2 & H).
    exists ws1, (sep :: ws2 ++ u'). split; [reflexivity|].
    split; [assumption|]. apply body_accepts_one.
    exists sep, (ws2 ++ u'). split; [reflexivity|]. split; [assumption|].
    apply body_accepts_many. now exists ws2, u'.
Qed.

Lemma body_accepts_weak (name : string) (u : text) :
  body_accepts (weak name) u
  <-> exists word mid name',
        u = word ++ mid ++ name'
        /\ lower word = lit "cipher" /\ forallb dot mid = true
        /\ lower name' = lower (lit name).
Proof.
  unfold weak. rewrite body_accepts_literal_ci. split.
  - intros (word & u1 & -> & Hword & H). cbn [app] in H.
    apply body_accepts_many in H. destruct H as (mid & name' & -> & Hmid & H).
    apply body_accepts_end_literal_ci in H. now exists word, mid, name'.
  - intros (word & mid & name' & -> & Hword & Hmid & Hname).
    exists word, (mid ++ name'). split; [reflexivity|].
    split; [assumption|]. cbn [app]. apply body_accepts_many.
    exists mid, name'. split; [reflexivity|]. split; [assumption|].
    now apply body_accepts_end_literal_ci.
Qed.

(** The check in terms of the lower-cased forms of the two words. *)
Lemma weak_cipher_lowered (content : text) :
  weak_cipher_check content = true
  <-> exists a word mid name b,
        content = a ++ (word ++ mid ++ name) ++ b
        /\ lower word = lit "cipher"
        /\ forallb dot mid = true
        /\ In (lower name) [lit "rc4"; lit "des"; lit "md5"].
Proof.
  unfold weak_cipher_check.
  rewrite (re_search_body WEAK_CIPHER_RE content eq_refl). split.
  - intros (r & a & u & b & Hin & -> & Hacc).
    assert (Hr : exists name,
               r = weak name
               /\ In (lower (lit name)) [lit "rc4"; lit "des"; lit "md5"]).
    { cbn [WEAK_CIPHER_RE In] in Hin.
      destruct Hin as [<-|[<-|[<-|[]]]];
        [exists "RC4"%string|exists "DES"%string|exists "MD5"%string];
        (split; [reflexivity|cbn; tauto]). }
    destruct Hr as (name & -> & Hname).
    apply body_accepts_weak in Hacc.
    destruct Hacc as (word & mid & name' & -> & Hword & Hmid & Hn).
    exists a, word, mid, name', b.
    split; [reflexivity|]. split; [assumption|]. split; [assumption|].
    now rewrite Hn.
  - intros (a & word & mid & name & b & -> & Hword & Hmid & Hname).
    assert (Hr : exists n,
               In (weak n) WEAK_CIPHER_RE /\ lower name = lower (lit n)).
    { cbn [In] in Hname. destruct Hname as [H|[H|[H|[]]]];
        [exists "RC4"%string|exists "DES"%string|exists "MD5"%string];
        (split; [cbn; tauto|now rewrite <- H]). }
    destruct Hr as (n & Hin & Hn).
    exists (weak n), a, (word ++ mid ++ name), b.
    split; [assumption|]. split; [reflexivity|].
    apply body_accepts_weak. now exists word, mid, name.
Qed.

(** X18: on text of code points below 256, the weak-cipher check fires
    exactly on the texts in which [cipher], each letter small or capital,
    is followed on the same line by [rc4], [des] or [md5], each letter
    small or capital, at any distance and also inside a longer word. *)
Theorem weak_cipher_check_shape (content : text) :
  (weak_cipher_check content = true
   <-> exists a word mid name b,
         content = a ++ (word ++ mid ++ name) ++ b
         /\ same_word word (lit "cipher") = true
         /\ Forall (fun c => c <> newline) mid
         /\ (same_word name (lit "RC4") = true
             \/ same_word name (lit "DES") = true
             \/ same_word name (lit "MD5") = true))
  /\ (forall a b,
        same_letter a b = true
        <-> a = b
            \/ (is_capital a = true /\ code b = code a + 32)
            \/ (is_capital b = true /\ code a = code b + 32)).
Proof.
  assert (Hdot : forall mid, forallb dot mid = true
                             <-> Forall (fun c => c <> newline) mid).
  { intros mid. rewrite forallb_forall, Forall_forall.
    split; intros H c Hc; specialize (H c Hc); unfold dot in *.
    - intros ->. rewrite Ascii.eqb_refl in H. discriminate.
    - destruct (Ascii.eqb_spec c newline); [contradiction|reflexivity]. }
  split.
  - rewrite weak_cipher_lowered. split.
    + intros (a & word & mid & name & b & E & Hword & Hmid & Hname).
      exists a, word, mid, name, b. split; [exact E|].
      split; [now apply same_word_lower|].
      split; [now apply Hdot|]. cbn [In] in Hname.
      destruct Hname as [H|[H|[H|[]]]];
        [left|right; left|right; right]; apply same_word_lower; symmetry;
        exact H.
    + intros (a & word & mid & name & b & E & Hword & Hmid & Hname).
      exists a, word, mid, name, b. split; [exact E|].
      apply same_word_lower in Hword.
      split; [exact Hword|]. split; [now apply Hdot|].
      cbn [In].
      destruct Hname as [H|[H|H]]; apply same_word_lower in H;
        [left|right; left|right; right; left]; symmetry; exact H.
  - intros a b. unfold same_letter.
    rewrite !orb_true_iff, !andb_true_iff, Ascii.eqb_eq, !Nat.eqb_eq. tauto.
Qed.

(** The check fires on a comment that speaks of a cipher suite
    description. *)
Example weak_cipher_in_description :
  weak_cipher_check (lit "# Cipher suite description") = true.
Proof. reflexivity. Qed.

Lemma body_accepts_wildcard_pair (name : string) (r : list item) (u : text) :
  body_accepts (wildcard_pair name ++ r) u
  <-> exists ws1 ws2 u',
        u = wildcard_assignment name ws1 ws2 ++ u'
        /\ forallb is_space ws1 = true /\ forallb is_space ws2 = true
        /\ body_accepts r u'.
Proof.
  unfold wildcard_pair, wildcard_assignment, assignment.
  rewrite <- !app_assoc, body_accepts_literal. split.
  - intros (u1 & -> & H). apply body_accepts_spaced in H.
    destruct H as (ws1 & sep & ws2 & u2 & -> & Hws1 & Hsep & Hws2 & H).
    apply body_accepts_literal in H. destruct H as (u' & -> & H).
    unfold exactly in Hsep. apply Ascii.eqb_eq in Hsep. subst sep.
    exists ws1, ws2, u'. rewrite <- !app_assoc. now repeat split.
  - intros (ws1 & ws2 & u' & -> & Hws1 & Hws2 & H).
    exists (ws1 ++ [":"%char] ++ ws2 ++ quoted (lit "*") ++ u').
    split; [now rewrite <- !app_assoc|].
    apply body_accepts_spaced.
    exists ws1, ":"%char, ws2, (quoted (lit "*") ++ u').
    split; [reflexivity|]. split; [assumption|]. split; [reflexivity|].
    split; [assumption|]. apply body_accepts_literal. now exists u'.
Qed.

Lemma body_accepts_two_pairs (first second : string) (u : text) :
  body_accepts (wildcard_pair first ++ [many dot] ++ wildcard_pair second) u
  <-> exists ws1 ws2 mid ws3 ws4,
        u = wildcard_assignment first ws1 ws2 ++ mid
            ++ wildcard_assignment second ws3 ws4
        /\ forallb is_space (ws1 ++ ws2 ++ ws3 ++ ws4) = true
        /\ forallb dot mid = true.
Proof.
  rewrite body_accepts_wildcard_pair. split.
  - intros (ws1 & ws2 & u1 & -> & Hws1 & Hws2 & H). cbn [app] in H.
    apply body_accepts_many in H. destruct H as (mid & u2 & -> & Hmid & H).
    rewrite <- (app_nil_r (wildcard_pair second)) in H.
    apply body_accepts_wildcard_pair in H.
    destruct H as (ws3 & ws4 & u' & -> & Hws3 & Hws4 & H).
    cbn [body_accepts] in H. subst u'. rewrite app_nil_r.
    exists ws1, ws2, mid, ws3, ws4. split; [reflexivity|].
    rewrite !forallb_app, Hws1, Hws2, Hws3, Hws4. now split.
  - intros (ws1 & ws2 & mid & ws3 & ws4 & -> & Hws & Hmid).
    rewrite !forallb_app, !andb_true_iff in Hws.
    destruct Hws as (Hws1 & Hws2 & Hws3 & Hws4).
    exists ws1, ws2, (mid ++ wildcard_assignment second ws3 ws4).
    split; [reflexivity|]. split; [assumption|]. split; [assumption|].
    cbn [app]. apply body_accepts_many.
    exists mid, (wildcard_assignment second ws3 ws4).
    split; [reflexivity|]. split; [assumption|].
    rewrite <- (app_nil_r (wildcard_pair second)).
    apply body_accepts_wildcard_pair.
    exists ws3, ws4, []. rewrite app_nil_r. now repeat split.
Qed.

(** X19: the broad-IAM check fires exactly on the texts that hold a
    wildcard [Action] pair and a wildcard [Resource] pair, in either order,
    with no line break between the end of the first pair and the start of
    the second; white space and line breaks around the colons are
    accepted. *)
Theorem broad_iam_check_shape (content : text) :
  broad_iam_check content = true
  <-> exists a first second ws1 ws2 mid ws3 ws4 b,
        content = a ++ (wildcard_assignment first ws1 ws2 ++ mid
                        ++ wildcard_assignment second ws3 ws4) ++ b
        /\ ((first, second) = ("Action", "Resource")%string
            \/ (first, second) = ("Resource", "Action")%string)
        /\ forallb is_space (ws1 ++ ws2 ++ ws3 ++ ws4) = true
        /\ forallb dot mid = true.
Proof.
  unfold broad_iam_check. rewrite orb_true_iff.
  rewrite (re_search_body ACTION_RESOURCE_RE content eq_refl).
  rewrite (re_search_body RESOURCE_ACTION_RE content eq_refl). split.
  - intros [(r & a & u & b & Hin & -> & Hacc)
           |(r & a & u & b & Hin & -> & Hacc)];
      cbn [ACTION_RESOURCE_RE RESOURCE_ACTION_RE In] in Hin;
      destruct Hin as [<-|[]]; apply body_accepts_two_pairs in Hacc;
      destruct Hacc as (ws1 & ws2 & mid & ws3 & ws4 & -> & Hws & Hmid).
    + exists a, "Action"%string, "Resource"%string, ws1, ws2, mid, ws3, ws4, b.
      split; [reflexivity|]. split; [now left|]. now split.
    + exists a, "Resource"%string, "Action"%string, ws1, ws2, mid, ws3, ws4, b.
      split; [reflexivity|]. split; [now right|]. now split.
  - intros (a & first & second & ws1 & ws2 & mid & ws3 & ws4 & b & -> & Hnames
            & Hws & Hmid).
    destruct Hnames as [Hn|Hn]; inversion Hn; subst first second;
      [left|right].
    + exists (wildcard_pair "Action" ++ [many dot] ++ wildcard_pair "Resource"),
        a, (wildcard_assignment "Action" ws1 ws2 ++ mid
            ++ wildcard_assignment "Resource" ws3 ws4), b.
      split; [now left|]. split; [reflexivity|].
      apply body_accepts_two_pairs. now exists ws1, ws2, mid, ws3, ws4.
    + exists (wildcard_pair "Resource" ++ [many dot] ++ wildcard_pair "Action"),
        a, (wildcard_assignment "Resource" ws1 ws2 ++ mid
            ++ wildcard_assignment "Action" ws3 ws4), b.
      split; [now left|]. split; [reflexivity|].
      apply body_accepts_two_pairs. now exists ws1, ws2, mid, ws3, ws4.
Qed.

Lemma space_or_newline (ws : text) :
  forallb (in_set [Spaces; Chr newline]) ws = forallb is_space ws.
Proof.
  induction ws as [|c ws IH]; [reflexivity|]. cbn [forallb]. rewrite IH.
  f_equal. unfold in_set. cbn [existsb in_atom]. rewrite orb_false_r.
  destruct (Ascii.eqb_spec c newline) as [->|_]; [reflexivity|].
  apply orb_false_r.
Qed.

Lemma only_spaces (ws : text) :
  forallb (in_set [Spaces]) ws = forallb is_space ws.
Proof.
  induction ws as [|c ws IH]; [reflexivity|]. cbn [forallb]. rewrite IH.
  f_equal. unfold in_set. cbn [existsb in_atom]. apply orb_false_r.
Qed.

Lemma body_accepts_assignment_ci (name : text) (cls1 cls2 : ascii -> bool)
  (sep : ascii) (value u : text) :
  body_accepts (literal_ci name
                ++ [many cls1; one (exactly sep); many cls2]
                ++ literal_ci value) u
  <-> exists name' ws1 ws2 value',
        u = assignment name' ws1 sep ws2 value'
        /\ lower name' = lower name
        /\ forallb cls1 ws1 = true /\ forallb cls2 ws2 = true
        /\ lower value' = lower value.
Proof.
  unfold assignment. rewrite body_accepts_literal_ci. split.
  - intros (name' & u1 & -> & Hname & H). apply body_accepts_spaced in H.
    destruct H as (ws1 & sep' & ws2 & value' & -> & Hws1 & Hsep & Hws2 & H).
    apply body_accepts_end_literal_ci in H.
    unfold exactly in Hsep. apply Ascii.eqb_eq in Hsep. subst sep'.
    now exists name', ws1, ws2, value'.
  - intros (name' & ws1 & ws2 & value' & -> & Hname & Hws1 & Hws2 & Hvalue).
    exists name', (ws1 ++ [sep] ++ ws2 ++ value').
    split; [reflexivity|]. split; [assumption|].
    apply body_accepts_spaced. exists ws1, sep, ws2, value'.
    split; [reflexivity|]. split; [assumption|].
    split; [apply Ascii.eqb_refl|]. split; [assumption|].
    now apply body_accepts_end_literal_ci.
Qed.

(** The check in terms of the lower-cased forms of the name and the
    value. *)
Lemma public_storage_lowered (content : text) :
  public_storage_check content = true
  <-> exists a name ws1 sep ws2 value b,
        content = a ++ assignment name ws1 sep ws2 value ++ b
        /\ (lower name = quoted (lit "public") /\ sep = ":"%char
            \/ lower name = lit "public" /\ sep = "="%char)
        /\ forallb is_space ws1 = true /\ forallb is_space ws2 = true
        /\ lower value = lit "true".
Proof.
  unfold public_storage_check.
  rewrite (re_search_body PUBLIC_RE content eq_refl). split.
  - intros (r & a & u & b & Hin & -> & Hacc).
    cbn [PUBLIC_RE In] in Hin. destruct Hin as [<-|[<-|[]]];
      apply body_accepts_assignment_ci in Hacc;
      destruct Hacc as (name & ws1 & ws2 & value & -> & Hname & Hws1 & Hws2
                        & Hvalue).
    + rewrite space_or_newline in Hws1, Hws2.
      exists a, name, ws1, ":"%char, ws2, value, b.
      split; [reflexivity|]. split; [left; now split|]. now repeat split.
    + rewrite only_spaces in Hws1, Hws2.
      exists a, name, ws1, "="%char, ws2, value, b.
      split; [reflexivity|]. split; [right; now split|]. now repeat split.
  - intros (a & name & ws1 & sep & ws2 & value & b & -> & Hname & Hws1 & Hws2
            & Hvalue).
    destruct Hname as [[Hname ->]|[Hname ->]].
    + eexists _, a, (assignment name ws1 ":" ws2 value), b.
      split; [left; reflexivity|]. split; [reflexivity|].
      apply body_accepts_assignment_ci. exists name, ws1, ws2, value.
      rewrite !space_or_newline. now repeat split.
    + eexists _, a, (assignment name ws1 "=" ws2 value), b.
      split; [right; left; reflexivity|]. split; [reflexivity|].
      apply body_accepts_assignment_ci. exists name, ws1, ws2, value.
      rewrite !only_spaces. now repeat split.
Qed.

(** X20: on text of code points below 256, the public-storage check fires
    exactly on the texts that hold [public] in double quotes, a colon and
    [true], or [public] without quotes, an equals sign and [true], each
    letter small or capital and with any white space around the sign.  The
    quoted name goes with the colon only and the unquoted name with the
    equals sign only. *)
Theorem public_storage_check_shape (content : text) :
  (public_storage_check content = true
   <-> exists a name ws1 sep ws2 value b,
         content = a ++ assignment name ws1 sep ws2 value ++ b
         /\ (same_word name (quoted (lit "public")) = true /\ sep = ":"%char
             \/ same_word name (lit "public") = true /\ sep = "="%char)
         /\ forallb is_space ws1 = true /\ forallb is_space ws2 = true
         /\ same_word value (lit "true") = true)
  /\ (forall c,
        is_space c = true
        <-> 9 <= code c <= 13 \/ 28 <= code c <= 32 \/ code c = 133
            \/ code c = 160)
  /\ (forall a b,
        same_letter a b = true
        <-> a = b
            \/ (is_capital a = true /\ code b = code a + 32)
            \/ (is_capital b = true /\ code a = code b + 32)).
Proof.
  split; [|split; [exact is_space_spec|]].
  - rewrite public_storage_lowered. split.
    + intros (a & name & ws1 & sep & ws2 & value & b & E & Hname & Hrest).
      exists a, name, ws1, sep, ws2, value, b. split; [exact E|].
      destruct Hrest as (Hws1 & Hws2 & Hvalue).
      split; [|repeat split; try assumption; now apply same_word_lower].
      destruct Hname as [[H ->]|[H ->]]; [left|right];
        (split; [now apply same_word_lower|reflexivity]).
    + intros (a & name & ws1 & sep & ws2 & value & b & E & Hname & Hrest).
      exists a, name, ws1, sep, ws2, value, b. split; [exact E|].
      destruct Hrest as (Hws1 & Hws2 & Hvalue).
      apply same_word_lower in Hvalue.
      split; [|repeat split; assumption].
      destruct Hname as [[H ->]|[H ->]]; apply same_word_lower in H;
        [left|right]; (split; [exact H|reflexivity]).
  - intros a b. unfold same_letter.
    rewrite !orb_true_iff, !andb_true_iff, Ascii.eqb_eq, !Nat.eqb_eq. tauto.
Qed.

(** The JSON and INI spellings fire, the YAML spelling does not. *)
Example public_storage_spellings :
  public_storage_check (quoted (lit "Public") ++ lit " : TRUE") = true
  /\ public_storage_check (lit "public = true") = true
  /\ public_storage_check (lit "public: true") = false.
Proof. repeat split. Qed.

(* ================================================================== *)
(** * Lines of the evidence *)
(* ================================================================== *)

Lemma count_newlines_app (a b : text) :
  count_newlines (a ++ b) = count_newlines a + count_newlines b.
Proof. apply count_occ_app. Qed.

Lemma count_newlines_absent (u : text) :
  ~ In newline u -> count_newlines u = 0.
Proof. apply count_occ_not_In. Qed.

Lemma replaced_keeps_newlines (body : list item) (mask : text)
  (prev : option ascii) (x z : text) :
  avoids body newline = true -> count_newlines mask = 0 ->
  replaced body mask prev x z -> count_newlines z = count_newlines x.
Proof.
  intros Hav Hmask. induction 1 as [prev|prev c x z _ IH|prev u x z Hocc _ IH].
  - reflexivity.
  - rewrite !count_newlines_cons. now rewrite IH.
  - rewrite !count_newlines_app, IH, Hmask. destruct Hocc as (_ & Hacc & _).
    now rewrite (count_newlines_absent u (body_accepts_avoids _ _ Hav _ Hacc)).
Qed.

Lemma re_sub_keeps_newlines (body : list item) (mask x : text) :
  plain_body body -> avoids body newline = true -> count_newlines mask = 0 ->
  count_newlines (re_sub (bounded body) mask x) = count_newlines x.
Proof.
  intros (Hrep & Hmin & _) Hav Hmask.
  apply (replaced_keeps_newlines body mask None); try assumption.
  now apply re_sub_replaced.
Qed.

Lemma redact_count_newlines (text0 : text) :
  count_newlines (_redact_sensitive_data text0) = count_newlines text0.
Proof.
  unfold _redact_sensitive_data, EMAIL_RE, CARD_RE, PHONE_RE, TOKEN_RE.
  rewrite (re_sub_keeps_newlines TOKEN_BODY TOKEN_MASK _ token_plain
             eq_refl eq_refl).
  rewrite (re_sub_keeps_newlines PHONE_BODY PHONE_MASK _ phone_plain
             eq_refl eq_refl).
  rewrite (re_sub_keeps_newlines CARD_BODY CARD_MASK _ card_plain
             eq_refl eq_refl).
  apply (re_sub_keeps_newlines EMAIL_BODY EMAIL_MASK _ email_plain
           eq_refl eq_refl).
Qed.

(** X21: redaction never adds or removes a line break, so the redacted text
    has as many lines as the text it was given. *)
Theorem redact_keeps_line_breaks (text0 : text) :
  count_newlines (_redact_sensitive_data text0) = count_newlines text0
  /\ length (split_lines (_redact_sensitive_data text0))
     = length (split_lines text0).
Proof.
  split; [apply redact_count_newlines|].
  now rewrite !split_lines_length, redact_count_newlines.
Qed.

Lemma split_lines_from_newline_free (s : text) :
  forall cur,
    count_newlines (rev cur) = 0 ->
    Forall (fun l => count_newlines l = 0) (split_lines_from cur s).
Proof.
  induction s as [|c s IH]; intros cur Hcur; cbn [split_lines_from].
  - now constructor.
  - destruct (Ascii.eqb c newline) eqn:E.
    + constructor; [assumption|]. now apply IH.
    + apply IH. cbn [rev]. rewrite count_newlines_app, Hcur.
      rewrite count_newlines_cons, E. reflexivity.
Qed.

Lemma count_newlines_join (ls : list text) :
  Forall (fun l => count_newlines l = 0) ls ->
  count_newlines (join [newline] ls) = length ls - 1.
Proof.
  induction 1 as [|l ls Hl Hls IH]; [reflexivity|].
  destruct ls as [|l' ls]; [cbn [join length]; rewrite Hl; lia|].
  rewrite join_cons_nonempty by discriminate.
  rewrite !count_newlines_app, Hl, IH. cbn. lia.
Qed.

Lemma Forall_slice {A} (P : A -> Prop) (l : list A) (lo hi : nat) :
  Forall P l -> Forall P (slice l lo hi).
Proof.
  intros H. unfold slice. apply Forall_forall. intros x Hx.
  rewrite Forall_forall in H. apply H.
  rewrite <- (firstn_skipn lo l). apply in_or_app. right.
  rewrite <- (firstn_skipn (hi - lo) (skipn lo l)). apply in_or_app.
  now left.
Qed.

Lemma line_index_monotone (content : text) (m n : nat) :
  m <= n -> line_index content m <= line_index content n.
Proof.
  intros Hmn. unfold line_index.
  replace (firstn m content) with (firstn m (firstn n content)).
  - apply count_newlines_firstn.
  - rewrite firstn_firstn. f_equal. lia.
Qed.

(** X22: the evidence of a rule finding is cut at line breaks: its lines
    run from two before the line where the match starts, or from the first
    line, to two after the line where it ends, or to the last line.  So it
    has the lines of the match and at most four more, also after
    redaction. *)
Theorem evidence_line_count
  (rule : Rule) (p : Path) (content : text) (m : nat * nat) (u : text) :
  fst m <= snd m ->
  length (split_lines
            (evidence_snippet (match_finding rule p content m u)))
  = Nat.min (length (split_lines content)) (line_index content (snd m) + 3)
    - (line_index content (fst m) - 2)
  /\ line_index content (snd m) - line_index content (fst m) + 1
     <= length (split_lines
                  (evidence_snippet (match_finding rule p content m u)))
     <= line_index content (snd m) - line_index content (fst m) + 5.
Proof.
  intros Hm. cbn [match_finding evidence_snippet].
  rewrite !split_lines_length, redact_count_newlines.
  rewrite <- (split_lines_length content).
  unfold _extract_evidence. fold (line_index content (fst m)).
  fold (line_index content (snd m)).
  pose proof (line_index_monotone content _ _ Hm) as Hmono.
  pose proof (line_index_in_range content (fst m)) as Hs.
  pose proof (line_index_in_range content (snd m)) as He.
  remember (line_index content (fst m)) as sl.
  remember (line_index content (snd m)) as el.
  remember (split_lines content) as lines.
  replace (Z.to_nat (Z.max 0 (Z.of_nat sl - 2))) with (sl - 2) by lia.
  rewrite count_newlines_join.
  - unfold slice. rewrite length_firstn, length_skipn. lia.
  - apply Forall_slice. subst lines. now apply split_lines_from_newline_free.
Qed.

Lemma evidence_line_count_witness :
  length (split_lines
            (evidence_snippet
               (match_finding sample_rule some_path iam_policy_json (60, 75)
                  [])))
  = Nat.min (length (split_lines iam_policy_json))
      (line_index iam_policy_json 75 + 3)
    - (line_index iam_policy_json 60 - 2).
Proof.
  apply (evidence_line_count sample_rule some_path iam_policy_json (60, 75) []).
  cbn. lia.
Defined.

(* ================================================================== *)
(** * Detectors of one file *)
(* ================================================================== *)

Lemma text_in_spec (x : text) (l : list text) : text_in x l = true <-> In x l.
Proof.
  unfold text_in. rewrite existsb_exists. split.
  - intros (y & Hy & E). apply text_eqb_eq in E. now subst.
  - intros H. exists x. split; [assumption|]. now apply text_eqb_eq.
Qed.

Lemma document_not_config (s : text) :
  text_in s document_suffixes = true -> text_in s config_suffixes = false.
Proof.
  intros H. apply text_in_spec in H. cbn [document_suffixes In] in H.
  destruct H as [<-|[<-|[<-|[<-|[]]]]]; reflexivity.
Qed.

Lemma keep_first_length (fs : list Finding) :
  length (keep_first_per_key fs) <= length fs.
Proof.
  induction fs as [|f fs IH]; [reflexivity|]. cbn [keep_first_per_key length].
  pose proof (filter_length_le
                (fun g => negb (key_eqb (finding_key g) (finding_key f)))
                (keep_first_per_key fs)).
  lia.
Qed.

Lemma gap_makers_length (p : Path) (content : text) :
  length (gap_makers p content) <= 10.
Proof.
  unfold gap_makers. destruct (_is_policy_document content); [|cbn; lia].
  rewrite length_map.
  apply (filter_length_le
           (fun e => section_missing (lower content) (snd e))
           required_entries).
Qed.

Lemma config_makers_length (p : Path) (content : text) :
  length (config_makers p content) <= 4.
Proof.
  unfold config_makers. rewrite length_map.
  apply (filter_length_le fst (config_checks p content)).
Qed.

Lemma file_makers_length (w : World) (p : Path) :
  length (file_makers w [] p)
  <= (if text_in (suffix p) document_suffixes then 10 else 0)
     + (if text_in (suffix p) config_suffixes then 4 else 0).
Proof.
  unfold file_makers. destruct (read_text w p) as [content|]; [|cbn; lia].
  unfold content_makers. cbn [flat_map app].
  pose proof (gap_makers_length p content).
  pose proof (config_makers_length p content).
  rewrite length_app.
  destruct (text_in (suffix p) document_suffixes),
    (text_in (suffix p) config_suffixes); cbn [length]; lia.
Qed.

Lemma filter_frameworks_length (frameworks : option (list Framework))
  (fs : list Finding) :
  length (filter_frameworks frameworks fs) <= length fs.
Proof.
  destruct frameworks as [[|fw fws]|]; cbn [filter_frameworks]; try lia.
  apply filter_length_le.
Qed.

Lemma makers_bound (w : World) (l : list Path) :
  length (flat_map (file_makers w []) l)
  <= 10 * length (filter (fun p => text_in (suffix p) document_suffixes) l)
     + 4 * length (filter (fun p => text_in (suffix p) config_suffixes) l).
Proof.
  induction l as [|p l IH]; [reflexivity|].
  cbn [flat_map filter]. rewrite length_app.
  pose proof (file_makers_length w p).
  destruct (text_in (suffix p) document_suffixes),
    (text_in (suffix p) config_suffixes); cbn [length]; lia.
Qed.

(** X23: with no rule loaded, a scan reports at most ten findings for each
    visited file whose suffix is [.md], [.txt], [.doc] or [.docx] and at
    most four for each visited file whose suffix is [.yml], [.yaml],
    [.json], [.conf], [.ini] or [.toml], and every finding names a visited
    file with one of these ten suffixes: suffixes are compared exactly, no
    suffix is of both kinds, and a file is given to one detector at
    most. *)
Theorem detector_findings_bounded
  (w : World) (paths : list text) (frameworks : option (list Framework))
  (st : nat) :
  length (findings (scan_paths w [] paths frameworks st))
  <= 10 * length (filter
                    (fun p => text_in (suffix p)
                                [lit ".md"; lit ".txt"; lit ".doc";
                                 lit ".docx"])
                    (files_visited w paths))
     + 4 * length (filter
                     (fun p => text_in (suffix p)
                                 [lit ".yml"; lit ".yaml"; lit ".json";
                                  lit ".conf"; lit ".ini"; lit ".toml"])
                     (files_visited w paths))
  /\ (forall f,
        In f (findings (scan_paths w [] paths frameworks st)) ->
        exists p,
          In p (files_visited w paths)
          /\ file_path f = path_str p
          /\ text_in (suffix p)
               [lit ".md"; lit ".txt"; lit ".doc"; lit ".docx"; lit ".yml";
                lit ".yaml"; lit ".json"; lit ".conf"; lit ".ini";
                lit ".toml"] = true)
  /\ (forall s,
        text_in s [lit ".md"; lit ".txt"; lit ".doc"; lit ".docx"] = true ->
        text_in s [lit ".yml"; lit ".yaml"; lit ".json"; lit ".conf";
                   lit ".ini"; lit ".toml"] = false).
Proof.
  split; [|split; [|exact document_not_config]].
  - cbn [scan_paths findings].
    rewrite <- (Permutation_length (sort_by_perm severity_rank _)).
    unfold deduplicated_findings. rewrite deduplicate_keep_first.
    pose proof (keep_first_length
                  (filter_frameworks frameworks
                     (all_findings (traverse w [] paths (S st))))) as H1.
    pose proof (filter_frameworks_length frameworks
                  (all_findings (traverse w [] paths (S st)))) as H2.
    rewrite traverse_acc in H1, H2 |- *. rewrite with_ids_length in H2.
    pose proof (makers_bound w (files_visited w paths)) as H3.
    change document_suffixes
      with [lit ".md"; lit ".txt"; lit ".doc"; lit ".docx"] in H3.
    change config_suffixes
      with [lit ".yml"; lit ".yaml"; lit ".json"; lit ".conf"; lit ".ini";
            lit ".toml"] in H3.
    lia.
  - intros f Hin. apply in_findings_traversed in Hin.
    rewrite traverse_acc in Hin. apply in_with_ids_elim in Hin.
    destruct Hin as (mk & u & Hmk & ->).
    apply in_flat_map in Hmk. destruct Hmk as (p & Hp & Hmk).
    exists p. split; [exact Hp|].
    split; [now apply (file_makers_made_for w [] p mk Hmk)|].
    pose proof (file_makers_length w p) as Hlen.
    change (text_in (suffix p)
              (document_suffixes ++ config_suffixes) = true).
    unfold text_in in *. rewrite existsb_app.
    destruct (existsb (text_eqb (suffix p)) document_suffixes);
      [reflexivity|].
    destruct (existsb (text_eqb (suffix p)) config_suffixes);
      [reflexivity|].
    destruct (file_makers w [] p); [destruct Hmk|cbn in Hlen; lia].
Qed.


(* ================================================================== *)
(** * De-duplication and sorting once more *)
(* ================================================================== *)

Lemma keep_first_fixed (fs : list Finding) :
  NoDup (map finding_key fs) -> keep_first_per_key fs = fs.
Proof.
  induction fs as [|f fs IH]; [reflexivity|]. cbn [map keep_first_per_key].
  intros H. inversion H as [|? ? Hn Hl]; subst. rewrite (IH Hl). f_equal.
  apply forallb_filter_id. apply forallb_forall. intros g Hg.
  apply negb_true_iff. destruct (key_eqb (finding_key g) (finding_key f)) eqn:E;
    [|reflexivity].
  apply key_eqb_eq in E. destruct Hn. rewrite <- E. now apply in_map.
Qed.

(** X24: de-duplication is idempotent, never lengthens the list, and leaves
    a list unchanged exactly when its keys are pairwise distinct; so it
    would change nothing if it were run again on the findings of a
    result. *)
Theorem deduplicate_findings_fixed_points :
  (forall fs,
      _deduplicate_findings (_deduplicate_findings fs)
      = _deduplicate_findings fs
      /\ length (_deduplicate_findings fs) <= length fs
      /\ (_deduplicate_findings fs = fs <-> NoDup (map finding_key fs)))
  /\ (forall w rules paths frameworks st,
        _deduplicate_findings
          (findings (scan_paths w rules paths frameworks st))
        = findings (scan_paths w rules paths frameworks st)).
Proof.
  split.
  - intros fs. rewrite !deduplicate_keep_first. split; [|split].
    + apply keep_first_fixed, keep_first_NoDup.
    + apply keep_first_length.
    + split; [|apply keep_first_fixed].
      intros H. rewrite <- H. apply keep_first_NoDup.
  - intros w rules paths frameworks st. rewrite deduplicate_keep_first.
    apply keep_first_fixed. cbn [scan_paths findings].
    apply (Permutation_NoDup
             (Permutation_map finding_key (sort_by_perm _ _))).
    unfold deduplicated_findings. rewrite deduplicate_keep_first.
    apply keep_first_NoDup.
Qed.

Lemma filter_key_head {A} (key : A -> nat) (x : A) (l : list A) :
  filter (fun a => key a =? key x) (x :: l)
  = x :: filter (fun a => key a =? key x) l.
Proof. cbn [filter]. now rewrite Nat.eqb_refl. Qed.

Lemma sorted_stable_unique {A} (key : A -> nat) (l1 : list A) :
  forall l2,
    StronglySorted (key_le key) l1 -> StronglySorted (key_le key) l2 ->
    (forall r, filter (fun a => key a =? r) l1
               = filter (fun a => key a =? r) l2) ->
    l1 = l2.
Proof.
  induction l1 as [|x l1 IH]; intros [|y l2] H1 H2 Hf; [reflexivity| | |].
  - specialize (Hf (key y)). rewrite filter_key_head in Hf. discriminate.
  - specialize (Hf (key x)). rewrite filter_key_head in Hf. discriminate.
  - assert (Hxy : key y <= key x).
    { assert (Hin : In x (y :: l2)).
      { apply (filter_In (fun a => key a =? key x)). rewrite <- Hf.
        rewrite filter_key_head. now left. }
      destruct Hin as [->|Hin]; [lia|].
      now apply (sorted_head_least key y l2 H2). }
    assert (Hyx : key x <= key y).
    { assert (Hin : In y (x :: l1)).
      { apply (filter_In (fun a => key a =? key y)). rewrite Hf.
        rewrite filter_key_head. now left. }
      destruct Hin as [->|Hin]; [lia|].
      now apply (sorted_head_least key x l1 H1). }
    assert (Hk : key x = key y) by lia.
    pose proof (Hf (key x)) as Hhead. rewrite filter_key_head in Hhead.
    rewrite Hk, filter_key_head in Hhead. injection Hhead as Hx _.
    subst y. f_equal. apply IH.
    + now inversion H1.
    + now inversion H2.
    + intros r. specialize (Hf r). cbn [filter] in Hf.
      destruct (key x =? r); [now inversion Hf|exact Hf].
Qed.

(** X25: sorting by severity has one possible outcome: a list that is
    sorted by rank and has, for every rank, the findings of that rank in
    the order of the given list is the list the sort returns.  Any stable
    sort therefore gives the finding list of the result. *)
Theorem sort_by_severity_unique (fs sorted : list Finding) :
  StronglySorted (key_le severity_rank) sorted ->
  (forall r, filter (fun f => severity_rank f =? r) sorted
             = filter (fun f => severity_rank f =? r) fs) ->
  sorted = sort_by severity_rank fs.
Proof.
  intros Hsorted Hstable. apply (sorted_stable_unique severity_rank).
  - exact Hsorted.
  - apply sort_by_sorted.
  - intros r. rewrite Hstable. symmetry. apply sort_by_stable.
Qed.

Lemma sort_by_severity_unique_witness :
  [ sample_finding "aws_key" CRITICAL "1-1"; sample_finding "api_key" HIGH "5-5";
    sample_finding "email" MEDIUM "3-3"; sample_finding "email" MEDIUM "3-3";
    sample_finding "phone" MEDIUM "4-4" ]
  = sort_by severity_rank sample_findings.
Proof.
  apply sort_by_severity_unique.
  - repeat constructor; unfold key_le; cbn; lia.
  - intros [|[|[|[|r]]]]; reflexivity.
Defined.

(* ================================================================== *)
(** * Keys of the findings of one file *)
(* ================================================================== *)

(** X26: two matches of one rule that start on the same line and end on the
    same line give findings that differ in their identifier only, with one
    key, so that de-duplication keeps the first of them and drops the
    other: a second match on a line is not reported. *)
Theorem same_line_matches_collapse
  (rule : Rule) (p : Path) (content : text) (m1 m2 : nat * nat)
  (u1 u2 : text) :
  line_index content (fst m1) = line_index content (fst m2) ->
  line_index content (snd m1) = line_index content (snd m2) ->
  match_finding rule p content m2 u1 = match_finding rule p content m1 u1
  /\ finding_key (match_finding rule p content m1 u1)
     = finding_key (match_finding rule p content m2 u2)
  /\ _deduplicate_findings
       [match_finding rule p content m1 u1; match_finding rule p content m2 u2]
     = [match_finding rule p content m1 u1].
Proof.
  unfold line_index. intros Hs He.
  assert (Hkey : finding_key (match_finding rule p content m1 u1)
                 = finding_key (match_finding rule p content m2 u2)).
  { unfold finding_key, match_finding. cbn [file_path rule_id line_range].
    now rewrite Hs, He. }
  split; [|split; [exact Hkey|]].
  - unfold match_finding, _extract_evidence. now rewrite Hs, He.
  - rewrite deduplicate_keep_first. cbn [keep_first_per_key filter].
    rewrite <- Hkey.
    now rewrite (proj2 (key_eqb_eq _ _) eq_refl).
Qed.

Lemma same_line_matches_collapse_witness :
  _deduplicate_findings
    [match_finding sample_rule some_path (lit "a@b.io c@d.io") (0, 6) (lit "1");
     match_finding sample_rule some_path (lit "a@b.io c@d.io") (7, 13) (lit "2")]
  = [match_finding sample_rule some_path (lit "a@b.io c@d.io") (0, 6) (lit "1")].
Proof.
  apply (same_line_matches_collapse sample_rule some_path
           (lit "a@b.io c@d.io") (0, 6) (7, 13) (lit "1") (lit "2"));
    reflexivity.
Defined.

Lemma keys_with_ids {X} (w : World) (g : X -> text -> Finding) (l : list X) :
  (forall x u u', finding_key (g x u) = finding_key (g x u')) ->
  forall st,
    map finding_key (with_ids w (map g l) st)
    = map (fun x => finding_key (g x [])) l.
Proof.
  intros Hfree. induction l as [|x l IH]; intros st; cbn [map with_ids];
    [reflexivity|].
  now rewrite IH, (Hfree x _ []).
Qed.

Lemma NoDup_by_rule {X} (k : X -> text * text * text) (l : list X) :
  NoDup (map (fun x => snd (fst (k x))) l) -> NoDup (map k l).
Proof.
  intros H. rewrite <- (map_map k (fun key => snd (fst key))) in H.
  now apply NoDup_map_inv in H.
Qed.

Lemma gap_rule_ids_distinct (p : Path) :
  NoDup (map (fun e => rule_id (gap_finding p (fst e) (snd e) []))
           required_entries).
Proof.
  cbn [gap_finding rule_id]. vm_compute.
  repeat (constructor; [cbn [In]; intuition discriminate|]). constructor.
Qed.

(** X27: the gap findings of one document have pairwise distinct keys, and
    so have the findings of one configuration file: de-duplication removes
    none of them. *)
Theorem detector_findings_have_distinct_keys
  (w : World) (p : Path) (content : text) (st : nat) :
  NoDup (map finding_key (fst (scan_document w p content st)))
  /\ NoDup (map finding_key (fst (scan_config w p content st)))
  /\ _deduplicate_findings (fst (scan_document w p content st))
     = fst (scan_document w p content st)
  /\ _deduplicate_findings (fst (scan_config w p content st))
     = fst (scan_config w p content st).
Proof.
  assert (Hdoc : NoDup (map finding_key (fst (scan_document w p content st)))).
  { rewrite scan_document_acc. cbn [fst]. unfold gap_makers.
    destruct (_is_policy_document content); [|constructor].
    rewrite (keys_with_ids w (fun e => gap_finding p (fst e) (snd e)))
      by reflexivity.
    apply NoDup_map_filter.
    apply (NoDup_by_rule (fun e => finding_key (gap_finding p (fst e) (snd e) []))).
    apply gap_rule_ids_distinct. }
  assert (Hconf : NoDup (map finding_key (fst (scan_config w p content st)))).
  { rewrite scan_config_acc. cbn [fst]. unfold config_makers, config_checks.
    destruct (disabled_tls_check content), (broad_iam_check content),
      (public_storage_check content), (weak_cipher_check content);
      cbn [filter fst snd map with_ids];
      repeat (constructor; [cbn [In]; intuition discriminate|]);
      constructor. }
  split; [exact Hdoc|]. split; [exact Hconf|].
  rewrite !deduplicate_keep_first.
  split; now apply keep_first_fixed.
Qed.
